(** * Headroom sidecar: the CCR store and the compression decision pipeline

    A shallow embedding of [headroom-sidecar/server.py] and of
    [headroom-sidecar/config.py], and the properties of the
    content-addressed store, the fallback compressor, the request handlers
    and the configuration.

    Conventions of the embedding.
    - A Python [str] is a [string] whose characters are the code points
      below 256; [lower] is Python's [str.lower] on that range.
    - A JSON value ([Any] after request parsing) is a [json] tree; a float
      is carried by its [repr], the only thing [json.dumps] reads of it.
    - A [dict] is an association list in insertion order.
    - [time.time()] reads a clock [nat -> Z]: the n-th reading of the run.
    - Exceptions are the [Raise] results of a small state-and-error monad
      over the process globals [ccr_store] and [metrics]. *)

From Stdlib Require Import ZArith NArith List String Ascii Bool Lia QArith.
From Stdlib Require Import DecimalString DecimalFacts DecimalPos.
From Stdlib Require Import Permutation.
Import ListNotations.

Local Open Scope list_scope.
Local Open Scope string_scope.
Local Open Scope Z_scope.

#[local] Set Warnings "-register-all".

(* ------------------------------------------------------------------ *)
(** ** Python strings *)

Module PyStr.

Definition code (c : ascii) : Z := Z.of_N (N_of_ascii c).

Definition chr (n : Z) : ascii := ascii_of_N (Z.to_N n).

(** [len(s)] *)
Definition len (s : string) : Z := Z.of_nat (String.length s).

(** [str.lower] on one code point below 256: the ASCII capitals and the
    Latin-1 capitals (all of 0xC0..0xDE but the multiplication sign). *)
Definition lower_char (c : ascii) : ascii :=
  let n := code c in
  if ((65 <=? n) && (n <=? 90)) || ((192 <=? n) && (n <=? 222) && negb (n =? 215))
  then chr (n + 32) else c.

Fixpoint lower (s : string) : string :=
  match s with
  | EmptyString => EmptyString
  | String c s' => String (lower_char c) (lower s')
  end.

(** [q in s] for two strings. *)
Fixpoint contains (q s : string) : bool :=
  String.prefix q s ||
  match s with
  | EmptyString => false
  | String _ s' => contains q s'
  end.

(** [sep.join(l)] *)
Fixpoint join (sep : string) (l : list string) : string :=
  match l with
  | [] => EmptyString
  | [x] => x
  | x :: l' => x ++ sep ++ join sep l'
  end.

(** [str(n)] for an [int]. *)
Definition str_of_Z (n : Z) : string := NilZero.string_of_int (Z.to_int n).

Definition dquote : ascii := "034"%char.
Definition quoted (s : string) : string := String dquote (s ++ String dquote EmptyString).

Definition hex_digit (n : Z) : ascii :=
  match n mod 16 with
  | 0 => "0" | 1 => "1" | 2 => "2" | 3 => "3" | 4 => "4" | 5 => "5" | 6 => "6" | 7 => "7"
  | 8 => "8" | 9 => "9" | 10 => "a" | 11 => "b" | 12 => "c" | 13 => "d" | 14 => "e"
  | _ => "f"
  end%char.

End PyStr.

(* ------------------------------------------------------------------ *)
(** ** JSON values and [json.dumps] *)

Inductive json : Type :=
| JNull
| JBool (b : bool)
| JInt (n : Z)
| JFloat (repr : string)
| JStr (s : string)
| JList (l : list json)
| JDict (d : list (string * json)).

Module Json.

Import PyStr.

(** [json.encoder.py_encode_basestring_ascii] on one code point: the short
    escapes, [\u00xx] for everything else outside [' '..'~'].  Strings hold
    code points below 256 here; the escapes of larger ones, and of
    surrogates, are out of reach. *)
Definition escape_char (c : ascii) : string :=
  let n := code c in
  if n =? 34 then String "\" (String dquote EmptyString)
  else if n =? 92 then "\\"
  else if n =? 10 then "\n"
  else if n =? 13 then "\r"
  else if n =? 9 then "\t"
  else if n =? 12 then "\f"
  else if n =? 8 then "\b"
  else if (32 <=? n) && (n <=? 126) then String c EmptyString
  else "\u00" ++ String (hex_digit (n / 16)) (String (hex_digit n) EmptyString).

Fixpoint escape (s : string) : string :=
  match s with
  | EmptyString => EmptyString
  | String c s' => escape_char c ++ escape s'
  end.

Definition encode_basestring (s : string) : string := quoted (escape s).

(** Stable insertion sort of rendered [(key, text)] items by key, the order
    [sort_keys=True] gives a dict (keys of a dict are distinct). *)
Fixpoint insert_item (x : string * string) (l : list (string * string)) :=
  match l with
  | [] => [x]
  | y :: l' => if String.leb (fst x) (fst y) then x :: l else y :: insert_item x l'
  end.

Fixpoint sort_items (l : list (string * string)) :=
  match l with
  | [] => []
  | x :: l' => insert_item x (sort_items l')
  end.

Definition render_item (kv : string * string) : string :=
  encode_basestring (fst kv) ++ ": " ++ snd kv.

(** [json.dumps(v, sort_keys=sort_keys)] with the default separators and
    [ensure_ascii]. *)
Fixpoint dumps (sort_keys : bool) (v : json) : string :=
  match v with
  | JNull => "null"
  | JBool true => "true"
  | JBool false => "false"
  | JInt n => str_of_Z n
  | JFloat r => r
  | JStr s => encode_basestring s
  | JList l => "[" ++ join ", " (map (dumps sort_keys) l) ++ "]"
  | JDict d =>
      let items := map (fun kv => (fst kv, dumps sort_keys (snd kv))) d in
      "{" ++ join ", " (map render_item (if sort_keys then sort_items items else items)) ++ "}"
  end.

(** [d.get(k)] and [d.get(k, default)] *)
Fixpoint get (k : string) (d : list (string * json)) : option json :=
  match d with
  | [] => None
  | (k', v) :: d' => if String.eqb k k' then Some v else get k d'
  end.

Definition get_default (k : string) (default : json) (d : list (string * json)) : json :=
  match get k d with Some v => v | None => default end.

(** [d[k] = v]: an existing key keeps its place, a new one goes last. *)
Fixpoint set (k : string) (v : json) (d : list (string * json)) : list (string * json) :=
  match d with
  | [] => [(k, v)]
  | (k', v') :: d' => if String.eqb k k' then (k, v) :: d' else (k', v') :: set k v d'
  end.

End Json.

(* ------------------------------------------------------------------ *)
(** ** SHA-256 ([hashlib.sha256]) over bytes, words as [Z] modulo 2^32 *)

Module Sha256.

(** The low 32 bits: [x mod 2^32]. *)
Definition w32 (x : Z) : Z := Z.land x 4294967295.
Definition add32 (x y : Z) : Z := w32 (x + y).
Definition rotr (n x : Z) : Z := w32 (Z.lor (Z.shiftr x n) (Z.shiftl x (32 - n))).
Definition not32 (x : Z) : Z := 4294967295 - x.

Definition Ch (x y z : Z) := Z.lxor (Z.land x y) (Z.land (not32 x) z).
Definition Maj (x y z : Z) := Z.lxor (Z.lxor (Z.land x y) (Z.land x z)) (Z.land y z).
Definition Sigma0 x := Z.lxor (Z.lxor (rotr 2 x) (rotr 13 x)) (rotr 22 x).
Definition Sigma1 x := Z.lxor (Z.lxor (rotr 6 x) (rotr 11 x)) (rotr 25 x).
Definition sigma0 x := Z.lxor (Z.lxor (rotr 7 x) (rotr 18 x)) (Z.shiftr x 3).
Definition sigma1 x := Z.lxor (Z.lxor (rotr 17 x) (rotr 19 x)) (Z.shiftr x 10).

(** The round constants and the initial state of FIPS 180-4, in decimal. *)
Definition K : list Z :=
  [ 1116352408; 1899447441; 3049323471; 3921009573; 961987163; 1508970993; 2453635748; 2870763221;
    3624381080; 310598401; 607225278; 1426881987; 1925078388; 2162078206; 2614888103; 3248222580;
    3835390401; 4022224774; 264347078; 604807628; 770255983; 1249150122; 1555081692; 1996064986;
    2554220882; 2821834349; 2952996808; 3210313671; 3336571891; 3584528711; 113926993; 338241895;
    666307205; 773529912; 1294757372; 1396182291; 1695183700; 1986661051; 2177026350; 2456956037;
    2730485921; 2820302411; 3259730800; 3345764771; 3516065817; 3600352804; 4094571909; 275423344;
    430227734; 506948616; 659060556; 883997877; 958139571; 1322822218; 1537002063; 1747873779;
    1955562222; 2024104815; 2227730452; 2361852424; 2428436474; 2756734187; 3204031479; 3329325298 ].

Record state := State { ha : Z; hb : Z; hc : Z; hd : Z; he : Z; hf : Z; hg : Z; hh : Z }.

Definition init : state :=
  State 1779033703 3144134277 1013904242 2773480762 1359893119 2600822924 528734635 1541459225.

(** Padding: 0x80, zeros up to 56 modulo 64, the bit length on 8 bytes. *)
Definition be_bytes (n : nat) (x : Z) : list Z :=
  map (fun i => (x / 256 ^ Z.of_nat i) mod 256) (rev (seq 0 n)).

Definition pad (msg : list Z) : list Z :=
  let l := Z.of_nat (List.length msg) in
  let zeros := Z.to_nat ((55 - l) mod 64) in
  (msg ++ 128 :: repeat 0 zeros ++ be_bytes 8 (8 * l))%list.

Definition word_of (b0 b1 b2 b3 : Z) : Z := ((b0 * 256 + b1) * 256 + b2) * 256 + b3.

Fixpoint words (n : nat) (bs : list Z) : list Z :=
  match n, bs with
  | S n', b0 :: b1 :: b2 :: b3 :: bs' => word_of b0 b1 b2 b3 :: words n' bs'
  | _, _ => []
  end.

(** Message schedule, most recent word first: [w] holds W[t-1], W[t-2], ... *)
Fixpoint extend (n : nat) (w : list Z) : list Z :=
  match n with
  | O => w
  | S n' =>
      let x := add32 (add32 (sigma1 (nth 1 w 0)) (nth 6 w 0))
                     (add32 (sigma0 (nth 14 w 0)) (nth 15 w 0)) in
      extend n' (x :: w)
  end.

Definition schedule (block : list Z) : list Z := rev (extend 48 (rev (words 16 block))).

Definition round (s : state) (kw : Z * Z) : state :=
  let t1 := add32 (add32 (add32 (hh s) (Sigma1 (he s))) (Ch (he s) (hf s) (hg s)))
                  (add32 (fst kw) (snd kw)) in
  let t2 := add32 (Sigma0 (ha s)) (Maj (ha s) (hb s) (hc s)) in
  State (add32 t1 t2) (ha s) (hb s) (hc s) (add32 (hd s) t1) (he s) (hf s) (hg s).

Definition compress (s : state) (block : list Z) : state :=
  let r := fold_left round (combine K (schedule block)) s in
  State (add32 (ha s) (ha r)) (add32 (hb s) (hb r)) (add32 (hc s) (hc r)) (add32 (hd s) (hd r))
        (add32 (he s) (he r)) (add32 (hf s) (hf r)) (add32 (hg s) (hg r)) (add32 (hh s) (hh r)).

Fixpoint blocks (n : nat) (s : state) (bs : list Z) : state :=
  match n with
  | O => s
  | S n' => blocks n' (compress s (firstn 64 bs)) (skipn 64 bs)
  end.

Definition sha256 (msg : list Z) : state :=
  let p := pad msg in blocks (List.length p / 64) init p.

Definition hex8 (x : Z) : string :=
  let h i := PyStr.hex_digit (x / 16 ^ i) in
  String (h 7) (String (h 6) (String (h 5) (String (h 4)
    (String (h 3) (String (h 2) (String (h 1) (String (h 0) EmptyString))))))).

(** [.hexdigest()]: 64 lowercase hexadecimal characters. *)
Definition hexdigest (s : state) : string :=
  hex8 (ha s) ++ hex8 (hb s) ++ hex8 (hc s) ++ hex8 (hd s) ++
  hex8 (he s) ++ hex8 (hf s) ++ hex8 (hg s) ++ hex8 (hh s).

End Sha256.

(** [text.encode()]: UTF-8 of code points below 256. *)
Fixpoint encode (s : string) : list Z :=
  match s with
  | EmptyString => []
  | String c s' =>
      let n := PyStr.code c in
      if n <? 128 then n :: encode s'
      else Z.lor 192 (Z.shiftr n 6) :: Z.lor 128 (Z.land n 63) :: encode s'
  end.

(** [estimate_tokens]: a string counts its own length, any other value the
    length of its serialisation; four characters to a token. *)
Definition estimate_tokens (data : json) : Z :=
  let text := match data with JStr s => s | _ => Json.dumps false data end in
  PyStr.len text / 4.

(** The address of a serialised text: the first 12 characters of the SHA-256
    hexadecimal digest of its bytes. *)
Definition address_of_text (text : string) : string :=
  String.substring 0 12 (Sha256.hexdigest (Sha256.sha256 (encode text))).

(** [generate_hash] *)
Definition generate_hash (content : json) : string :=
  let text := Json.dumps true content in
  address_of_text text.


(* ------------------------------------------------------------------ *)
(** ** Process state: the CCR store, the metrics, the clock *)

Definition dict := list (string * json).

(** One value of [ccr_store]. *)
Record entry := Entry { content : json; timestamp : Z; tool_name : json }.

(** [ccr_store]: a dict from address to entry, in insertion order. *)
Definition store := list (string * entry).

Module Store.

Fixpoint get (k : string) (st : store) : option entry :=
  match st with
  | [] => None
  | (k', e) :: st' => if String.eqb k k' then Some e else get k st'
  end.

(** [k in ccr_store] *)
Definition mem (k : string) (st : store) : bool :=
  match get k st with Some _ => true | None => false end.

(** [ccr_store[k] = e] *)
Fixpoint set (k : string) (e : entry) (st : store) : store :=
  match st with
  | [] => [(k, e)]
  | (k', e') :: st' => if String.eqb k k' then (k, e) :: st' else (k', e') :: set k e st'
  end.

(** [del ccr_store[k]] *)
Definition del (k : string) (st : store) : store :=
  filter (fun kv => negb (String.eqb k (fst kv))) st.

Definition keys (st : store) : list string := map fst st.

(** The number of entries stored under [k]. *)
Definition count (k : string) (st : store) : nat :=
  List.length (filter (fun kv => String.eqb k (fst kv)) st).

(** A Python dict holds each key once. *)
Definition wf (st : store) : Prop := NoDup (keys st).

End Store.

(** [metrics], without [start_time] (a date fixed when the process starts). *)
Record metrics_t := Metrics {
  requests_total : Z;
  compressions_applied : Z;
  compressions_skipped : Z;
  errors : Z;
  ccr_stores : Z;
  ccr_retrievals : Z;
  total_tokens_before : Z;
  total_tokens_after : Z
}.

Definition metrics0 : metrics_t := Metrics 0 0 0 0 0 0 0 0.

Record world := World {
  ccr_store : store;
  metrics : metrics_t;
  clock : nat -> Z;   (* the readings [time.time()] gives, in order *)
  ticks : nat         (* how many were read so far *)
}.

Inductive exn : Type :=
| AttributeError          (* [.get] on a value that is not a dict *)
| EngineError             (* anything the external engine raises *)
| ValidationError         (* [CompressResponse] refuses its arguments *)
| HTTPException (status_code : Z)
| InvalidReference.       (* a reference to no object; Python has none *)

Inductive result (A : Type) : Type :=
| Ok (a : A)
| Raise (e : exn).
Arguments Ok {A} a.
Arguments Raise {A} e.

(** State and exceptions over a state [S]: a raise keeps the state changes
    made before it. *)
Definition ST (S A : Type) : Type := S -> result A * S.

Definition ret {S A} (a : A) : ST S A := fun w => (Ok a, w).

Definition bind {S A B} (m : ST S A) (f : A -> ST S B) : ST S B :=
  fun w => match m w with
           | (Ok a, w') => f a w'
           | (Raise e, w') => (Raise e, w')
           end.

Definition raise {S A} (e : exn) : ST S A := fun w => (Raise e, w).

(** [try: m except Exception as e: h e] *)
Definition try_except {S A} (m : ST S A) (h : exn -> ST S A) : ST S A :=
  fun w => match m w with
           | (Ok a, w') => (Ok a, w')
           | (Raise e, w') => h e w'
           end.

(** The handlers run on the process state. *)
Definition M (A : Type) : Type := ST world A.

Notation "x <- m ;; k" := (bind m (fun x => k))
  (at level 61, m at next level, right associativity).
Notation "m ;;; k" := (bind m (fun _ => k))
  (at level 61, right associativity).

Fixpoint mapM {S A B} (f : A -> ST S B) (l : list A) : ST S (list B) :=
  match l with
  | [] => ret []
  | x :: l' => y <- f x ;; ys <- mapM f l' ;; ret (y :: ys)
  end.

(** [time.time()] *)
Definition time_time : M Z :=
  fun w => (Ok (clock w (ticks w)),
            World (ccr_store w) (metrics w) (clock w) (S (ticks w))).

Definition get_store : M store := fun w => (Ok (ccr_store w), w).

Definition put_store (st : store) : M unit :=
  fun w => (Ok tt, World st (metrics w) (clock w) (ticks w)).

Definition update_metrics (f : metrics_t -> metrics_t) : M unit :=
  fun w => (Ok tt, World (ccr_store w) (f (metrics w)) (clock w) (ticks w)).

Definition incr_requests_total (m : metrics_t) :=
  Metrics (requests_total m + 1) (compressions_applied m) (compressions_skipped m) (errors m)
          (ccr_stores m) (ccr_retrievals m) (total_tokens_before m) (total_tokens_after m).
Definition incr_compressions_applied (m : metrics_t) :=
  Metrics (requests_total m) (compressions_applied m + 1) (compressions_skipped m) (errors m)
          (ccr_stores m) (ccr_retrievals m) (total_tokens_before m) (total_tokens_after m).
Definition incr_compressions_skipped (m : metrics_t) :=
  Metrics (requests_total m) (compressions_applied m) (compressions_skipped m + 1) (errors m)
          (ccr_stores m) (ccr_retrievals m) (total_tokens_before m) (total_tokens_after m).
Definition incr_errors (m : metrics_t) :=
  Metrics (requests_total m) (compressions_applied m) (compressions_skipped m) (errors m + 1)
          (ccr_stores m) (ccr_retrievals m) (total_tokens_before m) (total_tokens_after m).
Definition incr_ccr_stores (m : metrics_t) :=
  Metrics (requests_total m) (compressions_applied m) (compressions_skipped m) (errors m)
          (ccr_stores m + 1) (ccr_retrievals m) (total_tokens_before m) (total_tokens_after m).
Definition incr_ccr_retrievals (m : metrics_t) :=
  Metrics (requests_total m) (compressions_applied m) (compressions_skipped m) (errors m)
          (ccr_stores m) (ccr_retrievals m + 1) (total_tokens_before m) (total_tokens_after m).
Definition add_total_tokens_before (n : Z) (m : metrics_t) :=
  Metrics (requests_total m) (compressions_applied m) (compressions_skipped m) (errors m)
          (ccr_stores m) (ccr_retrievals m) (total_tokens_before m + n) (total_tokens_after m).
Definition add_total_tokens_after (n : Z) (m : metrics_t) :=
  Metrics (requests_total m) (compressions_applied m) (compressions_skipped m) (errors m)
          (ccr_stores m) (ccr_retrievals m) (total_tokens_before m) (total_tokens_after m + n).

(* ------------------------------------------------------------------ *)
(** ** Requests, responses and statistics *)

(** [HeadroomConfig], the two settings the handlers read. *)
Record HeadroomConfig := Config {
  smart_crusher_min_tokens : Z;
  ccr_ttl : Z
}.

(** The defaults of [config.py]. *)
Definition default_config : HeadroomConfig := Config 200 300.

(** A value of the [stats] dict; a float is the rational it approximates. *)
Inductive stat : Type :=
| SInt (n : Z)
| SReal (q : Q)
| SBool (b : bool)
| SStr (s : string)
| SNames (l : list string).

Definition stats_t := list (string * stat).

Fixpoint stats_get (k : string) (s : stats_t) : option stat :=
  match s with
  | [] => None
  | (k', v) :: s' => if String.eqb k k' then Some v else stats_get k s'
  end.

Fixpoint stats_set (k : string) (v : stat) (s : stats_t) : stats_t :=
  match s with
  | [] => [(k, v)]
  | (k', v') :: s' => if String.eqb k k' then (k, v) :: s' else (k', v') :: stats_set k v s'
  end.

(** The nearest integer to [a / b] ([0 < b]), ties to the even one. *)
Definition round_half_even (a b : Z) : Z :=
  let n := a / b in
  let r := a mod b in
  if 2 * r <? b then n
  else if b <? 2 * r then n + 1
  else if Z.even n then n else n + 1.

(** [round(q, 1)], taken on the exact quotient: ties of the decimal
    expansion go to the even digit.  Python rounds the binary float nearest
    to the quotient, so on such a tie (59.75, say) it can answer the other
    neighbour. *)
Definition round1 (q : Q) : Q :=
  Qmake (round_half_even (10 * Qnum q) (Zpos (Qden q))) 10.

(** [CompressRequest]; the fields no handler reads are left out. *)
Record CompressRequest := {
  req_messages : list dict;
  req_tools : option (list dict);
  req_model : option string;
  req_model_limit : option Z
}.

(** [CompressResponse], also the dict [basic_compress] returns. *)
Record CompressResponse := {
  messages : list dict;
  tools : option (list dict);
  compressed : bool;
  stats : stats_t
}.

Record CCRRetrieveRequest := {
  req_hash : string;
  req_query : option string;
  req_max_results : option Z
}.

Record CCRRetrieveResponse := {
  success : bool;
  resp_content : option json;
  items_retrieved : Z;
  was_search : bool;
  error : option string
}.

(** One suggestion of [ccr_analyze]. *)
Record expansion := { exp_hash : string; exp_tool_name : json; exp_relevance : Q }.

(** What the external engine's [apply] may return: an object with
    [messages] (and maybe [transforms_applied]), a dict, a list, or anything
    else.  The messages it hands back are any value: a conversation, a list
    with something that is not a dict, a string, [None].  The transforms of
    a dict are taken to be a list of names; the handler copies them into the
    stats as they are. *)
Inductive transform : Type :=
| TStr (s : string)                             (* a plain name *)
| TObj (name : option string) (str : string).   (* an object: [.name] if any, else [str(t)] *)

Inductive engine_result : Type :=
| ResObject (msgs : json) (transforms_applied : option (list transform))
| ResDict (msgs : option json) (transforms : option (list string))
| ResList (msgs : list json)
| ResOther.

(** [headroom_pipeline.apply]; [None] stands for every run that ends in an
    exception before a counter is touched: [apply] raises, the transforms of
    its answer cannot be listed, or [json.dumps] refuses the messages it
    handed back when [estimate_tokens] reads them. *)
Definition pipeline := list dict -> option string -> option Z -> option engine_result.

(** The dicts of a list of dicts; [None] for a list that holds another
    value. *)
Fixpoint all_dicts (l : list json) : option (list dict) :=
  match l with
  | [] => Some []
  | JDict d :: l' =>
      match all_dicts l' with
      | Some ds => Some (d :: ds)
      | None => None
      end
  | _ :: _ => None
  end.

(** What [CompressResponse] makes of the value given as [messages], a
    [List[Dict[str, Any]]]: a list of dicts is taken as it is; on any other
    value the validation raises.  (The first major version of pydantic also
    turns a sequence of pairs into a dict; that is not followed here.) *)
Definition as_messages (v : json) : option (list dict) :=
  match v with
  | JList l => all_dicts l
  | _ => None
  end.

(** [l[:n]] *)
Definition slice_to {A} (n : option Z) (l : list A) : list A :=
  match n with
  | None => l
  | Some n =>
      if 0 <=? n then firstn (Z.to_nat n) l
      else firstn (Z.to_nat (Z.of_nat (List.length l) + n)) l
  end.

Definition is_str (v : option json) (s : string) : bool :=
  match v with
  | Some (JStr x) => String.eqb x s
  | _ => false
  end.

Definition messages_json (msgs : list dict) : json := JList (map JDict msgs).

(** The text that replaces an offloaded tool result. *)
Definition reference (hash_key content : string) : string :=
  "[CCR:" ++ hash_key ++ "] Content compressed (" ++ PyStr.str_of_Z (PyStr.len content)
  ++ " chars). " ++ "Use ccr_retrieve to access full content.".

Section Server.

Variable config : HeadroomConfig.

(** [headroom_pipeline], [None] when the SDK is missing or no transform is
    enabled ([HEADROOM_AVAILABLE] is then false). *)
Variable headroom_pipeline : option pipeline.

Definition expired (now : Z) (e : entry) : bool := ccr_ttl config <? now - timestamp e.

(** [cleanup_expired_ccr] *)
Definition cleanup_expired_ccr : M unit :=
  now <- time_time ;;
  st <- get_store ;;
  let expired_keys := map fst (filter (fun kv => expired now (snd kv)) st) in
  put_store (fold_left (fun s key => Store.del key s) expired_keys st).

(** The body of the inner loop of [basic_compress], one block. *)
Definition compress_block (block : json) : M json :=
  match block with
  | JDict b =>
      if is_str (Json.get "type" b) "tool_result" then
        match Json.get_default "content" (JStr "") b with
        | JStr content =>
            if 2000 <? PyStr.len content then
              let hash_key := generate_hash (JStr content) in
              now <- time_time ;;
              st <- get_store ;;
              put_store (Store.set hash_key
                           (Entry (JStr content) now
                                  (Json.get_default "tool_use_id" (JStr "unknown") b)) st) ;;;
              update_metrics incr_ccr_stores ;;;
              ret (JDict (Json.set "content" (JStr (reference hash_key content)) b))
            else ret block
        | _ => ret block
        end
      else ret block
  | _ => raise AttributeError
  end.

(** The body of the outer loop, one message. *)
Definition compress_message (msg : dict) : M dict :=
  if is_str (Json.get "role" msg) "user" then
    match Json.get "content" msg with
    | Some (JList blocks) =>
        new_content <- mapM compress_block blocks ;;
        ret (Json.set "content" (JList new_content) msg)
    | _ => ret msg
    end
  else ret msg.

Definition savings_percent (tokens_before tokens_after : Z) : stat :=
  if 0 <? tokens_before
  then SReal (round1 ((1 - inject_Z tokens_after / inject_Z tokens_before) * 100))
  else SInt 0.

(** [basic_compress] *)
Definition basic_compress (msgs : list dict) (tls : option (list dict)) : M CompressResponse :=
  let tokens_before := estimate_tokens (messages_json msgs) in
  compressed_messages <- mapM compress_message msgs ;;
  let tokens_after := estimate_tokens (messages_json compressed_messages) in
  ret {| messages := compressed_messages;
         tools := tls;
         compressed := tokens_after <? tokens_before;
         stats := [ ("tokens_before", SInt tokens_before);
                    ("tokens_after", SInt tokens_after);
                    ("tokens_saved", SInt (tokens_before - tokens_after));
                    ("savings_percent", savings_percent tokens_before tokens_after);
                    ("transforms_applied",
                       SNames (if tokens_after <? tokens_before then ["basic_ccr"] else []));
                    ("latency_ms", SInt 0) ] |}.

Definition latency_ms (start_time now : Z) : stat :=
  SReal (round1 (inject_Z ((now - start_time) * 1000))).

Definition transform_name (t : transform) : string :=
  match t with
  | TStr s => s
  | TObj (Some n) _ => n
  | TObj None s => s
  end.

(** The three result shapes of the engine, brought to messages and names. *)
Definition normalize (request : CompressRequest) (r : engine_result)
  : json * list string :=
  match r with
  | ResObject msgs (Some ts) => (msgs, map transform_name ts)
  | ResObject msgs None => (msgs, [])
  | ResDict msgs ts =>
      (match msgs with Some m => m | None => messages_json (req_messages request) end,
       match ts with Some t => t | None => [] end)
  | ResList msgs => (JList msgs, [])
  | ResOther => (messages_json (req_messages request), [])
  end.

(** The engine branch of [compress_messages].  The counters are updated and
    the clock is read for the latency before [CompressResponse] is built, so
    a refused answer leaves them changed when the fallback takes over. *)
Definition pipeline_compress (apply : pipeline) (request : CompressRequest)
    (start_time tokens_before : Z) : M CompressResponse :=
  match apply (req_messages request) (req_model request) (req_model_limit request) with
  | None => raise EngineError
  | Some r =>
      let (compressed_messages, transforms_applied) := normalize request r in
      let tokens_after := estimate_tokens compressed_messages in
      update_metrics (add_total_tokens_after tokens_after) ;;;
      update_metrics incr_compressions_applied ;;;
      now <- time_time ;;
      match as_messages compressed_messages with
      | Some msgs =>
          ret {| messages := msgs;
                 tools := req_tools request;
                 compressed := tokens_after <? tokens_before;
                 stats := [ ("tokens_before", SInt tokens_before);
                            ("tokens_after", SInt tokens_after);
                            ("tokens_saved", SInt (tokens_before - tokens_after));
                            ("savings_percent", savings_percent tokens_before tokens_after);
                            ("transforms_applied", SNames transforms_applied);
                            ("latency_ms", latency_ms start_time now) ] |}
      | None => raise ValidationError
      end
  end.

(** The fallback branch of [compress_messages]. *)
Definition fallback_compress (request : CompressRequest) (start_time : Z)
  : M CompressResponse :=
  r <- basic_compress (req_messages request) (req_tools request) ;;
  match stats_get "tokens_after" (stats r) with
  | Some (SInt n) => update_metrics (add_total_tokens_after n)
  | _ => ret tt
  end ;;;
  update_metrics (if compressed r then incr_compressions_applied
                  else incr_compressions_skipped) ;;;
  now <- time_time ;;
  ret {| messages := messages r;
         tools := tools r;
         compressed := compressed r;
         stats := stats_set "latency_ms" (latency_ms start_time now) (stats r) |}.

Definition skipped_response (request : CompressRequest) (tokens_before : Z)
  : CompressResponse :=
  {| messages := req_messages request;
     tools := req_tools request;
     compressed := false;
     stats := [ ("skipped", SBool true);
                ("reason", SStr ("Below threshold (" ++ PyStr.str_of_Z tokens_before ++ " < "
                                 ++ PyStr.str_of_Z (smart_crusher_min_tokens config) ++ ")")) ] |}.

(** [compress_messages], the handler of [POST /compress]. *)
Definition compress_messages (request : CompressRequest) : M CompressResponse :=
  start_time <- time_time ;;
  update_metrics incr_requests_total ;;;
  try_except
    (let tokens_before := estimate_tokens (messages_json (req_messages request)) in
     update_metrics (add_total_tokens_before tokens_before) ;;;
     if tokens_before <? smart_crusher_min_tokens config then
       update_metrics incr_compressions_skipped ;;;
       ret (skipped_response request tokens_before)
     else
       match headroom_pipeline with
       | Some apply =>
           try_except (pipeline_compress apply request start_time tokens_before)
                      (fun _ => fallback_compress request start_time)
       | None => fallback_compress request start_time
       end)
    (fun _ => update_metrics incr_errors ;;; raise (HTTPException 500)).

Definition not_found (h : string) : CCRRetrieveResponse :=
  {| success := false; resp_content := None; items_retrieved := 0; was_search := false;
     error := Some ("Hash " ++ h ++ " not found or expired") |}.

Definition query_not_found : CCRRetrieveResponse :=
  {| success := false; resp_content := None; items_retrieved := 0; was_search := false;
     error := Some "Query not found in content" |}.

(** [query.lower() in json.dumps(item).lower()] *)
Definition matches (query : string) (item : json) : bool :=
  PyStr.contains (PyStr.lower query) (PyStr.lower (Json.dumps false item)).

Definition full_content (c : json) : CCRRetrieveResponse :=
  {| success := true; resp_content := Some c;
     items_retrieved := match c with JList l => Z.of_nat (List.length l) | _ => 1 end;
     was_search := false; error := None |}.

(** [if request.query:] an absent and an empty query are both false. *)
Definition truthy (q : option string) : option string :=
  match q with
  | Some EmptyString => None
  | _ => q
  end.

(** [ccr_retrieve], the handler of [POST /ccr/retrieve]. *)
Definition ccr_retrieve (request : CCRRetrieveRequest) : M CCRRetrieveResponse :=
  cleanup_expired_ccr ;;;
  st <- get_store ;;
  match Store.get (req_hash request) st with
  | None => ret (not_found (req_hash request))
  | Some e =>
      let c := content e in
      update_metrics incr_ccr_retrievals ;;;
      match truthy (req_query request), c with
      | Some query, JList items =>
          let filtered := slice_to (req_max_results request) (filter (matches query) items) in
          ret {| success := true; resp_content := Some (JList filtered);
                 items_retrieved := Z.of_nat (List.length filtered);
                 was_search := true; error := None |}
      | Some query, JStr s =>
          if PyStr.contains (PyStr.lower query) (PyStr.lower s)
          then ret {| success := true; resp_content := Some c; items_retrieved := 1;
                      was_search := true; error := None |}
          else ret query_not_found
      | _, _ => ret (full_content c)
      end
  end.

(** [health_check], for what it does to the store and what it counts. *)
Definition health_check : M Z :=
  cleanup_expired_ccr ;;;
  st <- get_store ;;
  ret (Z.of_nat (List.length st)).

(** [ccr_analyze], the handler of [POST /ccr/analyze]. *)
Definition ccr_analyze (query : string) (turn_number : Z) : M (list expansion) :=
  st <- get_store ;;
  let expansions :=
    map (fun kv => {| exp_hash := fst kv; exp_tool_name := tool_name (snd kv);
                      exp_relevance := 8 # 10 |})
        (filter (fun kv => matches query (content (snd kv))) st) in
  ret (slice_to (Some 5) expansions).

End Server.


(* ------------------------------------------------------------------ *)
(** ** [basic_compress] on objects in memory

    The conversation as Python holds it: dicts and lists are objects with
    an identity, values refer to them, [msg.copy()] makes a new object with
    the same values, and an item assignment or an [append] writes the object
    it is applied to.  The two loops read the list they iterate once: their
    bodies write no object that existed before the loop started. *)

Module Heap.

Definition loc := nat.

(** A value: an immutable atom or a reference to a dict or a list. *)
Inductive pyval : Type :=
| VNull
| VBool (b : bool)
| VInt (n : Z)
| VFloat (repr : string)
| VStr (s : string)
| VRef (l : loc).

Inductive obj : Type :=
| ODict (items : list (string * pyval))
| OList (items : list pyval).

Definition heap := list obj.

(** One value of [ccr_store], its fields as the values they are. *)
Record hentry := HEntry { h_content : pyval; h_timestamp : Z; h_tool_name : pyval }.

Record hworld := HWorld {
  objects : heap;
  h_store : list (string * hentry);
  h_metrics : metrics_t;
  h_clock : nat -> Z;
  h_ticks : nat
}.

Definition HM (A : Type) : Type := ST hworld A.

Definition with_objects (h : heap) (w : hworld) : hworld :=
  HWorld h (h_store w) (h_metrics w) (h_clock w) (h_ticks w).

(** A new object, at the next free location. *)
Definition alloc (o : obj) : HM loc :=
  fun w => (Ok (List.length (objects w)), with_objects (objects w ++ [o])%list w).

Definition load (l : loc) : HM obj :=
  fun w => match nth_error (objects w) l with
           | Some o => (Ok o, w)
           | None => (Raise InvalidReference, w)
           end.

Fixpoint write_nth (l : nat) (o : obj) (h : heap) : heap :=
  match h, l with
  | [], _ => []
  | _ :: h', O => o :: h'
  | x :: h', S l' => x :: write_nth l' o h'
  end.

(** Overwrite the object at [l]. *)
Definition update (l : loc) (o : obj) : HM unit :=
  fun w => (Ok tt, with_objects (write_nth l o (objects w)) w).

Definition time_time : HM Z :=
  fun w => (Ok (h_clock w (h_ticks w)),
            HWorld (objects w) (h_store w) (h_metrics w) (h_clock w) (S (h_ticks w))).

Fixpoint store_set (k : string) (e : hentry) (st : list (string * hentry)) :=
  match st with
  | [] => [(k, e)]
  | (k', e') :: st' => if String.eqb k k' then (k, e) :: st' else (k', e') :: store_set k e st'
  end.

(** [ccr_store[k] = e] *)
Definition put_entry (k : string) (e : hentry) : HM unit :=
  fun w => (Ok tt, HWorld (objects w) (store_set k e (h_store w)) (h_metrics w)
                          (h_clock w) (h_ticks w)).

Definition update_metrics (f : metrics_t -> metrics_t) : HM unit :=
  fun w => (Ok tt, HWorld (objects w) (h_store w) (f (h_metrics w)) (h_clock w) (h_ticks w)).

(** The items of the dict [v] refers to; [.get] and [.copy] need one. *)
Definition dict_items (v : pyval) : HM (list (string * pyval)) :=
  match v with
  | VRef l =>
      o <- load l ;;
      match o with
      | ODict items => ret items
      | OList _ => raise AttributeError
      end
  | _ => raise AttributeError
  end.

Fixpoint dget (k : string) (d : list (string * pyval)) : option pyval :=
  match d with
  | [] => None
  | (k', v) :: d' => if String.eqb k k' then Some v else dget k d'
  end.

Definition dget_default (k : string) (default : pyval) (d : list (string * pyval)) : pyval :=
  match dget k d with Some v => v | None => default end.

Fixpoint dset (k : string) (v : pyval) (d : list (string * pyval)) :=
  match d with
  | [] => [(k, v)]
  | (k', v') :: d' => if String.eqb k k' then (k, v) :: d' else (k', v') :: dset k v d'
  end.

(** [v.copy()]: a new dict with the items of [v]. *)
Definition dict_copy (v : pyval) : HM loc :=
  items <- dict_items v ;;
  alloc (ODict items).

(** [d[k] = v] on the dict at [l]. *)
Definition dict_setitem (l : loc) (k : string) (v : pyval) : HM unit :=
  o <- load l ;;
  match o with
  | ODict items => update l (ODict (dset k v items))
  | OList _ => raise AttributeError
  end.

(** [x.append(v)] on the list at [l]. *)
Definition list_append (l : loc) (v : pyval) : HM unit :=
  o <- load l ;;
  match o with
  | OList items => update l (OList (items ++ [v])%list)
  | ODict _ => raise AttributeError
  end.

(** [for x in xs: body x] *)
Fixpoint iterM {A} (body : A -> HM unit) (xs : list A) : HM unit :=
  match xs with
  | [] => ret tt
  | x :: xs' => body x ;;; iterM body xs'
  end.

Definition is_vstr (v : option pyval) (s : string) : bool :=
  match v with
  | Some (VStr x) => String.eqb x s
  | _ => false
  end.

(** The body of the inner loop: [new_content] is the list being built. *)
Definition compress_block (new_content : loc) (block : pyval) : HM unit :=
  items <- dict_items block ;;
  block' <-
    (if is_vstr (dget "type" items) "tool_result" then
       match dget_default "content" (VStr "") items with
       | VStr content =>
           if 2000 <? PyStr.len content then
             let hash_key := generate_hash (JStr content) in
             now <- time_time ;;
             put_entry hash_key
               (HEntry (VStr content) now
                       (dget_default "tool_use_id" (VStr "unknown") items)) ;;;
             update_metrics incr_ccr_stores ;;;
             copy <- dict_copy block ;;
             dict_setitem copy "content" (VStr (reference hash_key content)) ;;;
             ret (VRef copy)
           else ret block
       | _ => ret block
       end
     else ret block) ;;
  list_append new_content block'.

(** The body of the outer loop: [compressed_messages] is the list being
    built. *)
Definition compress_message (compressed_messages : loc) (msg : pyval) : HM unit :=
  compressed_msg <- dict_copy msg ;;
  items <- dict_items msg ;;
  (if is_vstr (dget "role" items) "user" then
     match dget "content" items with
     | Some (VRef c) =>
         o <- load c ;;
         match o with
         | OList blocks =>
             new_content <- alloc (OList []) ;;
             iterM (compress_block new_content) blocks ;;;
             dict_setitem compressed_msg "content" (VRef new_content)
         | ODict _ => ret tt
         end
     | _ => ret tt
     end
   else ret tt) ;;;
  list_append compressed_messages (VRef compressed_msg).

(** The loops of [basic_compress]: from the list [messages] to the new list
    [compressed_messages], which it returns.  The token counts and the
    statistics are read off the two lists ([basic_compress] above). *)
Definition basic_compress (messages : pyval) : HM pyval :=
  compressed_messages <- alloc (OList []) ;;
  o <- match messages with VRef l => load l | _ => raise AttributeError end ;;
  match o with
  | OList msgs =>
      iterM (compress_message compressed_messages) msgs ;;;
      ret (VRef compressed_messages)
  | ODict _ => raise AttributeError
  end.

(** The tree a value stands for in a heap: [denotes_in X h j v] when [v],
    read through references of [h] to objects at locations in [X], is the
    JSON value [j]. *)
Fixpoint denotes_in (X : loc -> Prop) (h : heap) (j : json) (v : pyval) {struct j} : Prop :=
  match j with
  | JNull => v = VNull
  | JBool b => v = VBool b
  | JInt n => v = VInt n
  | JFloat r => v = VFloat r
  | JStr s => v = VStr s
  | JList js =>
      exists l vs, v = VRef l /\ X l /\ nth_error h l = Some (OList vs) /\
        (fix all (js : list json) (vs : list pyval) {struct js} : Prop :=
           match js, vs with
           | [], [] => True
           | j' :: js', v' :: vs' => denotes_in X h j' v' /\ all js' vs'
           | _, _ => False
           end) js vs
  | JDict d =>
      exists l items, v = VRef l /\ X l /\ nth_error h l = Some (ODict items) /\
        (fix all (d : list (string * json)) (items : list (string * pyval)) {struct d} : Prop :=
           match d, items with
           | [], [] => True
           | (k, j') :: d', (k', v') :: items' => k = k' /\ denotes_in X h j' v' /\ all d' items'
           | _, _ => False
           end) d items
  end.

(** [denotes h j v]: [v] is the JSON value [j] in [h]. *)
Definition denotes (h : heap) (j : json) (v : pyval) : Prop :=
  denotes_in (fun _ => True) h j v.

Fixpoint all_some {A} (l : list (option A)) : option (list A) :=
  match l with
  | [] => Some []
  | Some x :: l' => option_map (cons x) (all_some l')
  | None :: _ => None
  end.

(** The tree [v] stands for in [h], read to a depth of [fuel] references. *)
Fixpoint read (fuel : nat) (h : heap) (v : pyval) : option json :=
  match v with
  | VNull => Some JNull
  | VBool b => Some (JBool b)
  | VInt n => Some (JInt n)
  | VFloat r => Some (JFloat r)
  | VStr s => Some (JStr s)
  | VRef l =>
      match fuel with
      | O => None
      | S fuel' =>
          match nth_error h l with
          | Some (OList vs) => option_map JList (all_some (map (read fuel' h) vs))
          | Some (ODict items) =>
              option_map JDict
                (all_some (map (fun kv => option_map (pair (fst kv)) (read fuel' h (snd kv)))
                               items))
          | None => None
          end
      end
  end.

(** Every object of [h] is the same object in [h']. *)
Definition preserved (h h' : heap) : Prop :=
  forall l o, nth_error h l = Some o -> nth_error h' l = Some o.

End Heap.
(* ------------------------------------------------------------------ *)
(** ** Predicates of the statements *)

Definition is_lower_hex (c : ascii) : bool :=
  let n := PyStr.code c in
  ((48 <=? n) && (n <=? 57)) || ((97 <=? n) && (n <=? 102)).

Fixpoint all_chars (p : ascii -> bool) (s : string) : bool :=
  match s with
  | EmptyString => true
  | String c s' => p c && all_chars p s'
  end.

(** Twelve lowercase hexadecimal characters. *)
Definition is_address (s : string) : Prop :=
  String.length s = 12%nat /\ all_chars is_lower_hex s = true.

(** [b] is a tool-result block whose content is the string [P], longer than
    the threshold: the blocks [basic_compress] offloads. *)
Definition offloads (P : string) (b : dict) : Prop :=
  is_str (Json.get "type" b) "tool_result" = true /\
  Json.get "content" b = Some (JStr P) /\
  2000 < PyStr.len P.

(** The block that replaces [b] once its content [P] is offloaded. *)
Definition replaced (P : string) (b : dict) : json :=
  JDict (Json.set "content" (JStr (reference (generate_hash (JStr P)) P)) b).

(** The entry an offload of [b] at time [now] writes. *)
Definition entry_of (P : string) (b : dict) (now : Z) : entry :=
  Entry (JStr P) now (Json.get_default "tool_use_id" (JStr "unknown") b).

(** The state after an offload of [b]. *)
Definition offloaded (P : string) (b : dict) (w : world) : world :=
  World (Store.set (generate_hash (JStr P)) (entry_of P b (clock w (ticks w))) (ccr_store w))
        (incr_ccr_stores (metrics w)) (clock w) (S (ticks w)).

(** The store once every entry older than the TTL at [now] is removed. *)
Definition swept (config : HeadroomConfig) (now : Z) (st : store) : store :=
  filter (fun kv => negb (expired config now (snd kv))) st.

(** The reading the next [time.time()] gives. *)
Definition next_time (w : world) : Z := clock w (ticks w).

(** The state a sweep at the next reading leaves. *)
Definition after_sweep (config : HeadroomConfig) (w : world) : world :=
  World (swept config (next_time w) (ccr_store w)) (metrics w) (clock w) (S (ticks w)).

(** A retrieval by address alone. *)
Definition get_request (h : string) : CCRRetrieveRequest :=
  {| req_hash := h; req_query := None; req_max_results := Some 20 |}.

(** What [ccr_retrieve] answers for a request whose entry it found, as a
    function of the request and the stored content. *)
Definition answer (r : CCRRetrieveRequest) (c : json) : CCRRetrieveResponse :=
  match truthy (req_query r), c with
  | Some query, JList items =>
      let filtered := slice_to (req_max_results r) (filter (matches query) items) in
      {| success := true; resp_content := Some (JList filtered);
         items_retrieved := Z.of_nat (List.length filtered);
         was_search := true; error := None |}
  | Some query, JStr s =>
      if PyStr.contains (PyStr.lower query) (PyStr.lower s)
      then {| success := true; resp_content := Some c; items_retrieved := 1;
              was_search := true; error := None |}
      else query_not_found
  | _, _ => full_content c
  end.

(** The state a retrieval that found its entry leaves. *)
Definition after_retrieve (config : HeadroomConfig) (w : world) : world :=
  World (swept config (next_time w) (ccr_store w)) (incr_ccr_retrievals (metrics w))
        (clock w) (S (ticks w)).

(** A block [basic_compress] does not offload. *)
Definition kept (b : dict) : Prop := forall P, ~ offloads P b.

(** A message [basic_compress] passes through: not a user message, or its
    content is not a list, or none of its blocks (all dicts) is offloaded. *)
Definition passive (msg : dict) : Prop :=
  is_str (Json.get "role" msg) "user" = false \/
  (forall l, Json.get "content" msg <> Some (JList l)) \/
  exists bs, Json.get "content" msg = Some (JList (map JDict bs)) /\ Forall kept bs.

(** What [basic_compress] may change of the state: the store, the count of
    offloads, the number of clock readings. *)
Definition fallback_frame (w w' : world) : Prop :=
  clock w' = clock w /\
  (ticks w <= ticks w')%nat /\
  requests_total (metrics w') = requests_total (metrics w) /\
  compressions_applied (metrics w') = compressions_applied (metrics w) /\
  compressions_skipped (metrics w') = compressions_skipped (metrics w) /\
  errors (metrics w') = errors (metrics w) /\
  ccr_retrievals (metrics w') = ccr_retrievals (metrics w) /\
  total_tokens_before (metrics w') = total_tokens_before (metrics w) /\
  total_tokens_after (metrics w') = total_tokens_after (metrics w) /\
  ccr_stores (metrics w) <= ccr_stores (metrics w').

(** Every block of every list content of a user message is a dict: the
    conversations on which [basic_compress] raises nothing. *)
Definition is_dict (v : json) : Prop := exists b, v = JDict b.

Definition blocks_are_dicts (msg : dict) : Prop :=
  is_str (Json.get "role" msg) "user" = true ->
  forall l, Json.get "content" msg = Some (JList l) -> Forall is_dict l.

(** What the engine answers to a request: nothing when there is no engine
    or when it raises. *)
Definition engine_answer (headroom_pipeline : option pipeline) (request : CompressRequest)
  : option engine_result :=
  match headroom_pipeline with
  | Some apply => apply (req_messages request) (req_model request) (req_model_limit request)
  | None => None
  end.

(** The state once the handler has read the start time and counted the
    request and its tokens. *)
Definition counted (request : CompressRequest) (w : world) : world :=
  World (ccr_store w)
        (add_total_tokens_before (estimate_tokens (messages_json (req_messages request)))
           (incr_requests_total (metrics w)))
        (clock w) (S (ticks w)).

(** The state once the answer [r] of the engine is counted: its tokens are
    added to [total_tokens_after], an applied compression is counted and the
    clock is read for the latency.  [CompressResponse] is built after that. *)
Definition engine_counted (request : CompressRequest) (r : engine_result) (w : world)
  : world :=
  World (ccr_store w)
        (incr_compressions_applied
           (add_total_tokens_after (estimate_tokens (fst (normalize request r)))
              (metrics (counted request w))))
        (clock w) (S (S (ticks w))).

(** The messages and the transform names of the engine's answer, when the
    engine answers and [CompressResponse] takes its messages. *)
Definition engine_response (headroom_pipeline : option pipeline) (request : CompressRequest)
  : option (list dict * list string) :=
  match engine_answer headroom_pipeline request with
  | Some r =>
      match as_messages (fst (normalize request r)) with
      | Some msgs => Some (msgs, snd (normalize request r))
      | None => None
      end
  | None => None
  end.

(** The engine answered and [CompressResponse] refused the messages of its
    answer. *)
Definition answer_refused (headroom_pipeline : option pipeline) (request : CompressRequest)
  : bool :=
  match engine_answer headroom_pipeline request with
  | Some r =>
      match as_messages (fst (normalize request r)) with
      | Some _ => false
      | None => true
      end
  | None => false
  end.

(** The state in which the fallback starts, when it runs: the counted
    request when no engine answered, the counted answer when the engine's
    answer was refused. *)
Definition before_fallback (headroom_pipeline : option pipeline) (request : CompressRequest)
    (w : world) : option world :=
  match engine_answer headroom_pipeline request with
  | Some r =>
      match as_messages (fst (normalize request r)) with
      | Some _ => None
      | None => Some (engine_counted request r w)
      end
  | None => Some (counted request w)
  end.

(** [found] is [items] without the items that do not satisfy [P], in the
    order of [items]. *)
Inductive selected {A : Type} (P : A -> Prop) : list A -> list A -> Prop :=
| selected_nil : selected P [] []
| selected_take x l l' : P x -> selected P l l' -> selected P (x :: l) (x :: l')
| selected_drop x l l' : ~ P x -> selected P l l' -> selected P (x :: l) l'.

(** The text [s] contains [query] as a substring, letter case apart. *)
Definition occurs_in (query s : string) : Prop :=
  exists a b, PyStr.lower s = a ++ PyStr.lower query ++ b.

(** The serialised form of [item] contains [query], letter case apart. *)
Definition mentions (query : string) (item : json) : Prop :=
  occurs_in query (Json.dumps false item).

(* ------------------------------------------------------------------ *)
(** ** Concrete conversations and states *)

Fixpoint replicate (n : nat) (c : ascii) : string :=
  match n with
  | O => EmptyString
  | S n' => String c (replicate n' c)
  end.

(** A tool output of 5000 characters. *)
Definition big_payload : string := replicate 5000 "x".

(** Its address, [generate_hash(big_payload)]. *)
Definition big_address : string := "f6aded27d686".

Definition tool_block (tool_use_id content : string) : dict :=
  [("type", JStr "tool_result"); ("tool_use_id", JStr tool_use_id); ("content", JStr content)].

Definition user_message (blocks : list json) : dict :=
  [("role", JStr "user"); ("content", JList blocks)].

(** A fresh process whose clock reads 1000, 1000 + step, 1000 + 2 step, ... *)
Definition fresh_world (step : Z) : world :=
  World [] metrics0 (fun n => 1000 + step * Z.of_nat n) 0.

(** The same process once it served one request that offloaded
    [big_payload] for the tool call [toolu_1]. *)
Definition served_world (step : Z) : world :=
  World [(big_address, Entry (JStr big_payload) (1000 + step) (JStr "toolu_1"))]
        (Metrics 1 1 0 0 1 0 1274 47) (fun n => 1000 + step * Z.of_nat n) 3.

(** With the default TTL of 300: the entry is live at the next reading. *)
Definition warm_world : world := served_world 50.

(** The entry is expired at the next reading, and not swept yet. *)
Definition stale_world : world := served_world 500.

(** The conversation of [big_request] in memory: the block, the content
    list, the message and the list of messages, in a process that has read
    its start time. *)
Definition big_memory : Heap.hworld :=
  Heap.HWorld
    [ Heap.ODict [("type", Heap.VStr "tool_result"); ("tool_use_id", Heap.VStr "toolu_1");
                  ("content", Heap.VStr big_payload)];
      Heap.OList [Heap.VRef 0%nat];
      Heap.ODict [("role", Heap.VStr "user"); ("content", Heap.VRef 1%nat)];
      Heap.OList [Heap.VRef 2%nat] ]
    [] metrics0 (fun n => 1000 + 50 * Z.of_nat n) 1.

Definition tiny_request : CompressRequest :=
  {| req_messages := [[("role", JStr "user"); ("content", JStr "hi")]];
     req_tools := None; req_model := None; req_model_limit := None |}.

Definition big_request : CompressRequest :=
  {| req_messages := [user_message [JDict (tool_block "toolu_1" big_payload)]];
     req_tools := None; req_model := None; req_model_limit := None |}.

(** A list payload: three file names. *)
Definition listing : list json :=
  [JStr "Alpha.txt"; JStr "beta.txt"; JStr "ALPHABET.md"].

(** Its address, [generate_hash(listing)]. *)
Definition listing_address : string := "1257f3f5a7cf".

(** A process whose store holds the list payload, stamped 1000.  The
    handlers of this service store strings only; a list gets there by
    another writer of [ccr_store]. *)
Definition listing_world : world :=
  World [(listing_address, Entry (JList listing) 1000 (JStr "toolu_3"))]
        metrics0 (fun n => 1000 + 50 * Z.of_nat n) 0.

(** A retrieval of the list payload with a query. *)
Definition search_request (query : string) (max_results : option Z) : CCRRetrieveRequest :=
  {| req_hash := listing_address; req_query := Some query; req_max_results := max_results |}.

(** A character [json.dumps] writes as itself. *)
Definition plain (c : ascii) : bool :=
  let n := PyStr.code c in
  (32 <=? n) && (n <=? 126) && negb (n =? 34) && negb (n =? 92).

(* ------------------------------------------------------------------ *)
(** ** Predicates on memory *)

(** [w'] still has the first [n] objects of [w], unchanged. *)
Definition frame (n : nat) (w w' : Heap.hworld) : Prop :=
  (n <= List.length (Heap.objects w'))%nat /\
  forall l, (l < n)%nat -> nth_error (Heap.objects w') l = nth_error (Heap.objects w) l.

(** From a state with at least [n] objects, [m] leaves the first [n] as
    they are, and what it returns satisfies [Q]. *)
Definition safe {A} (n : nat) (m : Heap.HM A) (Q : A -> Prop) : Prop :=
  forall w, (n <= List.length (Heap.objects w))%nat ->
    frame n w (snd (m w)) /\
    match fst (m w) with Ok a => Q a | Raise _ => True end.

(** Locations below [n] other than those of [S]. *)
Definition below (n : nat) (S : list nat) (l : nat) : Prop := (l < n)%nat /\ ~ In l S.

(** [h'] has the objects of [h] other than those at [S], unchanged. *)
Definition grows (S : list nat) (h h' : Heap.heap) : Prop :=
  (List.length h <= List.length h')%nat /\
  forall l, (l < List.length h)%nat -> ~ In l S -> nth_error h' l = nth_error h l.

(** Two dicts with the same keys in the same order and values related by [D]. *)
Definition items_rel (D : json -> Heap.pyval -> Prop)
    (d : list (string * json)) (items : list (string * Heap.pyval)) : Prop :=
  Forall2 (fun kj kv => fst kj = fst kv /\ D (snd kj) (snd kv)) d items.

(** The process state held with memory [mem] is the process state [w]: the
    same counters and clock, the same store, the values of its entries read
    in the heap [h0]. *)
Definition related (h0 : Heap.heap) (mem : Heap.hworld) (w : world) : Prop :=
  Heap.h_metrics mem = metrics w /\
  Heap.h_clock mem = clock w /\
  Heap.h_ticks mem = ticks w /\
  Forall2 (fun he e => fst he = fst e /\
                       Heap.h_timestamp (snd he) = timestamp (snd e) /\
                       Heap.denotes h0 (content (snd e)) (Heap.h_content (snd he)) /\
                       Heap.denotes h0 (tool_name (snd e)) (Heap.h_tool_name (snd he)))
          (Heap.h_store mem) (ccr_store w).


(* ================================================================== *)
(** * The rest of the service *)

(* ------------------------------------------------------------------ *)
(** ** [get_metrics] and [ccr_track] *)

(** [round(q, 3)], taken on the exact quotient as [round1] is. *)
Definition round3 (q : Q) : Q :=
  Qmake (round_half_even (1000 * Qnum q) (Zpos (Qden q))) 1000.

(** What [get_metrics] reports: the counters, the ratio and the number of
    stored entries ([start_time] and [uptime_seconds], two readings of the
    wall clock, are left out as in [metrics_t]). *)
Record MetricsReport := {
  counters : metrics_t;
  average_compression_ratio : Q;
  ccr_entries : Z
}.

(** [get_metrics], the handler of [GET /metrics]. *)
Definition get_metrics : M MetricsReport :=
  fun w =>
    let m := metrics w in
    (Ok {| counters := m;
           average_compression_ratio :=
             if 0 <? total_tokens_before m
             then round3 (inject_Z (total_tokens_after m) / inject_Z (total_tokens_before m))
             else 1;
           ccr_entries := Z.of_nat (List.length (ccr_store w)) |},
     w).

(** [ccr_track], the handler of [POST /ccr/track]: it answers and records
    nothing. *)
Definition ccr_track (hash_key : string) (turn_number : Z) (tool_name sample : string)
  : M (bool * string) :=
  ret (true, hash_key).

(* ------------------------------------------------------------------ *)
(** ** [config.py] *)

(** [str_to_bool] *)
Definition str_to_bool (value : string) : bool :=
  let v := PyStr.lower value in
  String.eqb v "true" || String.eqb v "1" || String.eqb v "yes" || String.eqb v "on".

(** [os.environ] *)
Definition environ := list (string * string).

(** [os.environ.get(key, default)] *)
Fixpoint environ_get (env : environ) (key default : string) : string :=
  match env with
  | [] => default
  | (k, v) :: env' => if String.eqb key k then v else environ_get env' key default
  end.

Module Settings.

(** The attributes of a [HeadroomConfig] object. *)
Record t := {
  host : string;
  port : Z;
  log_level : string;
  mode : string;
  provider : string;
  smart_crusher_enabled : bool;
  smart_crusher_min_tokens : Z;
  smart_crusher_max_items : Z;
  tool_crusher_enabled : bool;
  cache_aligner_enabled : bool;
  rolling_window_enabled : bool;
  keep_turns : Z;
  ccr_enabled : bool;
  ccr_ttl : Z;
  llmlingua_enabled : bool;
  llmlingua_device : string
}.

Section Init.

(** [int(s)] on a string, [None] when it raises [ValueError]. *)
Variable int : string -> option Z.

Variable env : environ.

(** [HeadroomConfig.__init__], [None] when one of its [int(...)] raises. *)
Definition init : option t :=
  match int (environ_get env "HEADROOM_PORT" "8787") with
  | None => None
  | Some port =>
  match int (environ_get env "HEADROOM_SMART_CRUSHER_MIN_TOKENS" "200") with
  | None => None
  | Some min_tokens =>
  match int (environ_get env "HEADROOM_SMART_CRUSHER_MAX_ITEMS" "15") with
  | None => None
  | Some max_items =>
  match int (environ_get env "HEADROOM_KEEP_TURNS" "3") with
  | None => None
  | Some turns =>
  match int (environ_get env "HEADROOM_CCR_TTL" "300") with
  | None => None
  | Some ttl =>
      Some {| host := environ_get env "HEADROOM_HOST" "0.0.0.0";
              port := port;
              log_level := environ_get env "HEADROOM_LOG_LEVEL" "info";
              mode := environ_get env "HEADROOM_MODE" "optimize";
              provider := environ_get env "HEADROOM_PROVIDER" "anthropic";
              smart_crusher_enabled :=
                str_to_bool (environ_get env "HEADROOM_SMART_CRUSHER" "true");
              smart_crusher_min_tokens := min_tokens;
              smart_crusher_max_items := max_items;
              tool_crusher_enabled :=
                str_to_bool (environ_get env "HEADROOM_TOOL_CRUSHER" "true");
              cache_aligner_enabled :=
                str_to_bool (environ_get env "HEADROOM_CACHE_ALIGNER" "true");
              rolling_window_enabled :=
                str_to_bool (environ_get env "HEADROOM_ROLLING_WINDOW" "true");
              keep_turns := turns;
              ccr_enabled := str_to_bool (environ_get env "HEADROOM_CCR" "true");
              ccr_ttl := ttl;
              llmlingua_enabled := str_to_bool (environ_get env "HEADROOM_LLMLINGUA" "false");
              llmlingua_device := environ_get env "HEADROOM_LLMLINGUA_DEVICE" "auto" |}
  end end end end end.

End Init.

(** [to_dict] *)
Definition to_dict (c : t) : dict :=
  [ ("host", JStr (host c));
    ("port", JInt (port c));
    ("log_level", JStr (log_level c));
    ("mode", JStr (mode c));
    ("provider", JStr (provider c));
    ("smart_crusher", JDict [ ("enabled", JBool (smart_crusher_enabled c));
                              ("min_tokens", JInt (smart_crusher_min_tokens c));
                              ("max_items", JInt (smart_crusher_max_items c)) ]);
    ("tool_crusher", JDict [ ("enabled", JBool (tool_crusher_enabled c)) ]);
    ("cache_aligner", JDict [ ("enabled", JBool (cache_aligner_enabled c)) ]);
    ("rolling_window", JDict [ ("enabled", JBool (rolling_window_enabled c));
                               ("keep_turns", JInt (keep_turns c)) ]);
    ("ccr", JDict [ ("enabled", JBool (ccr_enabled c)); ("ttl", JInt (ccr_ttl c)) ]);
    ("llmlingua", JDict [ ("enabled", JBool (llmlingua_enabled c));
                          ("device", JStr (llmlingua_device c)) ]) ].

(** The two settings the handlers read. *)
Definition handlers (c : t) : HeadroomConfig :=
  Config (smart_crusher_min_tokens c) (ccr_ttl c).

End Settings.

(* ------------------------------------------------------------------ *)
(** ** Predicates of the further properties *)

(** [reordered a b]: [b] is [a] with the items of some of its dicts, at any
    depth, in another order.  The keys of a reordered dict are distinct, as
    those of a Python dict. *)
Inductive reordered : json -> json -> Prop :=
| reordered_refl v : reordered v v
| reordered_trans a b c : reordered a b -> reordered b c -> reordered a c
| reordered_items d d' :
    NoDup (map fst d) -> Permutation d d' -> reordered (JDict d) (JDict d')
| reordered_element x y l l' :
    reordered x y -> reordered (JList l) (JList l') ->
    reordered (JList (x :: l)) (JList (y :: l'))
| reordered_value k x y d d' :
    reordered x y -> reordered (JDict d) (JDict d') ->
    reordered (JDict ((k, x) :: d)) (JDict ((k, y) :: d')).

(** The items of a dict once their values are serialised. *)
Definition rendered (v : list (string * json)) : list (string * string) :=
  map (fun kv => (fst kv, Json.dumps true (snd kv))) v.

(** The value of a hexadecimal digit. *)
Definition hex_value (c : ascii) : Z :=
  let n := PyStr.code c in
  if n <=? 57 then n - 48 else n - 87.

(** Reads back the first character [Json.escape] wrote, with what follows
    it. *)
Definition unescape_char (s : string) : option (ascii * string) :=
  match s with
  | EmptyString => None
  | String c r =>
      if PyStr.code c =? 92 then
        match r with
        | String x r' =>
            let n := PyStr.code x in
            if n =? 117 then
              match r' with
              | String _ (String _ (String h (String l r''))) =>
                  Some (PyStr.chr (16 * hex_value h + hex_value l), r'')
              | _ => None
              end
            else if n =? 110 then Some (PyStr.chr 10, r')
            else if n =? 114 then Some (PyStr.chr 13, r')
            else if n =? 116 then Some (PyStr.chr 9, r')
            else if n =? 102 then Some (PyStr.chr 12, r')
            else if n =? 98 then Some (PyStr.chr 8, r')
            else Some (x, r')
        | EmptyString => None
        end
      else Some (c, r)
  end.

(** Every entry is stored under the address of its content, a string longer
    than the threshold. *)
Definition addressed (st : store) : Prop :=
  forall k e, In (k, e) st ->
    exists s, content e = JStr s /\ 2000 < PyStr.len s /\ k = generate_hash (JStr s).

(** The address a reference text carries: the twelve characters after
    its five first. *)
Definition address_in (text : string) : string := String.substring 5 12 text.

(** The suggestion [ccr_analyze] makes of one entry. *)
Definition suggestion (kv : string * entry) : expansion :=
  {| exp_hash := fst kv; exp_tool_name := tool_name (snd kv); exp_relevance := 8 # 10 |}.

(** The length of a value's serialisation. *)
Definition size (v : json) : Z := Z.of_nat (String.length (Json.dumps false v)).

(** The summed lengths of strings. *)
Fixpoint total (l : list string) : Z :=
  match l with
  | [] => 0
  | x :: l' => Z.of_nat (String.length x) + total l'
  end.

Fixpoint sum_sizes {A} (sz : A -> Z) (l : list A) : Z :=
  match l with
  | [] => 0
  | x :: l' => sz x + sum_sizes sz l'
  end.

(** The offloads counted so far. *)
Definition stored (w : world) : Z := ccr_stores (metrics w).

(** One run of a loop body from [x] in [w] to [y] in [w']: every offload it
    counts takes four characters or more off the size, and without one
    nothing changes. *)
Definition accounts {A} (sz : A -> Z) (x : A) (w : world) (y : A) (w' : world) : Prop :=
  stored w <= stored w' /\
  sz y + 4 * (stored w' - stored w) <= sz x /\
  (stored w' = stored w -> y = x /\ w' = w).

(** [m'] has the fields of [m], in the same order, with the same values but
    for [content], which is kept when it is not a list and is a list of as
    many blocks when it is one. *)
Definition same_shape (m m' : dict) : Prop :=
  map fst m' = map fst m /\
  (forall k, k <> "content" -> Json.get k m' = Json.get k m) /\
  (forall v, Json.get "content" m = Some v -> (forall l, v <> JList l) ->
     Json.get "content" m' = Some v) /\
  (forall l, Json.get "content" m = Some (JList l) ->
     exists l', Json.get "content" m' = Some (JList l') /\
                List.length l' = List.length l) /\
  (Json.get "content" m = None -> m' = m).

(** No string of the blocks of [msg] reaches the length limit of a Python
    [str] on a 64-bit platform. *)
Definition within_limits (msg : dict) : Prop :=
  forall blocks b P,
    Json.get "content" msg = Some (JList blocks) -> In (JDict b) blocks ->
    Json.get "content" b = Some (JStr P) -> PyStr.len P < 2 ^ 63.

(** Every counted request ended in exactly one of the three counters. *)
Definition balanced (m : metrics_t) : Prop :=
  requests_total m = compressions_applied m + compressions_skipped m + errors m.

(** The running totals are ordered: no more tokens out than in. *)
Definition totals_ordered (m : metrics_t) : Prop :=
  0 <= total_tokens_after m <= total_tokens_before m.

(** The four outcomes of [compress_messages], each with the state it
    leaves: skipped below the minimum, answered by the engine, answered by the
    fallback, failed in the fallback.  The fallback runs when the engine gave
    no response, from the state [before_fallback] names. *)
Inductive outcome (config : HeadroomConfig) (headroom_pipeline : option pipeline)
    (request : CompressRequest) (w : world) : result CompressResponse -> world -> Prop :=
| outcome_skipped :
    estimate_tokens (messages_json (req_messages request)) < smart_crusher_min_tokens config ->
    outcome config headroom_pipeline request w
      (Ok (skipped_response config request
             (estimate_tokens (messages_json (req_messages request)))))
      (World (ccr_store w) (incr_compressions_skipped (metrics (counted request w)))
             (clock w) (S (ticks w)))
| outcome_engine msgs names :
    smart_crusher_min_tokens config <= estimate_tokens (messages_json (req_messages request)) ->
    engine_response headroom_pipeline request = Some (msgs, names) ->
    let tokens_before := estimate_tokens (messages_json (req_messages request)) in
    let tokens_after := estimate_tokens (messages_json msgs) in
    outcome config headroom_pipeline request w
      (Ok {| messages := msgs;
             tools := req_tools request;
             compressed := tokens_after <? tokens_before;
             stats := [ ("tokens_before", SInt tokens_before);
                        ("tokens_after", SInt tokens_after);
                        ("tokens_saved", SInt (tokens_before - tokens_after));
                        ("savings_percent", savings_percent tokens_before tokens_after);
                        ("transforms_applied", SNames names);
                        ("latency_ms", latency_ms (next_time w) (clock w (S (ticks w)))) ] |})
      (World (ccr_store w)
             (incr_compressions_applied
                (add_total_tokens_after tokens_after (metrics (counted request w))))
             (clock w) (S (S (ticks w))))
| outcome_fallback w0 r w1 :
    smart_crusher_min_tokens config <= estimate_tokens (messages_json (req_messages request)) ->
    before_fallback headroom_pipeline request w = Some w0 ->
    basic_compress (req_messages request) (req_tools request) w0 = (Ok r, w1) ->
    outcome config headroom_pipeline request w
      (Ok {| messages := messages r; tools := tools r; compressed := compressed r;
             stats := stats_set "latency_ms" (latency_ms (next_time w) (next_time w1))
                                (stats r) |})
      (World (ccr_store w1)
             ((if compressed r then incr_compressions_applied else incr_compressions_skipped)
                (add_total_tokens_after (estimate_tokens (messages_json (messages r)))
                   (metrics w1)))
             (clock w1) (S (ticks w1)))
| outcome_failed w0 e w1 :
    smart_crusher_min_tokens config <= estimate_tokens (messages_json (req_messages request)) ->
    before_fallback headroom_pipeline request w = Some w0 ->
    basic_compress (req_messages request) (req_tools request) w0 = (Raise e, w1) ->
    outcome config headroom_pipeline request w
      (Raise (HTTPException 500))
      (World (ccr_store w1) (incr_errors (metrics w1)) (clock w1) (ticks w1)).

(** The store of [w] holds the content [P] under its address. *)
Definition held (w : world) (P : string) : Prop :=
  exists e, Store.get (generate_hash (JStr P)) (ccr_store w) = Some e /\ content e = JStr P.

(** [y] is the block [v], or [v] with its content replaced by a reference
    to an entry of [w] that holds the content. *)
Definition recoverable_block (w : world) (v y : json) : Prop :=
  y = v \/ exists b P, v = JDict b /\ offloads P b /\ y = replaced P b /\ held w P.

(** [m'] is the message [m], or [m] with a content made of blocks that are
    recoverable from those of [m]. *)
Definition recoverable (w : world) (m m' : dict) : Prop :=
  m' = m \/
  exists l l', Json.get "content" m = Some (JList l) /\
               m' = Json.set "content" (JList l') m /\
               Forall2 (recoverable_block w) l l'.

(** The contents [basic_compress] offloads from a conversation. *)
Definition offered (msgs : list dict) (P : string) : Prop :=
  exists m l b, In m msgs /\ is_str (Json.get "role" m) "user" = true /\
                Json.get "content" m = Some (JList l) /\ In (JDict b) l /\ offloads P b.

(** No two different contents offloaded from the conversation share an
    address. *)
Definition collision_free (msgs : list dict) : Prop :=
  forall P Q, offered msgs P -> offered msgs Q ->
    generate_hash (JStr P) = generate_hash (JStr Q) -> P = Q.

(** The store holds no more entries than offloads were counted. *)
Definition counted_for (w : world) : Prop :=
  Z.of_nat (List.length (ccr_store w)) <= ccr_stores (metrics w).

(** The plain decimal numerals, an optional minus sign before digits, read
    as [int] reads them.  [int] takes more: a plus sign, blanks around the
    numeral, underscores between digits; these are read as no number
    here. *)
Definition decimal_int (s : string) : option Z :=
  option_map Z.of_int (NilZero.int_of_string s).

(** The variables [config.py] reads. *)
Definition config_keys : list string :=
  [ "HEADROOM_HOST"; "HEADROOM_PORT"; "HEADROOM_LOG_LEVEL"; "HEADROOM_MODE";
    "HEADROOM_PROVIDER"; "HEADROOM_SMART_CRUSHER"; "HEADROOM_SMART_CRUSHER_MIN_TOKENS";
    "HEADROOM_SMART_CRUSHER_MAX_ITEMS"; "HEADROOM_TOOL_CRUSHER"; "HEADROOM_CACHE_ALIGNER";
    "HEADROOM_ROLLING_WINDOW"; "HEADROOM_KEEP_TURNS"; "HEADROOM_CCR"; "HEADROOM_CCR_TTL";
    "HEADROOM_LLMLINGUA"; "HEADROOM_LLMLINGUA_DEVICE" ].

(** A request whose second block is not a dict, after one that is
    offloaded. *)
Definition broken_request : CompressRequest :=
  {| req_messages :=
       [user_message [JDict (tool_block "toolu_1" big_payload); JStr "not a block"]];
     req_tools := None; req_model := None; req_model_limit := None |}.

(** An engine that raises on every call. *)
Definition failing_engine : pipeline := fun _ _ _ => None.

(** An engine that answers with an object whose [messages] is a string. *)
Definition garbling_engine : pipeline :=
  fun _ _ _ => Some (ResObject (JStr "squeezed") None).

(** An engine that answers with the conversation it was given, as a list. *)
Definition echo_engine : pipeline :=
  fun msgs _ _ => Some (ResList (map JDict msgs)).
(* ================================================================== *)
(** * Properties *)

(** ** The store as a dict *)

Module StoreFacts.

Import Store.

Lemma get_set_same k e st : get k (set k e st) = Some e.
Proof.
  induction st as [|[k' e'] st IH]; simpl.
  - now rewrite String.eqb_refl.
  - destruct (String.eqb k k') eqn:E; simpl; rewrite ?String.eqb_refl, ?E; auto.
Qed.

Lemma get_set_other k k' e st : k' <> k -> get k' (set k e st) = get k' st.
Proof.
  intros N. induction st as [|[k0 e0] st IH]; simpl.
  - destruct (String.eqb k' k) eqn:E; auto. apply String.eqb_eq in E. contradiction.
  - destruct (String.eqb k k0) eqn:E; simpl.
    + apply String.eqb_eq in E. subst k0.
      destruct (String.eqb k' k) eqn:E'; auto. apply String.eqb_eq in E'. contradiction.
    + now rewrite IH.
Qed.

Lemma get_None_notin k st : get k st = None <-> ~ In k (keys st).
Proof.
  induction st as [|[k' e'] st IH]; simpl.
  - tauto.
  - destruct (String.eqb k k') eqn:E.
    + apply String.eqb_eq in E. subst. split; [discriminate | tauto].
    + apply String.eqb_neq in E. rewrite IH. split.
      * intros H [H1 | H1]; [congruence | tauto].
      * tauto.
Qed.

Lemma get_Some_in k st : get k st <> None -> In k (keys st).
Proof.
  intros H. destruct (in_dec String.string_dec k (keys st)) as [I | I]; [assumption|].
  apply get_None_notin in I. contradiction.
Qed.

Lemma keys_set_in k e st : In k (keys st) -> keys (set k e st) = keys st.
Proof.
  induction st as [|[k' e'] st IH]; simpl; [tauto|].
  intros H. destruct (String.eqb k k') eqn:E; simpl.
  - apply String.eqb_eq in E. now subst.
  - apply String.eqb_neq in E. f_equal. apply IH. destruct H; [congruence | assumption].
Qed.

Lemma keys_set_notin k e st : ~ In k (keys st) -> keys (set k e st) = (keys st ++ [k])%list.
Proof.
  induction st as [|[k' e'] st IH]; simpl; [reflexivity|].
  intros H. destruct (String.eqb k k') eqn:E; simpl.
  - apply String.eqb_eq in E. subst. tauto.
  - f_equal. apply IH. tauto.
Qed.

Lemma wf_set k e st : wf st -> wf (set k e st).
Proof.
  unfold wf. intros H.
  destruct (in_dec String.string_dec k (keys st)) as [I | I].
  - now rewrite keys_set_in.
  - rewrite keys_set_notin by assumption.
    apply NoDup_app; [assumption | repeat constructor; simpl; tauto |].
    intros x Hx [<- | []]. contradiction.
Qed.

Lemma count_notin k st : ~ In k (keys st) -> count k st = 0%nat.
Proof.
  unfold count. induction st as [|[k' e'] st IH]; simpl; [reflexivity|].
  intros H. destruct (String.eqb k k') eqn:E.
  - apply String.eqb_eq in E. subst. tauto.
  - apply IH. tauto.
Qed.

Lemma count_set_same k e st : wf st -> count k (set k e st) = 1%nat.
Proof.
  unfold wf. induction st as [|[k' e'] st IH]; simpl; intros H.
  - unfold count. simpl. now rewrite String.eqb_refl.
  - inversion H as [|? ? Hn Hd]; subst.
    destruct (String.eqb k k') eqn:E.
    + apply String.eqb_eq in E. subst k'.
      unfold count. simpl. rewrite String.eqb_refl. simpl. f_equal.
      now apply count_notin.
    + unfold count in *. simpl. rewrite E. now apply IH.
Qed.

Lemma length_set_in k e st : In k (keys st) -> List.length (set k e st) = List.length st.
Proof.
  intros H. apply keys_set_in with (e := e) in H.
  unfold keys in H. apply (f_equal (@List.length _)) in H. now rewrite !length_map in H.
Qed.

Lemma length_set_notin k e st :
  ~ In k (keys st) -> List.length (set k e st) = S (List.length st).
Proof.
  intros H. apply keys_set_notin with (e := e) in H.
  unfold keys in H. apply (f_equal (@List.length _)) in H.
  rewrite length_app, !length_map in H. simpl in H. lia.
Qed.

Lemma in_keys_set k e st : In k (keys (set k e st)).
Proof.
  destruct (in_dec String.string_dec k (keys st)) as [I | I].
  - now rewrite keys_set_in.
  - rewrite keys_set_notin by assumption. apply in_or_app. right. now left.
Qed.

End StoreFacts.

(** ** Addresses *)

Lemma hex_digit_lower_hex n : is_lower_hex (PyStr.hex_digit n) = true.
Proof.
  unfold PyStr.hex_digit.
  destruct (n mod 16) as [|p|p]; try reflexivity;
    do 5 (try destruct p as [p|p|]; try reflexivity).
Qed.

Lemma address_of_text_is_address text : is_address (address_of_text text).
Proof.
  unfold address_of_text.
  destruct (Sha256.sha256 (encode text)) as [a b c d e f g h].
  unfold Sha256.hexdigest, Sha256.hex8. cbn [Sha256.ha Sha256.hb Sha256.hc Sha256.hd append substring].
  split; [reflexivity|].
  cbn [all_chars]. now rewrite !hex_digit_lower_hex.
Qed.

Lemma generate_hash_is_address v : is_address (generate_hash v).
Proof. apply address_of_text_is_address. Qed.

(** ** Offloading one block *)

Lemma compress_block_offload P b w :
  offloads P b ->
  compress_block (JDict b) w = (Ok (replaced P b), offloaded P b w).
Proof.
  intros (Ht & Hc & Hl).
  unfold compress_block, Json.get_default. rewrite Ht, Hc.
  apply Z.ltb_lt in Hl. rewrite Hl. reflexivity.
Qed.

Lemma mapM_offload_same P blocks : forall w,
  Store.wf (ccr_store w) ->
  Forall (offloads P) blocks ->
  exists w',
    mapM compress_block (map JDict blocks) w = (Ok (map (replaced P) blocks), w') /\
    Store.wf (ccr_store w') /\
    Store.keys (ccr_store w') =
      match blocks with
      | [] => Store.keys (ccr_store w)
      | b :: _ => Store.keys (Store.set (generate_hash (JStr P)) (entry_of P b 0) (ccr_store w))
      end /\
    metrics w' = Nat.iter (List.length blocks) incr_ccr_stores (metrics w).
Proof.
  induction blocks as [|b blocks IH]; intros w Hwf HF.
  - exists w. repeat split; auto.
  - inversion HF as [|? ? Hb HF']; subst.
    destruct (IH (offloaded P b w)) as (w' & E & Hwf' & Hk & Hm); auto.
    { simpl. now apply StoreFacts.wf_set. }
    exists w'. split; [|split; [assumption|split]].
    + cbn [map mapM]. unfold bind at 1. rewrite (compress_block_offload P b w Hb).
      unfold bind at 1. rewrite E. reflexivity.
    + rewrite Hk. destruct blocks as [|b' blocks'].
      * simpl. destruct (in_dec String.string_dec (generate_hash (JStr P)) (Store.keys (ccr_store w))).
        -- now rewrite !StoreFacts.keys_set_in.
        -- now rewrite !StoreFacts.keys_set_notin.
      * cbn [offloaded ccr_store].
        rewrite (StoreFacts.keys_set_in _ _ (Store.set _ _ _)) by apply StoreFacts.in_keys_set.
        destruct (in_dec String.string_dec (generate_hash (JStr P)) (Store.keys (ccr_store w))).
        -- now rewrite !StoreFacts.keys_set_in.
        -- now rewrite !StoreFacts.keys_set_notin.
    + rewrite Hm. cbn [offloaded metrics List.length]. now rewrite Nat.iter_succ_r.
Qed.

Lemma mapM_cons_offload P b rest w :
  offloads P b ->
  mapM compress_block (JDict b :: rest) w =
  match mapM compress_block rest (offloaded P b w) with
  | (Ok ys, w') => (Ok (replaced P b :: ys), w')
  | (Raise e, w') => (Raise e, w')
  end.
Proof.
  intros Hb. cbn [mapM]. unfold bind at 1. rewrite (compress_block_offload P b w Hb).
  unfold bind at 1. destruct (mapM compress_block rest (offloaded P b w)) as [[ys|e] w']; reflexivity.
Qed.

Lemma last_cons_default {A} (l : list A) (a d : A) : last (a :: l) d = last l a.
Proof.
  revert a d. induction l as [|x l IH]; intros a d; [reflexivity|].
  change (last (a :: x :: l) d) with (last (x :: l) d). now rewrite !IH.
Qed.

(** After a run of offloads of [P] the entry is the one the last of them
    wrote, stamped with the reading it took. *)
Lemma mapM_offload_last P : forall blocks b w out w',
  Forall (offloads P) (b :: blocks) ->
  mapM compress_block (map JDict (b :: blocks)) w = (Ok out, w') ->
  Store.get (generate_hash (JStr P)) (ccr_store w') =
    Some (entry_of P (last blocks b) (clock w (ticks w + List.length blocks)%nat)) /\
  ticks w' = S (ticks w + List.length blocks) /\ clock w' = clock w.
Proof.
  induction blocks as [|b' blocks IH]; intros b w out w' HF E;
    inversion HF as [|? ? Hb HF']; subst.
  - cbn [map] in E. rewrite (mapM_cons_offload P b [] w Hb) in E. cbn in E.
    injection E as _ <-. cbn. rewrite Nat.add_0_r, StoreFacts.get_set_same. auto.
  - cbn [map] in E. rewrite (mapM_cons_offload P b _ w Hb) in E.
    change (JDict b' :: map JDict blocks) with (map JDict (b' :: blocks)) in E.
    destruct (mapM compress_block (map JDict (b' :: blocks)) (offloaded P b w))
      as [[ys|e] w1] eqn:E1; [|discriminate].
    injection E as _ <-.
    destruct (IH b' _ _ _ HF' E1) as (G & T & C).
    cbn [offloaded ticks clock] in G, T, C.
    cbn [List.length]. rewrite Nat.add_succ_r, last_cons_default. repeat split; auto.
Qed.

Lemma count_keys k st st' : Store.keys st = Store.keys st' -> Store.count k st = Store.count k st'.
Proof.
  unfold Store.keys, Store.count. revert st'.
  induction st as [|[a e] st IH]; intros [|[a' e'] st']; simpl; try discriminate; auto.
  intros H. injection H as -> H. destruct (String.eqb k a'); simpl; auto.
Qed.

(** C1. The address is a function of the key-sorted serialisation alone (two
    payloads with the same serialisation get the same address), it is twelve
    lowercase hexadecimal characters, every offload of the payload [P] puts
    that same address in the reference it leaves, and however many times [P]
    is offloaded the store holds one entry for it: as many entries in all
    as after the first offload. *)
Theorem ccr_address_deduplication (P : string) (b : dict) (blocks : list dict) (w : world) :
  Store.wf (ccr_store w) ->
  Forall (offloads P) (b :: blocks) ->
  (forall X Y, Json.dumps true X = Json.dumps true Y -> generate_hash X = generate_hash Y) /\
  generate_hash (JStr P) = address_of_text (Json.dumps true (JStr P)) /\
  is_address (generate_hash (JStr P)) /\
  exists w',
    mapM compress_block (map JDict (b :: blocks)) w = (Ok (map (replaced P) (b :: blocks)), w') /\
    Store.count (generate_hash (JStr P)) (ccr_store w') = 1%nat /\
    List.length (ccr_store w') = List.length (ccr_store (offloaded P b w)) /\
    exists e, Store.get (generate_hash (JStr P)) (ccr_store w') = Some e /\ content e = JStr P.
Proof.
  intros Hwf HF.
  split; [|split; [reflexivity|split; [apply generate_hash_is_address|]]].
  { intros X Y H. unfold generate_hash. now rewrite H. }
  destruct (mapM_offload_same P (b :: blocks) w Hwf HF) as (w' & E & Hwf' & Hk & _).
  exists w'. split; [exact E|].
  assert (Hk' : Store.keys (ccr_store w') = Store.keys (ccr_store (offloaded P b w))).
  { rewrite Hk. cbn [offloaded ccr_store].
    destruct (in_dec String.string_dec (generate_hash (JStr P)) (Store.keys (ccr_store w))).
    - now rewrite !StoreFacts.keys_set_in.
    - now rewrite !StoreFacts.keys_set_notin. }
  split; [|split].
  - rewrite (count_keys _ _ _ Hk'). cbn [offloaded ccr_store].
    now apply StoreFacts.count_set_same.
  - unfold Store.keys in Hk'. apply (f_equal (@List.length _)) in Hk'.
    now rewrite !length_map in Hk'.
  - destruct (mapM_offload_last P blocks b w _ _ HF E) as (G & _).
    eexists. split; [exact G | reflexivity].
Qed.

(** ** Expiry sweep *)

Lemma fold_del_filter ks : forall st,
  fold_left (fun s key => Store.del key s) ks st =
  filter (fun kv => negb (existsb (String.eqb (fst kv)) ks)) st.
Proof.
  induction ks as [|k ks IH]; intros st; simpl.
  - induction st as [|x st IHst]; simpl; congruence.
  - rewrite IH. unfold Store.del.
    induction st as [|x st IHst]; simpl; [reflexivity|].
    rewrite (String.eqb_sym k (fst x)).
    destruct (String.eqb (fst x) k); simpl; [assumption|].
    destruct (existsb (String.eqb (fst x)) ks); simpl; congruence.
Qed.

Lemma expired_key_iff config now st k e :
  Store.wf st -> In (k, e) st ->
  existsb (String.eqb k) (map fst (filter (fun kv => expired config now (snd kv)) st))
  = expired config now e.
Proof.
  unfold Store.wf, Store.keys. intros Hwf Hin.
  destruct (expired config now e) eqn:E.
  - apply existsb_exists. exists k. split; [|apply String.eqb_refl].
    apply in_map_iff. exists (k, e). split; [reflexivity|].
    apply filter_In. auto.
  - apply not_true_is_false. intros H. apply existsb_exists in H.
    destruct H as (k' & Hk' & Heq). apply String.eqb_eq in Heq. subst k'.
    apply in_map_iff in Hk'. destruct Hk' as ([k1 e1] & Hf & Hin1). simpl in Hf. subst k1.
    apply filter_In in Hin1. destruct Hin1 as (Hin1 & Hexp). simpl in Hexp.
    assert (e1 = e); [|congruence].
    clear - Hwf Hin Hin1. induction st as [|[a x] st IH]; [contradiction|].
    simpl in Hwf. inversion Hwf as [|? ? Hn Hd]; subst.
    destruct Hin as [Hin | Hin], Hin1 as [Hin1 | Hin1]; try congruence.
    + exfalso. apply Hn. injection Hin as -> ->. now apply (in_map fst) in Hin1.
    + exfalso. apply Hn. injection Hin1 as -> ->. now apply (in_map fst) in Hin.
    + now apply IH.
Qed.

(** [cleanup_expired_ccr] takes one clock reading and leaves exactly the
    entries that are not older than the TTL at that reading. *)
Lemma cleanup_expired_ccr_spec config w :
  Store.wf (ccr_store w) ->
  cleanup_expired_ccr config w = (Ok tt, after_sweep config w).
Proof.
  intros Hwf. unfold cleanup_expired_ccr, bind, time_time, get_store, put_store, after_sweep.
  cbn [ccr_store metrics clock ticks]. do 2 f_equal.
  rewrite fold_del_filter. unfold swept, next_time.
  apply filter_ext_in. intros [k e] Hin. cbn [fst snd].
  now rewrite (expired_key_iff config _ _ k e Hwf Hin).
Qed.

Lemma wf_filter (p : string * entry -> bool) st : Store.wf st -> Store.wf (filter p st).
Proof.
  unfold Store.wf, Store.keys. induction st as [|x st IH]; simpl; intros H; [assumption|].
  inversion H as [|? ? Hn Hd]; subst.
  destruct (p x); simpl; auto. constructor; auto.
  intros Hin. apply Hn. apply in_map_iff in Hin. destruct Hin as (y & <- & Hy).
  apply filter_In in Hy. apply in_map. tauto.
Qed.

Lemma get_filter (p : string * entry -> bool) k st :
  Store.wf st ->
  Store.get k (filter p st) =
  match Store.get k st with
  | Some e => if p (k, e) then Some e else None
  | None => None
  end.
Proof.
  unfold Store.wf, Store.keys. induction st as [|[a x] st IH]; simpl; intros H; [reflexivity|].
  inversion H as [|? ? Hn Hd]; subst.
  destruct (String.eqb k a) eqn:E.
  - apply String.eqb_eq in E. subst a. destruct (p (k, x)) eqn:Ep; simpl.
    + now rewrite String.eqb_refl.
    + rewrite IH by assumption.
      destruct (Store.get k st) eqn:G; [|reflexivity].
      exfalso. apply Hn. apply StoreFacts.get_Some_in. congruence.
  - destruct (p (a, x)); simpl; rewrite ?E; auto.
Qed.

(** ** Retrieval *)

Lemma get_swept config now k st :
  Store.wf st ->
  Store.get k (swept config now st) =
  match Store.get k st with
  | Some e => if expired config now e then None else Some e
  | None => None
  end.
Proof.
  intros Hwf. unfold swept. rewrite get_filter by assumption.
  destruct (Store.get k st) as [e|]; [|reflexivity]. cbn [snd].
  now destruct (expired config now e).
Qed.

Lemma ccr_retrieve_absent config r w :
  Store.wf (ccr_store w) ->
  Store.get (req_hash r) (ccr_store w) = None ->
  ccr_retrieve config r w = (Ok (not_found (req_hash r)), after_sweep config w).
Proof.
  intros Hwf G. unfold ccr_retrieve. unfold bind at 1.
  rewrite cleanup_expired_ccr_spec by assumption.
  unfold bind at 1. cbn [get_store after_sweep ccr_store].
  now rewrite get_swept, G.
Qed.

Lemma ccr_retrieve_expired config r w e :
  Store.wf (ccr_store w) ->
  Store.get (req_hash r) (ccr_store w) = Some e ->
  ccr_ttl config < next_time w - timestamp e ->
  ccr_retrieve config r w = (Ok (not_found (req_hash r)), after_sweep config w).
Proof.
  intros Hwf G X. unfold ccr_retrieve. unfold bind at 1.
  rewrite cleanup_expired_ccr_spec by assumption.
  unfold bind at 1. cbn [get_store after_sweep ccr_store].
  rewrite get_swept, G by assumption. unfold expired.
  apply Z.ltb_lt in X. now rewrite X.
Qed.

Lemma ccr_retrieve_live config r w e :
  Store.wf (ccr_store w) ->
  Store.get (req_hash r) (ccr_store w) = Some e ->
  next_time w - timestamp e <= ccr_ttl config ->
  ccr_retrieve config r w = (Ok (answer r (content e)), after_retrieve config w).
Proof.
  intros Hwf G L. unfold ccr_retrieve. unfold bind at 1.
  rewrite cleanup_expired_ccr_spec by assumption.
  unfold bind at 1. cbn [get_store after_sweep ccr_store].
  rewrite get_swept, G by assumption. unfold expired.
  apply Z.ltb_ge in L. rewrite L. cbv zeta.
  unfold bind, update_metrics, answer, after_retrieve. cbn [ccr_store metrics clock ticks].
  destruct (truthy (req_query r)) as [q|]; [|reflexivity].
  destruct (content e); try reflexivity.
  now destruct (PyStr.contains (PyStr.lower q) (PyStr.lower s)).
Qed.

Lemma swept_live config now k e st :
  Store.wf st -> Store.get k (swept config now st) = Some e ->
  now - timestamp e <= ccr_ttl config.
Proof.
  intros Hwf. rewrite get_swept by assumption.
  destruct (Store.get k st) as [e'|]; [|discriminate].
  unfold expired. destruct (Z.ltb_spec (ccr_ttl config) (now - timestamp e')); [discriminate|].
  now intros [= <-].
Qed.

Lemma not_found_neq_query_not_found h : query_not_found <> not_found h.
Proof. unfold query_not_found, not_found. cbn. intros H. discriminate H. Qed.

Lemma answer_neq_not_found r c h : answer r c <> not_found h.
Proof.
  unfold answer, not_found, full_content, query_not_found.
  destruct (truthy (req_query r)) as [q|]; [destruct c|]; cbn; try discriminate.
  destruct (PyStr.contains (PyStr.lower q) (PyStr.lower s)); discriminate.
Qed.

Lemma answer_no_query r c : req_query r = None -> answer r c = full_content c.
Proof. intros H. unfold answer. now rewrite H. Qed.

(** C2. A retrieval first sweeps the store at its clock reading, then looks
    the address up.  It answers the not-found failure (no success, an error
    message) exactly when the address is absent or its entry is older than
    the TTL; a live entry is never answered not-found, and retrieved by
    address alone it is returned with success.  The sweep is a removal, not
    a filter of the lookup: the store it leaves holds no expired entry.  So
    an entry stamped [t] is retrieved at [t + TTL - 1], and at [t + TTL + 1]
    it is answered not-found and is gone from the store; the health check
    runs the same sweep. *)
Theorem retrieve_not_found_iff_absent_or_expired
    (config : HeadroomConfig) (r : CCRRetrieveRequest) (w : world) :
  Store.wf (ccr_store w) ->
  let now := next_time w in
  let h := req_hash r in
  let ttl := ccr_ttl config in
  exists resp w',
    ccr_retrieve config r w = (Ok resp, w') /\
    ccr_store w' = swept config now (ccr_store w) /\
    (forall k e, Store.get k (ccr_store w') = Some e -> now - timestamp e <= ttl) /\
    (resp = not_found h <->
       Store.get h (ccr_store w) = None \/
       exists e, Store.get h (ccr_store w) = Some e /\ ttl < now - timestamp e) /\
    (resp = not_found h -> success resp = false /\ error resp <> None) /\
    (forall e, Store.get h (ccr_store w) = Some e -> now - timestamp e <= ttl ->
       resp <> not_found h /\
       (req_query r = None ->
          success resp = true /\ resp_content resp = Some (content e) /\ error resp = None)) /\
    (forall e, Store.get h (ccr_store w) = Some e -> now = timestamp e + ttl - 1 ->
       ccr_retrieve config (get_request h) w
       = (Ok (full_content (content e)), after_retrieve config w)) /\
    (forall e, Store.get h (ccr_store w) = Some e -> now = timestamp e + ttl + 1 ->
       resp = not_found h /\ Store.get h (ccr_store w') = None) /\
    health_check config w
    = (Ok (Z.of_nat (List.length (swept config now (ccr_store w)))), after_sweep config w).
Proof.
  intros Hwf now h ttl.
  assert (Hhealth : health_check config w
    = (Ok (Z.of_nat (List.length (swept config now (ccr_store w)))), after_sweep config w)).
  { unfold health_check. unfold bind at 1. now rewrite cleanup_expired_ccr_spec. }
  assert (Hfull : forall e, Store.get h (ccr_store w) = Some e -> now = timestamp e + ttl - 1 ->
       ccr_retrieve config (get_request h) w
       = (Ok (full_content (content e)), after_retrieve config w)).
  { intros e G N. rewrite (ccr_retrieve_live config (get_request h) w e); auto.
    fold now. fold ttl. lia. }
  assert (Hgone : forall e, Store.get h (ccr_store w) = Some e -> ttl < now - timestamp e ->
       Store.get h (swept config now (ccr_store w)) = None).
  { intros e G X. rewrite get_swept, G by assumption. unfold expired.
    apply Z.ltb_lt in X. unfold ttl in X. now rewrite X. }
  assert (Hnf : success (not_found h) = false /\ error (not_found h) <> None).
  { split; [reflexivity | discriminate]. }
  destruct (Store.get h (ccr_store w)) as [e|] eqn:G.
  - destruct (Z.lt_ge_cases ttl (now - timestamp e)) as [X | L].
    + (* expired *)
      exists (not_found h), (after_sweep config w).
      split; [now apply (ccr_retrieve_expired config r w e)|].
      split; [reflexivity|].
      split; [intros k e'; now apply swept_live|].
      split; [split; [intros _; right; exists e; auto | reflexivity]|].
      split; [intros _; exact Hnf|].
      split; [intros e' [= <-] L; lia|].
      split; [exact Hfull|].
      split; [|exact Hhealth].
      intros e' [= <-] _. split; [reflexivity|]. now apply (Hgone e).
    + (* live *)
      exists (answer r (content e)), (after_retrieve config w).
      split; [now apply ccr_retrieve_live|].
      split; [reflexivity|].
      split; [intros k e'; now apply swept_live|].
      split; [split|].
      { intros H. now apply answer_neq_not_found in H. }
      { intros [H | (e' & [= <-] & H)]; [discriminate | lia]. }
      split; [intros H; now apply answer_neq_not_found in H|].
      split.
      { intros e' [= <-] _. split; [apply answer_neq_not_found|].
        intros Q. rewrite answer_no_query by assumption. repeat split. }
      split; [exact Hfull|].
      split; [|exact Hhealth].
      intros e' [= <-] N. lia.
  - (* absent *)
    exists (not_found h), (after_sweep config w).
    split; [now apply ccr_retrieve_absent|].
    split; [reflexivity|].
    split; [intros k e'; now apply swept_live|].
    split; [split; [intros _; now left | reflexivity]|].
    split; [intros _; exact Hnf|].
    split; [intros e; discriminate|].
    split; [exact Hfull|].
    split; [|exact Hhealth].
    intros e; discriminate.
Qed.

Lemma prefix_iff q : forall s, String.prefix q s = true <-> exists b, s = q ++ b.
Proof.
  induction q as [|c q IH]; intros s.
  - split; [intros _; now exists s | now destruct s].
  - destruct s as [|d s]; cbn.
    + split; [discriminate | intros (b & [=])].
    + destruct (Ascii.ascii_dec c d) as [-> | N].
      * rewrite IH. split; intros (b & E); exists b; [now subst | now injection E].
      * split; [discriminate | intros (b & [= E _]); congruence].
Qed.

Lemma contains_iff q s :
  PyStr.contains q s = true <-> exists a b, s = a ++ q ++ b.
Proof.
  split.
  - induction s as [|c s IH]; cbn [PyStr.contains]; rewrite orb_true_iff.
    + intros [H | H]; [|discriminate]. apply prefix_iff in H. destruct H as (b & E).
      now exists "", b.
    + intros [H | H].
      * apply prefix_iff in H. destruct H as (b & E). now exists "", b.
      * destruct (IH H) as (a & b & ->). now exists (String c a), b.
  - intros (a & b & ->). induction a as [|c a IH].
    + cbn [append].
      assert (P : String.prefix q (q ++ b) = true) by (apply prefix_iff; now exists b).
      destruct (q ++ b); cbn [PyStr.contains]; now rewrite P.
    + cbn [append PyStr.contains]. rewrite IH. apply orb_true_r.
Qed.

Lemma matches_iff q x : matches q x = true <-> mentions q x.
Proof. unfold matches, mentions, occurs_in. apply contains_iff. Qed.

Lemma filter_selected q items : selected (mentions q) items (filter (matches q) items).
Proof.
  induction items as [|x items IH]; cbn [filter]; [constructor|].
  destruct (matches q x) eqn:E.
  - apply selected_take; [now apply matches_iff | exact IH].
  - apply selected_drop; [|exact IH]. intros H. apply matches_iff in H. congruence.
Qed.

Lemma answer_empty_query r c : req_query r = Some "" -> answer r c = full_content c.
Proof. intros H. unfold answer. now rewrite H. Qed.

Lemma truthy_nonempty q : q <> "" -> truthy (Some q) = Some q.
Proof. destruct q; [contradiction | reflexivity]. Qed.

Lemma listing_address_eq : generate_hash (JList listing) = listing_address.
Proof. vm_compute. reflexivity. Qed.

(** C3, as stated, fails on the live list payload [listing], whose three
    items all contain the letter [a].  A query that is the empty string is
    taken as no query: with [max_results = 1] the retrieval answers the
    three items, not one, and not as a search.  With the query [A] and
    [max_results = -1] it answers two items, all the matching ones but the
    last, which no count of at most [-1] items allows; with no
    [max_results] it answers all three. *)
Lemma retrieve_query_and_count_at_the_edges :
  Store.get listing_address (ccr_store listing_world)
    = Some (Entry (JList listing) 1000 (JStr "toolu_3")) /\
  next_time listing_world - 1000 <= ccr_ttl default_config /\
  filter (matches "") listing = listing /\
  filter (matches "A") listing = listing /\
  fst (ccr_retrieve default_config (search_request "" (Some 1)) listing_world)
    = Ok {| success := true; resp_content := Some (JList listing); items_retrieved := 3;
            was_search := false; error := None |} /\
  fst (ccr_retrieve default_config (search_request "A" (Some (-1))) listing_world)
    = Ok {| success := true;
            resp_content := Some (JList [JStr "Alpha.txt"; JStr "beta.txt"]);
            items_retrieved := 2; was_search := true; error := None |} /\
  fst (ccr_retrieve default_config (search_request "A" None) listing_world)
    = Ok {| success := true; resp_content := Some (JList listing); items_retrieved := 3;
            was_search := true; error := None |}.
Proof. vm_compute. repeat split; discriminate. Qed.

(** C3, as the code has it.  For a live entry: a retrieval without a query,
    absent or the empty string, answers the stored payload unchanged, not
    as a search, so a payload that was just offloaded comes back equal to
    itself.  A retrieval with a non-empty query on a list payload answers,
    as a search, the slice [:max_results] of the items whose serialised
    form contains the query, case folded on both sides, in their order:
    all of them when there is no [max_results], the first [max_results] of
    them at most when it is not negative, and all but the last
    [-max_results] when it is negative.  With a non-empty query on a string
    payload it answers the whole string as a search of one item when the
    string contains the query, case folded, and otherwise the
    query-not-found failure, which is not the not-found failure.  A payload
    that is neither is answered whole, not as a search. *)
Theorem retrieve_roundtrip_and_search
    (config : HeadroomConfig) (r : CCRRetrieveRequest) (w : world) (e : entry) :
  Store.wf (ccr_store w) ->
  Store.get (req_hash r) (ccr_store w) = Some e ->
  next_time w - timestamp e <= ccr_ttl config ->
  exists resp,
    ccr_retrieve config r w = (Ok resp, after_retrieve config w) /\
    (req_query r = None \/ req_query r = Some "" ->
       success resp = true /\ resp_content resp = Some (content e) /\
       was_search resp = false /\ error resp = None) /\
    (forall P b w0 out,
       offloads P b -> compress_block (JDict b) w0 = (Ok out, w) ->
       req_hash r = generate_hash (JStr P) ->
       req_query r = None \/ req_query r = Some "" ->
       success resp = true /\ resp_content resp = Some (JStr P)) /\
    (forall q items,
       req_query r = Some q -> q <> "" -> content e = JList items ->
       exists found answered,
         selected (mentions q) items found /\
         success resp = true /\ was_search resp = true /\ error resp = None /\
         resp_content resp = Some (JList answered) /\
         items_retrieved resp = Z.of_nat (List.length answered) /\
         answered = slice_to (req_max_results r) found /\
         match req_max_results r with
         | None => answered = found
         | Some n =>
             if 0 <=? n
             then answered = firstn (Z.to_nat n) found /\ items_retrieved resp <= n
             else answered = firstn (List.length found - Z.to_nat (- n)) found
         end) /\
    (forall q s,
       req_query r = Some q -> q <> "" -> content e = JStr s ->
       (occurs_in q s ->
          success resp = true /\ resp_content resp = Some (JStr s) /\
          was_search resp = true /\ items_retrieved resp = 1) /\
       (~ occurs_in q s ->
          resp = query_not_found /\ success resp = false /\
          error resp = Some "Query not found in content" /\
          resp <> not_found (req_hash r))) /\
    (forall q,
       req_query r = Some q ->
       (forall items, content e <> JList items) -> (forall s, content e <> JStr s) ->
       success resp = true /\ resp_content resp = Some (content e) /\
       was_search resp = false /\ items_retrieved resp = 1).
Proof.
  intros Hwf G L.
  exists (answer r (content e)).
  split; [now apply ccr_retrieve_live|].
  assert (NoQuery : req_query r = None \/ req_query r = Some "" ->
                    answer r (content e) = full_content (content e)).
  { intros [Q | Q]; [now apply answer_no_query | now apply answer_empty_query]. }
  split; [|split; [|split; [|split]]].
  - intros Q. rewrite (NoQuery Q). repeat split.
  - intros P b w0 out Hb E Hh Q.
    rewrite (compress_block_offload P b w0 Hb) in E. injection E as _ <-.
    rewrite Hh in G. cbn [offloaded ccr_store] in G.
    rewrite StoreFacts.get_set_same in G. injection G as <-.
    rewrite (NoQuery Q). split; reflexivity.
  - intros q items Q Hq C.
    exists (filter (matches q) items),
           (slice_to (req_max_results r) (filter (matches q) items)).
    unfold answer. rewrite Q, C, (truthy_nonempty q Hq).
    cbn [success was_search resp_content items_retrieved error].
    split; [apply filter_selected|].
    do 6 (split; [reflexivity|]).
    destruct (req_max_results r) as [n|]; [|reflexivity].
    unfold slice_to. destruct (Z.leb_spec 0 n) as [Hn | Hn].
    + split; [reflexivity|].
      pose proof (firstn_le_length (Z.to_nat n) (filter (matches q) items)). lia.
    + f_equal. lia.
  - intros q s Q Hq C. unfold answer. rewrite Q, C, (truthy_nonempty q Hq).
    unfold occurs_in. rewrite <- contains_iff.
    destruct (PyStr.contains (PyStr.lower q) (PyStr.lower s)).
    + split; [repeat split | intros N; now destruct N].
    + split; [discriminate|]. intros _. repeat split.
      apply not_found_neq_query_not_found.
  - intros q Q NL NS. unfold answer. rewrite Q.
    destruct (truthy (Some q)); destruct (content e) eqn:C;
      try (repeat split; fail); exfalso;
      solve [eapply NL; reflexivity | eapply NS; reflexivity].
Qed.

(** ** The gate of [compress_messages] *)

Lemma compress_messages_skipped config pipeline request w :
  estimate_tokens (messages_json (req_messages request)) < smart_crusher_min_tokens config ->
  compress_messages config pipeline request w =
  (Ok (skipped_response config request (estimate_tokens (messages_json (req_messages request)))),
   World (ccr_store w)
         (incr_compressions_skipped
            (add_total_tokens_before (estimate_tokens (messages_json (req_messages request)))
               (incr_requests_total (metrics w))))
         (clock w) (S (ticks w))).
Proof.
  intros H. apply Z.ltb_lt in H.
  unfold compress_messages, try_except, bind, time_time, update_metrics, ret.
  cbn [ccr_store metrics clock ticks]. rewrite H. reflexivity.
Qed.

(** C5. A request whose estimated tokens are below the configured minimum is
    answered with [compressed = false] and [stats.skipped = true], the two
    compared values in the reason, and the request's own messages and tools;
    the store is left as it was, no offload is counted, the clock is read
    once (the start time) and the answer and the state do not depend on the
    engine: no compression strategy runs. *)
Theorem gate_skips_below_minimum
    (config : HeadroomConfig) (headroom_pipeline : option pipeline)
    (request : CompressRequest) (w : world) :
  let tokens_before := estimate_tokens (messages_json (req_messages request)) in
  tokens_before < smart_crusher_min_tokens config ->
  exists resp w',
    compress_messages config headroom_pipeline request w = (Ok resp, w') /\
    compressed resp = false /\
    stats_get "skipped" (stats resp) = Some (SBool true) /\
    stats_get "reason" (stats resp)
      = Some (SStr ("Below threshold (" ++ PyStr.str_of_Z tokens_before ++ " < "
                    ++ PyStr.str_of_Z (smart_crusher_min_tokens config) ++ ")")) /\
    messages resp = req_messages request /\
    tools resp = req_tools request /\
    ccr_store w' = ccr_store w /\
    ccr_stores (metrics w') = ccr_stores (metrics w) /\
    compressions_skipped (metrics w') = compressions_skipped (metrics w) + 1 /\
    compressions_applied (metrics w') = compressions_applied (metrics w) /\
    ticks w' = S (ticks w) /\
    (forall other_pipeline,
       compress_messages config other_pipeline request w = (Ok resp, w')).
Proof.
  intros tokens_before H.
  eexists _, _. split; [now apply compress_messages_skipped|].
  repeat (split; [reflexivity|]).
  intros other. now apply compress_messages_skipped.
Qed.

(** ** Blocks and messages that pass through *)

Lemma compress_block_kept b w :
  kept b -> compress_block (JDict b) w = (Ok (JDict b), w).
Proof.
  intros K. unfold compress_block.
  destruct (is_str (Json.get "type" b) "tool_result") eqn:T; [|reflexivity].
  unfold Json.get_default.
  destruct (Json.get "content" b) as [[| | | |s| |]|] eqn:C; try reflexivity.
  destruct (Z.ltb_spec 2000 (PyStr.len s)) as [L|L]; [|reflexivity].
  exfalso. apply (K s). repeat split; assumption.
Qed.

Lemma mapM_kept bs : forall w,
  Forall kept bs -> mapM compress_block (map JDict bs) w = (Ok (map JDict bs), w).
Proof.
  induction bs as [|b bs IH]; intros w HF; [reflexivity|].
  inversion HF as [|? ? Hb HF']; subst.
  cbn [map mapM]. unfold bind at 1. rewrite (compress_block_kept b w Hb).
  unfold bind at 1. now rewrite IH.
Qed.

Lemma json_set_same k v d : Json.get k d = Some v -> Json.set k v d = d.
Proof.
  induction d as [|[k' v'] d IH]; simpl; [discriminate|].
  destruct (String.eqb k k') eqn:E.
  - apply String.eqb_eq in E. now intros [= ->]; subst.
  - intros H. now rewrite IH.
Qed.

Lemma compress_message_passive msg w :
  passive msg -> compress_message msg w = (Ok msg, w).
Proof.
  unfold compress_message. intros [R | [C | (bs & C & K)]].
  - now rewrite R.
  - destruct (is_str (Json.get "role" msg) "user"); [|reflexivity].
    destruct (Json.get "content" msg) as [[| | | | |l|]|] eqn:G; try reflexivity.
    now destruct (C l).
  - destruct (is_str (Json.get "role" msg) "user"); [|reflexivity].
    rewrite C. unfold bind. rewrite (mapM_kept bs w K). unfold ret.
    now rewrite json_set_same.
Qed.

Lemma mapM_passive msgs : forall w,
  Forall passive msgs -> mapM compress_message msgs w = (Ok msgs, w).
Proof.
  induction msgs as [|m msgs IH]; intros w HF; [reflexivity|].
  inversion HF as [|? ? Hm HF']; subst.
  cbn [mapM]. unfold bind at 1. rewrite (compress_message_passive m w Hm).
  unfold bind at 1. now rewrite IH.
Qed.

(** C10. A block is offloaded only when it is a tool result whose content is
    a string longer than 2000 characters.  Every other dict block comes out
    as it went in and leaves the state alone: one whose content is a list or
    any other value that is not a string, whatever its size, one whose
    content is a string of 2000 characters or fewer, one with no content,
    one that is not a tool result.  A user message made of such blocks, and
    a conversation of such messages, come out unchanged too. *)
Theorem offload_only_long_strings (b : dict) (w : world) :
  (forall out w',
     compress_block (JDict b) w = (Ok out, w') ->
     (out <> JDict b \/ w' <> w) ->
     exists s, is_str (Json.get "type" b) "tool_result" = true /\
               Json.get "content" b = Some (JStr s) /\ 2000 < PyStr.len s) /\
  (forall v, Json.get "content" b = Some v -> (forall s, v <> JStr s) ->
     compress_block (JDict b) w = (Ok (JDict b), w)) /\
  (forall s, Json.get "content" b = Some (JStr s) -> PyStr.len s <= 2000 ->
     compress_block (JDict b) w = (Ok (JDict b), w)) /\
  (Json.get "content" b = None -> compress_block (JDict b) w = (Ok (JDict b), w)) /\
  (is_str (Json.get "type" b) "tool_result" = false ->
     compress_block (JDict b) w = (Ok (JDict b), w)) /\
  (forall msg bs,
     Json.get "content" msg = Some (JList (map JDict bs)) -> Forall kept bs ->
     compress_message msg w = (Ok msg, w)) /\
  (forall msgs tls,
     Forall passive msgs ->
     exists r, basic_compress msgs tls w = (Ok r, w) /\
               messages r = msgs /\ compressed r = false).
Proof.
  assert (K1 : forall v, Json.get "content" b = Some v -> (forall s, v <> JStr s) -> kept b).
  { intros v C N P (_ & C' & _). rewrite C in C'. injection C' as ->. now apply (N P). }
  assert (K2 : forall s, Json.get "content" b = Some (JStr s) -> PyStr.len s <= 2000 -> kept b).
  { intros s C L P (_ & C' & L'). rewrite C in C'. injection C' as ->. lia. }
  assert (K3 : Json.get "content" b = None -> kept b).
  { intros C P (_ & C' & _). congruence. }
  assert (K4 : is_str (Json.get "type" b) "tool_result" = false -> kept b).
  { intros T P (T' & _). congruence. }
  split; [|split; [|split; [|split; [|split; [|split]]]]].
  - intros out w' E Hch.
    destruct (is_str (Json.get "type" b) "tool_result") eqn:T.
    2:{ rewrite compress_block_kept in E by auto. injection E as <- <-.
        destruct Hch as [N | N]; now destruct N. }
    destruct (Json.get "content" b) as [v|] eqn:C.
    2:{ rewrite compress_block_kept in E by auto. injection E as <- <-.
        destruct Hch as [N | N]; now destruct N. }
    assert (D : (exists s, v = JStr s) \/ (forall s, v <> JStr s)).
    { destruct v; try (right; intros s'; discriminate). left. now exists s. }
    destruct D as [(s & ->) | D].
    + destruct (Z.lt_ge_cases 2000 (PyStr.len s)) as [L | L].
      * exists s. auto.
      * rewrite compress_block_kept in E by (apply (K2 s); auto; lia).
        injection E as <- <-. destruct Hch as [N | N]; now destruct N.
    + rewrite compress_block_kept in E by (apply (K1 v); auto).
      injection E as <- <-. destruct Hch as [N | N]; now destruct N.
  - intros v C N. apply compress_block_kept. now apply (K1 v).
  - intros s C L. apply compress_block_kept. now apply (K2 s).
  - intros C. apply compress_block_kept. now apply K3.
  - intros T. apply compress_block_kept. now apply K4.
  - intros msg bs C K. apply compress_message_passive. right. right. now exists bs.
  - intros msgs tls HF. unfold basic_compress, bind. rewrite (mapM_passive msgs w HF).
    unfold ret. eexists. split; [reflexivity|]. split; [reflexivity|].
    cbn [compressed]. apply Z.ltb_irrefl.
Qed.

(** ** What the fallback changes of the state *)

Lemma fallback_frame_refl w : fallback_frame w w.
Proof. unfold fallback_frame. repeat split; lia. Qed.

Lemma fallback_frame_trans w1 w2 w3 :
  fallback_frame w1 w2 -> fallback_frame w2 w3 -> fallback_frame w1 w3.
Proof. unfold fallback_frame. intuition (try congruence; try lia). Qed.

Lemma mapM_frame {A B} (f : A -> M B) (l : list A) :
  (forall x w r w', f x w = (r, w') -> fallback_frame w w') ->
  forall w r w', mapM f l w = (r, w') -> fallback_frame w w'.
Proof.
  intros Hf. induction l as [|x l IH]; intros w r w' E.
  - injection E as _ <-. apply fallback_frame_refl.
  - cbn [mapM] in E. unfold bind at 1 in E.
    destruct (f x w) as [[y|e] w1] eqn:E1.
    + apply Hf in E1. unfold bind at 1 in E.
      destruct (mapM f l w1) as [[ys|e] w2] eqn:E2.
      * injection E as _ <-. eapply fallback_frame_trans; eauto.
      * injection E as _ <-. eapply fallback_frame_trans; eauto.
    + injection E as _ <-. now apply Hf in E1.
Qed.

Lemma compress_block_frame v w r w' :
  compress_block v w = (r, w') -> fallback_frame w w'.
Proof.
  unfold compress_block. intros E.
  assert (Hsame : forall (x : result json), (x, w) = (r, w') -> fallback_frame w w').
  { intros x [= _ <-]. apply fallback_frame_refl. }
  destruct v as [| | | | | |b]; try (now apply (Hsame _ E)).
  destruct (is_str (Json.get "type" b) "tool_result"); [|now apply (Hsame _ E)].
  destruct (Json.get_default "content" (JStr "") b) as [| | | |s| |];
    try (now apply (Hsame _ E)).
  destruct (2000 <? PyStr.len s); [|now apply (Hsame _ E)].
  unfold bind, time_time, get_store, put_store, update_metrics, ret in E.
  cbn [ccr_store metrics clock ticks] in E. injection E as _ <-.
  unfold fallback_frame. cbn. repeat split; lia.
Qed.

Lemma compress_message_frame msg w r w' :
  compress_message msg w = (r, w') -> fallback_frame w w'.
Proof.
  unfold compress_message. intros E.
  assert (Hsame : forall (x : result dict), (x, w) = (r, w') -> fallback_frame w w').
  { intros x [= _ <-]. apply fallback_frame_refl. }
  destruct (is_str (Json.get "role" msg) "user"); [|now apply (Hsame _ E)].
  destruct (Json.get "content" msg) as [[| | | | |l|]|]; try (now apply (Hsame _ E)).
  unfold bind in E.
  destruct (mapM compress_block l w) as [[ys|e] w1] eqn:E1;
    injection E as _ <-; eapply mapM_frame; eauto using compress_block_frame.
Qed.

Lemma basic_compress_frame msgs tls w r w' :
  basic_compress msgs tls w = (r, w') -> fallback_frame w w'.
Proof.
  unfold basic_compress, bind. intros E.
  destruct (mapM compress_message msgs w) as [[ys|e] w1] eqn:E1;
    injection E as _ <-; eapply mapM_frame; eauto using compress_message_frame.
Qed.

(** ** No exception on conversations whose blocks are dicts *)

Lemma compress_block_returns b w :
  exists out w', compress_block (JDict b) w = (Ok out, w').
Proof.
  unfold compress_block.
  destruct (is_str (Json.get "type" b) "tool_result"); [|do 2 eexists; reflexivity].
  destruct (Json.get_default "content" (JStr "") b) as [| | | |s| |];
    try (do 2 eexists; reflexivity).
  destruct (2000 <? PyStr.len s); do 2 eexists; reflexivity.
Qed.

Lemma mapM_blocks_return l : forall w,
  Forall is_dict l -> exists out w', mapM compress_block l w = (Ok out, w').
Proof.
  induction l as [|v l IH]; intros w HF; [do 2 eexists; reflexivity|].
  inversion HF as [|? ? (b & ->) HF']; subst.
  destruct (compress_block_returns b w) as (y & w1 & E1).
  destruct (IH w1 HF') as (ys & w2 & E2).
  exists (y :: ys), w2. cbn [mapM]. unfold bind at 1. rewrite E1.
  unfold bind at 1. now rewrite E2.
Qed.

Lemma compress_message_returns msg w :
  blocks_are_dicts msg -> exists out w', compress_message msg w = (Ok out, w').
Proof.
  unfold blocks_are_dicts, compress_message. intros H.
  destruct (is_str (Json.get "role" msg) "user"); [|do 2 eexists; reflexivity].
  destruct (Json.get "content" msg) as [[| | | | |l|]|]; try (do 2 eexists; reflexivity).
  destruct (mapM_blocks_return l w (H eq_refl l eq_refl)) as (ys & w1 & E).
  unfold bind. rewrite E. do 2 eexists; reflexivity.
Qed.

Lemma mapM_messages_return msgs : forall w,
  Forall blocks_are_dicts msgs -> exists out w', mapM compress_message msgs w = (Ok out, w').
Proof.
  induction msgs as [|m msgs IH]; intros w HF; [do 2 eexists; reflexivity|].
  inversion HF as [|? ? Hm HF']; subst.
  destruct (compress_message_returns m w Hm) as (y & w1 & E1).
  destruct (IH w1 HF') as (ys & w2 & E2).
  exists (y :: ys), w2. cbn [mapM]. unfold bind at 1. rewrite E1.
  unfold bind at 1. now rewrite E2.
Qed.

Lemma basic_compress_returns msgs tls w :
  Forall blocks_are_dicts msgs -> exists r w', basic_compress msgs tls w = (Ok r, w').
Proof.
  intros HF. destruct (mapM_messages_return msgs w HF) as (ys & w1 & E).
  unfold basic_compress, bind. rewrite E. do 2 eexists; reflexivity.
Qed.

(** ** The outcomes of [compress_messages] *)

Lemma all_dicts_json msgs : all_dicts (map JDict msgs) = Some msgs.
Proof. induction msgs as [|m msgs IH]; cbn; [reflexivity|]. now rewrite IH. Qed.

Lemma all_dicts_sound l : forall msgs, all_dicts l = Some msgs -> l = map JDict msgs.
Proof.
  induction l as [|v l IH]; cbn; intros msgs E.
  - now injection E as <-.
  - destruct v; try discriminate.
    destruct (all_dicts l) as [ds|]; [|discriminate].
    injection E as <-. cbn. now rewrite (IH ds eq_refl).
Qed.

(** [CompressResponse] takes a conversation as it is, and takes nothing
    else. *)
Lemma as_messages_json msgs : as_messages (messages_json msgs) = Some msgs.
Proof. apply all_dicts_json. Qed.

Lemma as_messages_sound v msgs : as_messages v = Some msgs -> v = messages_json msgs.
Proof.
  destruct v; try discriminate. cbn. intros E. unfold messages_json.
  now rewrite (all_dicts_sound _ _ E).
Qed.

Lemma pipeline_compress_run r request start tokens_before w :
  pipeline_compress (fun _ _ _ => Some r) request start tokens_before w =
  let names := snd (normalize request r) in
  let tokens_after := estimate_tokens (fst (normalize request r)) in
  (match as_messages (fst (normalize request r)) with
   | Some msgs =>
       Ok {| messages := msgs;
             tools := req_tools request;
             compressed := tokens_after <? tokens_before;
             stats := [ ("tokens_before", SInt tokens_before);
                        ("tokens_after", SInt tokens_after);
                        ("tokens_saved", SInt (tokens_before - tokens_after));
                        ("savings_percent", savings_percent tokens_before tokens_after);
                        ("transforms_applied", SNames names);
                        ("latency_ms", latency_ms start (next_time w)) ] |}
   | None => Raise ValidationError
   end,
   World (ccr_store w)
         (incr_compressions_applied (add_total_tokens_after tokens_after (metrics w)))
         (clock w) (S (ticks w))).
Proof.
  unfold pipeline_compress. destruct (normalize request r) as [v names]. cbn [fst snd].
  unfold bind, update_metrics, time_time, next_time. cbn [ccr_store metrics clock ticks].
  now destruct (as_messages v).
Qed.

Lemma compress_messages_unfold config pipeline request w :
  smart_crusher_min_tokens config <= estimate_tokens (messages_json (req_messages request)) ->
  compress_messages config pipeline request w =
  let tokens_before := estimate_tokens (messages_json (req_messages request)) in
  let fallback :=
    try_except (fallback_compress request (next_time w))
               (fun _ => update_metrics incr_errors ;;; raise (HTTPException 500)) in
  match engine_answer pipeline request with
  | Some r =>
      let names := snd (normalize request r) in
      let tokens_after := estimate_tokens (fst (normalize request r)) in
      match as_messages (fst (normalize request r)) with
      | Some msgs =>
          (Ok {| messages := msgs;
                 tools := req_tools request;
                 compressed := tokens_after <? tokens_before;
                 stats := [ ("tokens_before", SInt tokens_before);
                            ("tokens_after", SInt tokens_after);
                            ("tokens_saved", SInt (tokens_before - tokens_after));
                            ("savings_percent", savings_percent tokens_before tokens_after);
                            ("transforms_applied", SNames names);
                            ("latency_ms",
                               latency_ms (next_time w) (clock w (S (ticks w)))) ] |},
           engine_counted request r w)
      | None => fallback (engine_counted request r w)
      end
  | None => fallback (counted request w)
  end.
Proof.
  intros H. apply Z.ltb_ge in H.
  unfold compress_messages, engine_answer.
  unfold bind at 1. cbn [time_time]. unfold bind at 1. cbn [update_metrics].
  unfold try_except at 1. unfold bind at 1. cbn [update_metrics ccr_store metrics clock ticks].
  rewrite H. cbv zeta. fold (next_time w). fold (counted request w).
  destruct pipeline as [apply|]; [|reflexivity].
  destruct (apply (req_messages request) (req_model request) (req_model_limit request))
    as [r|] eqn:A.
  2:{ unfold pipeline_compress. rewrite A. reflexivity. }
  assert (P : pipeline_compress apply request (next_time w)
                (estimate_tokens (messages_json (req_messages request)))
              = pipeline_compress (fun _ _ _ => Some r) request (next_time w)
                  (estimate_tokens (messages_json (req_messages request)))).
  { unfold pipeline_compress. now rewrite A. }
  rewrite P. unfold try_except. rewrite pipeline_compress_run. cbv zeta.
  unfold engine_counted, next_time. cbn [counted ccr_store metrics clock ticks].
  now destruct (as_messages (fst (normalize request r))).
Qed.

Lemma fallback_compress_run request start w r w1 :
  basic_compress (req_messages request) (req_tools request) w = (Ok r, w1) ->
  fallback_compress request start w =
  (Ok {| messages := messages r; tools := tools r; compressed := compressed r;
         stats := stats_set "latency_ms" (latency_ms start (next_time w1)) (stats r) |},
   World (ccr_store w1)
         ((if compressed r then incr_compressions_applied else incr_compressions_skipped)
            (add_total_tokens_after (estimate_tokens (messages_json (messages r))) (metrics w1)))
         (clock w1) (S (ticks w1))).
Proof.
  intros E. unfold fallback_compress. unfold bind at 1. rewrite E.
  assert (S : stats_get "tokens_after" (stats r)
              = Some (SInt (estimate_tokens (messages_json (messages r))))).
  { unfold basic_compress, bind in E.
    destruct (mapM compress_message (req_messages request) w) as [[ys|e] w2]; [|discriminate].
    injection E as <- _. reflexivity. }
  rewrite S. reflexivity.
Qed.

Lemma basic_compress_result msgs tls w r w1 :
  basic_compress msgs tls w = (Ok r, w1) ->
  let tokens_before := estimate_tokens (messages_json msgs) in
  let tokens_after := estimate_tokens (messages_json (messages r)) in
  mapM compress_message msgs w = (Ok (messages r), w1) /\
  tools r = tls /\
  compressed r = (tokens_after <? tokens_before) /\
  stats r = [ ("tokens_before", SInt tokens_before);
              ("tokens_after", SInt tokens_after);
              ("tokens_saved", SInt (tokens_before - tokens_after));
              ("savings_percent", savings_percent tokens_before tokens_after);
              ("transforms_applied",
                 SNames (if tokens_after <? tokens_before then ["basic_ccr"] else []));
              ("latency_ms", SInt 0) ].
Proof.
  unfold basic_compress, bind. intros E.
  destruct (mapM compress_message msgs w) as [[ys|e] w2]; [|discriminate].
  injection E as <- <-. repeat split.
Qed.


(** ** Concrete runs *)

Lemma big_payload_offloads id : offloads big_payload (tool_block id big_payload).
Proof. repeat split. Qed.

Lemma big_address_eq : generate_hash (JStr big_payload) = big_address.
Proof. vm_compute. reflexivity. Qed.

Lemma served_world_reached :
  snd (compress_messages default_config None big_request (fresh_world 50)) = warm_world /\
  snd (compress_messages default_config None big_request (fresh_world 500)) = stale_world.
Proof. split; vm_compute; reflexivity. Qed.

(** ** Re-offloading a payload *)

(** C7, as stated, fails: [big_payload] is stored with the timestamp 1050;
    offloading it again at 1150 leaves the entry with the timestamp 1150. *)
Lemma reoffload_refreshes_timestamp :
  Store.get big_address (ccr_store warm_world)
    = Some (Entry (JStr big_payload) 1050 (JStr "toolu_1")) /\
  fst (compress_block (JDict (tool_block "toolu_2" big_payload)) warm_world)
    = Ok (JDict (tool_block "toolu_2" (reference big_address big_payload))) /\
  ccr_store (snd (compress_block (JDict (tool_block "toolu_2" big_payload)) warm_world))
    = [(big_address, Entry (JStr big_payload) 1150 (JStr "toolu_2"))].
Proof. vm_compute. repeat split. Qed.

(** C7, as the code has it.  Every offload of a payload writes the entry
    anew: whether or not the address was stored, the entry after the
    offload carries the payload, the reading of the clock the offload took
    and the tool identifier of the offloaded block; an entry that was
    there keeps its place in the store and nothing else of it. *)
Theorem offload_always_stamps_now (P : string) (b : dict) (w : world) :
  offloads P b ->
  exists out w',
    compress_block (JDict b) w = (Ok out, w') /\
    Store.get (generate_hash (JStr P)) (ccr_store w')
      = Some (Entry (JStr P) (next_time w) (Json.get_default "tool_use_id" (JStr "unknown") b)) /\
    (forall e, Store.get (generate_hash (JStr P)) (ccr_store w) = Some e ->
       Store.keys (ccr_store w') = Store.keys (ccr_store w)) /\
    (Store.get (generate_hash (JStr P)) (ccr_store w) = None ->
       Store.keys (ccr_store w') = (Store.keys (ccr_store w) ++ [generate_hash (JStr P)])%list) /\
    (forall k, k <> generate_hash (JStr P) ->
       Store.get k (ccr_store w') = Store.get k (ccr_store w)).
Proof.
  intros Hb. eexists _, _. split; [exact (compress_block_offload P b w Hb)|].
  cbn [offloaded ccr_store]. split; [apply StoreFacts.get_set_same|].
  split; [|split].
  - intros e G. apply StoreFacts.keys_set_in. apply StoreFacts.get_Some_in. congruence.
  - intros G. apply StoreFacts.keys_set_notin. now apply StoreFacts.get_None_notin.
  - intros k N. now apply StoreFacts.get_set_other.
Qed.

(** C8, as stated, fails: [big_payload] is stored and one offload is
    counted; offloading it again leaves one entry and counts two. *)
Lemma reoffload_counts_again :
  Store.get big_address (ccr_store warm_world)
    = Some (Entry (JStr big_payload) 1050 (JStr "toolu_1")) /\
  ccr_stores (metrics warm_world) = 1 /\
  List.length
    (ccr_store (snd (compress_block (JDict (tool_block "toolu_2" big_payload)) warm_world)))
    = 1%nat /\
  ccr_stores (metrics (snd (compress_block (JDict (tool_block "toolu_2" big_payload)) warm_world)))
    = 2.
Proof. vm_compute. repeat split. Qed.

(** C8, as the code has it.  [ccr_stores] counts offloads, not entries:
    every offload adds one to it, when the payload is new to the store and
    when it is already there, and a block that is not offloaded adds
    nothing; no other counter moves. *)
Theorem ccr_stores_counts_every_offload (b : dict) (w : world) :
  (forall P, offloads P b ->
     exists out w',
       compress_block (JDict b) w = (Ok out, w') /\
       ccr_stores (metrics w') = ccr_stores (metrics w) + 1 /\
       metrics w' = incr_ccr_stores (metrics w)) /\
  (kept b ->
     exists out w',
       compress_block (JDict b) w = (Ok out, w') /\
       ccr_stores (metrics w') = ccr_stores (metrics w)).
Proof.
  split.
  - intros P Hb. eexists _, _. split; [exact (compress_block_offload P b w Hb)|].
    split; reflexivity.
  - intros K. eexists _, _. split; [exact (compress_block_kept b w K)|]. reflexivity.
Qed.

(** ** Expansion suggestions *)

Lemma firstn_le_5 {A} (l : list A) : (List.length (firstn 5 l) <= 5)%nat.
Proof. apply firstn_le_length. Qed.

Lemma in_firstn {A} n (l : list A) x : In x (firstn n l) -> In x l.
Proof. intros H. rewrite <- (firstn_skipn n l). apply in_or_app. now left. Qed.

(** [ccr_analyze] reads neither the clock nor the TTL: it suggests from
    every entry the store holds, swept or not, the first five whose
    serialised content contains the query, case folded. *)
Lemma ccr_analyze_scans_whole_store query turn_number w :
  exists exps,
    ccr_analyze query turn_number w = (Ok exps, w) /\
    exps = firstn 5 (map (fun kv => {| exp_hash := fst kv; exp_tool_name := tool_name (snd kv);
                                       exp_relevance := 8 # 10 |})
                         (filter (fun kv => matches query (content (snd kv))) (ccr_store w))) /\
    (List.length exps <= 5)%nat /\
    (forall x, In x exps ->
       exp_relevance x = 8 # 10 /\
       exists e, In (exp_hash x, e) (ccr_store w) /\ exp_tool_name x = tool_name e /\
                 PyStr.contains (PyStr.lower query)
                                (PyStr.lower (Json.dumps false (content e))) = true).
Proof.
  eexists. split; [reflexivity|]. cbn [slice_to Z.leb Z.compare Z.to_nat Pos.to_nat].
  change (Pos.iter_op Init.Nat.add 5 1%nat) with 5%nat.
  split; [reflexivity|]. split; [apply firstn_le_5|].
  intros x Hx. apply in_firstn in Hx. apply in_map_iff in Hx.
  destruct Hx as ([k e] & <- & Hin). apply filter_In in Hin. destruct Hin as (Hin & Hm).
  cbn. split; [reflexivity|]. exists e. auto.
Qed.

(** C9 on the stale store.  The one entry was stamped 1500 and the clock
    reads 2500, past the TTL of 300: a retrieval of its address answers
    not-found, yet [ccr_analyze] suggests that very address. *)
Theorem analyze_suggests_expired_entry :
  Store.get big_address (ccr_store stale_world)
    = Some (Entry (JStr big_payload) 1500 (JStr "toolu_1")) /\
  expired default_config (next_time stale_world)
          (Entry (JStr big_payload) 1500 (JStr "toolu_1")) = true /\
  fst (ccr_analyze "X" 3 stale_world)
    = Ok [ {| exp_hash := big_address; exp_tool_name := JStr "toolu_1";
              exp_relevance := 8 # 10 |} ] /\
  fst (ccr_retrieve default_config (get_request big_address) stale_world)
    = Ok (not_found big_address) /\
  fst (health_check default_config stale_world) = Ok 0.
Proof. vm_compute. repeat split. Qed.


(** ** One offloaded block in a conversation *)

Lemma mapM_app {A B} (f : A -> M B) (l1 l2 : list A) (w : world) :
  mapM f (l1 ++ l2)%list w =
  match mapM f l1 w with
  | (Ok ys, w1) =>
      match mapM f l2 w1 with
      | (Ok zs, w2) => (Ok (ys ++ zs)%list, w2)
      | (Raise e, w2) => (Raise e, w2)
      end
  | (Raise e, w1) => (Raise e, w1)
  end.
Proof.
  revert w. induction l1 as [|x l1 IH]; intros w.
  - cbn. destruct (mapM f l2 w) as [[zs|e] w2]; reflexivity.
  - cbn [app mapM]. unfold bind.
    destruct (f x w) as [[y|e] w0]; [|reflexivity].
    rewrite IH.
    destruct (mapM f l1 w0) as [[ys|e] w1]; [|reflexivity].
    unfold ret.
    destruct (mapM f l2 w1) as [[zs|e] w2]; reflexivity.
Qed.

Lemma mapM_blocks_one P b pre post w :
  Forall kept pre -> offloads P b -> Forall kept post ->
  mapM compress_block (map JDict pre ++ JDict b :: map JDict post)%list w
  = (Ok (map JDict pre ++ replaced P b :: map JDict post)%list, offloaded P b w).
Proof.
  intros Hpre Hb Hpost. rewrite mapM_app, (mapM_kept pre w Hpre).
  rewrite (mapM_cons_offload P b _ w Hb), (mapM_kept post _ Hpost). reflexivity.
Qed.

Lemma compress_message_one P b pre post msg w :
  is_str (Json.get "role" msg) "user" = true ->
  Json.get "content" msg = Some (JList (map JDict pre ++ JDict b :: map JDict post)%list) ->
  Forall kept pre -> offloads P b -> Forall kept post ->
  compress_message msg w
  = (Ok (Json.set "content" (JList (map JDict pre ++ replaced P b :: map JDict post)%list) msg),
     offloaded P b w).
Proof.
  intros R C Hpre Hb Hpost. unfold compress_message. rewrite R, C.
  unfold bind. now rewrite (mapM_blocks_one P b pre post w).
Qed.

Lemma mapM_messages_one P b pre post msg before after w :
  Forall passive before ->
  is_str (Json.get "role" msg) "user" = true ->
  Json.get "content" msg = Some (JList (map JDict pre ++ JDict b :: map JDict post)%list) ->
  Forall kept pre -> offloads P b -> Forall kept post ->
  Forall passive after ->
  mapM compress_message (before ++ msg :: after)%list w
  = (Ok (before ++
         Json.set "content" (JList (map JDict pre ++ replaced P b :: map JDict post)%list) msg
         :: after)%list,
     offloaded P b w).
Proof.
  intros Hbefore R C Hpre Hb Hpost Hafter.
  rewrite mapM_app, (mapM_passive before w Hbefore). cbn [mapM]. unfold bind at 1.
  rewrite (compress_message_one P b pre post msg w R C Hpre Hb Hpost).
  unfold bind at 1. now rewrite (mapM_passive after _ Hafter).
Qed.

(** ** Lengths of serialisations *)

Lemma length_append (a b : string) :
  String.length (a ++ b) = (String.length a + String.length b)%nat.
Proof. induction a as [|c a IH]; simpl; congruence. Qed.

(** Replacing one element of a joined list changes the length by the
    difference of the two elements. *)
Lemma join_swap sep (l1 l2 : list string) (x y : string) :
  (String.length (PyStr.join sep (l1 ++ x :: l2)) + String.length y
   = String.length (PyStr.join sep (l1 ++ y :: l2)) + String.length x)%nat.
Proof.
  induction l1 as [|a l1 IH].
  - destruct l2 as [|b l2]; cbn [app PyStr.join]; rewrite ?length_append; lia.
  - change ((a :: l1) ++ x :: l2)%list with (a :: (l1 ++ x :: l2))%list.
    change ((a :: l1) ++ y :: l2)%list with (a :: (l1 ++ y :: l2))%list.
    destruct (l1 ++ x :: l2)%list as [|u lu] eqn:Eu; [now destruct l1|].
    destruct (l1 ++ y :: l2)%list as [|v lv] eqn:Ev; [now destruct l1|].
    cbn [PyStr.join] in *. rewrite !length_append in *. lia.
Qed.

Lemma dumps_list_swap (l1 l2 : list json) (x y : json) :
  (String.length (Json.dumps false (JList (l1 ++ x :: l2))) + String.length (Json.dumps false y)
   = String.length (Json.dumps false (JList (l1 ++ y :: l2))) + String.length (Json.dumps false x))%nat.
Proof.
  cbn [Json.dumps]. rewrite !map_app. cbn [map]. rewrite !length_append.
  pose proof (join_swap ", " (map (Json.dumps false) l1) (map (Json.dumps false) l2)
                (Json.dumps false x) (Json.dumps false y)).
  cbn [String.length]. lia.
Qed.

Lemma render_item_length k s :
  String.length (Json.render_item (k, s))
  = (String.length (Json.encode_basestring k) + 2 + String.length s)%nat.
Proof. unfold Json.render_item. cbn [fst snd]. rewrite !length_append. cbn. lia. Qed.

Lemma dumps_dict_swap (d1 d2 : dict) (k : string) (x y : json) :
  (String.length (Json.dumps false (JDict (d1 ++ (k, x) :: d2))) + String.length (Json.dumps false y)
   = String.length (Json.dumps false (JDict (d1 ++ (k, y) :: d2))) + String.length (Json.dumps false x))%nat.
Proof.
  cbn [Json.dumps]. rewrite !map_app. cbn [map fst snd].
  rewrite !length_append.
  pose proof (join_swap ", "
                (map Json.render_item (map (fun kv => (fst kv, Json.dumps false (snd kv))) d1))
                (map Json.render_item (map (fun kv => (fst kv, Json.dumps false (snd kv))) d2))
                (Json.render_item (k, Json.dumps false x))
                (Json.render_item (k, Json.dumps false y))) as H.
  rewrite !render_item_length in H. cbn [String.length]. lia.
Qed.

Lemma json_get_split k v d :
  Json.get k d = Some v ->
  exists d1 d2, d = (d1 ++ (k, v) :: d2)%list /\
                forall v', Json.set k v' d = (d1 ++ (k, v') :: d2)%list.
Proof.
  induction d as [|[k' x] d IH]; simpl; [discriminate|].
  destruct (String.eqb k k') eqn:E.
  - apply String.eqb_eq in E. subst k'. intros [= ->]. exists [], d. split; reflexivity.
  - intros G. destruct (IH G) as (d1 & d2 & -> & S).
    exists ((k', x) :: d1), d2. split; [reflexivity|]. intros v'. simpl. now rewrite S.
Qed.

Lemma escape_char_nonempty c : (1 <= String.length (Json.escape_char c))%nat.
Proof.
  unfold Json.escape_char.
  repeat match goal with |- context [if ?b then _ else _] => destruct b end; cbn; lia.
Qed.

Lemma escape_length_ge s : (String.length s <= String.length (Json.escape s))%nat.
Proof.
  induction s as [|c s IH]; cbn [Json.escape String.length]; [lia|].
  rewrite length_append. pose proof (escape_char_nonempty c). lia.
Qed.

Lemma escape_char_plain c : plain c = true -> Json.escape_char c = String c EmptyString.
Proof.
  unfold plain, Json.escape_char. cbv zeta. intros H.
  apply andb_prop in H. destruct H as (H & H4).
  apply andb_prop in H. destruct H as (H & H3).
  apply andb_prop in H. destruct H as (H1 & H2).
  apply negb_true_iff in H3, H4. rewrite H3, H4.
  apply Z.leb_le in H1, H2.
  repeat match goal with
         | |- context [?a =? ?b] => destruct (Z.eqb_spec a b); [lia|]
         end.
  apply Z.leb_le in H1, H2. now rewrite H1, H2.
Qed.

Lemma escape_plain s : all_chars plain s = true -> Json.escape s = s.
Proof.
  induction s as [|c s IH]; cbn [all_chars Json.escape]; [reflexivity|].
  intros H. apply andb_prop in H. destruct H as (Hc & Hs).
  now rewrite escape_char_plain, IH.
Qed.

Lemma all_chars_append p a b :
  all_chars p (a ++ b) = all_chars p a && all_chars p b.
Proof. induction a as [|c a IH]; cbn; [reflexivity|]. now rewrite IH, andb_assoc. Qed.

Lemma all_chars_impl (p q : ascii -> bool) s :
  (forall c, p c = true -> q c = true) -> all_chars p s = true -> all_chars q s = true.
Proof.
  intros H. induction s as [|c s IH]; cbn; [reflexivity|].
  intros Hs. apply andb_prop in Hs. destruct Hs as (Hc & Hs). now rewrite H, IH.
Qed.

Lemma lower_hex_plain c : is_lower_hex c = true -> plain c = true.
Proof.
  unfold is_lower_hex, plain. cbv zeta. intros H.
  apply orb_prop in H.
  assert (B : 48 <= PyStr.code c <= 57 \/ 97 <= PyStr.code c <= 102).
  { destruct H as [H | H]; apply andb_prop in H; destruct H as (H1 & H2);
      apply Z.leb_le in H1, H2; lia. }
  apply andb_true_intro. split; [apply andb_true_intro; split; [apply andb_true_intro; split|]|].
  - apply Z.leb_le. lia.
  - apply Z.leb_le. lia.
  - apply negb_true_iff. apply Z.eqb_neq. lia.
  - apply negb_true_iff. apply Z.eqb_neq. lia.
Qed.

(** ** Decimal digits *)

Lemma uint_digits_plain d : all_chars plain (NilEmpty.string_of_uint d) = true.
Proof. induction d; cbn [NilEmpty.string_of_uint all_chars]; rewrite ?IHd; reflexivity. Qed.

Lemma uint_digits_length d :
  String.length (NilEmpty.string_of_uint d) = Decimal.nb_digits d.
Proof. induction d; cbn; congruence. Qed.

Lemma little_double_digits d :
  (Decimal.nb_digits (Decimal.Little.double d) <= S (Decimal.nb_digits d))%nat /\
  (Decimal.nb_digits (Decimal.Little.succ_double d) <= S (Decimal.nb_digits d))%nat.
Proof. induction d; cbn; lia. Qed.

Lemma pos_digits_le_size p :
  (Decimal.nb_digits (Pos.to_little_uint p) <= Pos.size_nat p)%nat.
Proof.
  induction p as [p IH|p IH|]; cbn [Pos.to_little_uint Pos.size_nat].
  - pose proof (proj2 (little_double_digits (Pos.to_little_uint p))). lia.
  - pose proof (proj1 (little_double_digits (Pos.to_little_uint p))). lia.
  - cbn. lia.
Qed.

Lemma pow2_size_le p : 2 ^ Z.of_nat (Pos.size_nat p) <= 2 * Z.pos p.
Proof.
  induction p as [p IH|p IH|]; cbn [Pos.size_nat]; rewrite ?Nat2Z.inj_succ, ?Z.pow_succ_r by lia;
    lia.
Qed.

Lemma pow2_lower_bound k : 9 <= k -> 2 * k + 184 <= 2 ^ k.
Proof.
  intros H. pattern k. apply (Zlt_lower_bound_ind _ 9); [|assumption].
  clear k H. intros k IH Hk.
  destruct (Z.eq_dec k 9) as [-> | N]; [vm_compute; discriminate|].
  replace k with (Z.succ (k - 1)) by lia. rewrite Z.pow_succ_r by lia.
  assert (9 <= k - 1 < k) by lia. specialize (IH (k - 1) H). lia.
Qed.

Lemma size_plus_92 p : 2001 <= Z.pos p -> Z.of_nat (Pos.size_nat p) + 92 <= Z.pos p.
Proof.
  intros H. pose proof (pow2_size_le p) as B.
  destruct (Z.le_gt_cases (Z.of_nat (Pos.size_nat p) + 92) (Z.pos p)) as [L | G]; [assumption|].
  pose proof (pow2_lower_bound (Z.of_nat (Pos.size_nat p))). lia.
Qed.

Lemma str_of_Z_plain n : 0 <= n -> all_chars plain (PyStr.str_of_Z n) = true.
Proof.
  intros H. unfold PyStr.str_of_Z. destruct n as [|p|p]; [reflexivity| |lia].
  cbn [Z.to_int NilZero.string_of_int]. unfold NilZero.string_of_uint.
  destruct (Pos.to_uint p); try reflexivity; apply (uint_digits_plain (_ _)).
Qed.

Lemma str_of_Z_length n :
  2001 <= n -> Z.of_nat (String.length (PyStr.str_of_Z n)) + 92 <= n.
Proof.
  intros H. unfold PyStr.str_of_Z. destruct n as [|p|p]; try lia.
  cbn [Z.to_int NilZero.string_of_int]. unfold NilZero.string_of_uint.
  pose proof (size_plus_92 p H) as B.
  pose proof (pos_digits_le_size p) as D.
  assert (L : String.length (NilEmpty.string_of_uint (Pos.to_uint p))
              = Decimal.nb_digits (Pos.to_little_uint p)).
  { rewrite uint_digits_length. unfold Pos.to_uint. apply nb_digits_rev. }
  assert (1 <= Pos.size_nat p)%nat by (destruct p; cbn; lia).
  destruct (Pos.to_uint p) eqn:E; rewrite <- ?E in *; try lia.
  cbn. lia.
Qed.

(** ** The reference is shorter than what it replaces *)

Lemma reference_plain h P :
  all_chars is_lower_hex h = true -> all_chars plain (reference h P) = true.
Proof.
  intros H. unfold reference. rewrite !all_chars_append.
  rewrite (all_chars_impl _ _ h lower_hex_plain H).
  rewrite str_of_Z_plain by (unfold PyStr.len; lia). reflexivity.
Qed.

Lemma reference_length h P :
  String.length (reference h P)
  = (String.length h + String.length (PyStr.str_of_Z (PyStr.len P)) + 76)%nat.
Proof. unfold reference. rewrite !length_append. cbn [String.length]. lia. Qed.

Lemma dumps_str_length s :
  String.length (Json.dumps false (JStr s)) = (String.length (Json.escape s) + 2)%nat.
Proof.
  cbn [Json.dumps]. unfold Json.encode_basestring, PyStr.quoted.
  cbn [String.length]. rewrite length_append. cbn [String.length]. lia.
Qed.

Lemma reference_shorter P :
  2000 < PyStr.len P ->
  (String.length (Json.dumps false (JStr (reference (generate_hash (JStr P)) P))) + 4
   <= String.length (Json.dumps false (JStr P)))%nat.
Proof.
  intros L. destruct (generate_hash_is_address (JStr P)) as (H12 & Hhex).
  rewrite !dumps_str_length, (escape_plain _ (reference_plain _ P Hhex)), reference_length, H12.
  pose proof (escape_length_ge P). pose proof (str_of_Z_length (PyStr.len P)).
  unfold PyStr.len in *. lia.
Qed.

Lemma tokens_of_messages msgs :
  estimate_tokens (messages_json msgs)
  = Z.of_nat (String.length (Json.dumps false (messages_json msgs))) / 4.
Proof. reflexivity. Qed.

(** Offloading one block of a conversation takes at least four characters
    off its serialisation, so at least one estimated token. *)
Lemma offload_saves_tokens P (b msg : dict) (B1 B2 : list json) (before after : list dict) :
  offloads P b ->
  Json.get "content" msg = Some (JList (B1 ++ JDict b :: B2)%list) ->
  estimate_tokens
    (messages_json (before ++ Json.set "content" (JList (B1 ++ replaced P b :: B2)%list) msg
                    :: after)%list)
  < estimate_tokens (messages_json (before ++ msg :: after)%list).
Proof.
  intros (_ & Cb & L) Cm.
  destruct (json_get_split _ _ _ Cb) as (e1 & e2 & Eb & Sb).
  destruct (json_get_split _ _ _ Cm) as (d1 & d2 & Em & Sm).
  rewrite Sm. unfold replaced. rewrite Sb. clear Sm Sb Cm Cb. subst msg b.
  rewrite !tokens_of_messages. unfold messages_json. rewrite !map_app. cbn [map].
  set (r := JStr (reference (generate_hash (JStr P)) P)).
  pose proof (reference_shorter P L) as H0. fold r in H0.
  pose proof (dumps_dict_swap e1 e2 "content" (JStr P) r) as H1.
  pose proof (dumps_list_swap B1 B2 (JDict (e1 ++ ("content", JStr P) :: e2)%list)
                (JDict (e1 ++ ("content", r) :: e2)%list)) as H2.
  pose proof (dumps_dict_swap d1 d2 "content"
                (JList (B1 ++ JDict (e1 ++ ("content", JStr P) :: e2)%list :: B2)%list)
                (JList (B1 ++ JDict (e1 ++ ("content", r) :: e2)%list :: B2)%list)) as H3.
  pose proof (dumps_list_swap (@map dict json JDict before) (@map dict json JDict after)
     (JDict (d1 ++ ("content",
        JList (B1 ++ JDict (e1 ++ ("content", JStr P) :: e2)%list :: B2)%list) :: d2)%list)
     (JDict (d1 ++ ("content",
        JList (B1 ++ JDict (e1 ++ ("content", r) :: e2)%list :: B2)%list) :: d2)%list)) as H4.
  match goal with
  | |- Z.of_nat ?x / 4 < Z.of_nat ?y / 4 =>
      assert (H : (x + 4 <= y)%nat) by (clear - H0 H1 H2 H3 H4; lia);
      revert H; generalize x; generalize y
  end.
  clear. intros y x H. Z.to_euclidean_division_equations. lia.
Qed.

(** ** Memory: what the fallback writes *)

Lemma frame_refl n w : (n <= List.length (Heap.objects w))%nat -> frame n w w.
Proof. intros H. split; auto. Qed.

Lemma frame_trans n w1 w2 w3 : frame n w1 w2 -> frame n w2 w3 -> frame n w1 w3.
Proof.
  intros (L1 & H1) (L2 & H2). split; [assumption|].
  intros l Hl. rewrite H2, H1 by assumption. reflexivity.
Qed.

Lemma safe_ret {A} n (a : A) (Q : A -> Prop) : Q a -> safe n (ret a) Q.
Proof. intros H w Hn. cbn. split; [now apply frame_refl | assumption]. Qed.

Lemma safe_raise {A} n e (Q : A -> Prop) : safe n (raise e) Q.
Proof. intros w Hn. cbn. split; [now apply frame_refl | exact I]. Qed.

Lemma safe_bind {A B} n (m : Heap.HM A) (f : A -> Heap.HM B) (P : A -> Prop) (Q : B -> Prop) :
  safe n m P -> (forall a, P a -> safe n (f a) Q) -> safe n (bind m f) Q.
Proof.
  intros Hm Hf w Hn. destruct (Hm w Hn) as (F1 & R1). unfold bind.
  destruct (m w) as [[a|e] w1]; cbn [fst snd] in *.
  - destruct (Hf a R1 w1 (proj1 F1)) as (F2 & R2).
    split; [eapply frame_trans; eauto | assumption].
  - split; [assumption | exact I].
Qed.

Lemma safe_weaken {A} n (m : Heap.HM A) (P Q : A -> Prop) :
  safe n m P -> (forall a, P a -> Q a) -> safe n m Q.
Proof.
  intros Hm H w Hn. destruct (Hm w Hn) as (F & R). split; [assumption|].
  destruct (fst (m w)); auto.
Qed.

Lemma safe_alloc n o : safe n (Heap.alloc o) (fun l => (n <= l)%nat).
Proof.
  intros w Hn. unfold Heap.alloc, Heap.with_objects, frame.
  cbn [fst snd Heap.objects]. split; [|assumption]. split.
  - rewrite length_app. lia.
  - intros l Hl. apply nth_error_app1. lia.
Qed.

Lemma safe_load n l : safe n (Heap.load l) (fun _ => True).
Proof.
  intros w Hn. unfold Heap.load.
  destruct (nth_error (Heap.objects w) l); cbn; split; auto using frame_refl.
Qed.

Lemma length_write_nth l o h : List.length (Heap.write_nth l o h) = List.length h.
Proof.
  revert l. induction h as [|x h IH]; intros [|l]; cbn; auto.
Qed.

Lemma nth_error_write_nth_other l o h k :
  k <> l -> nth_error (Heap.write_nth l o h) k = nth_error h k.
Proof.
  revert l k. induction h as [|x h IH]; intros [|l] [|k] N; cbn; auto; try contradiction.
Qed.

Lemma nth_error_write_nth_same l o h :
  (l < List.length h)%nat -> nth_error (Heap.write_nth l o h) l = Some o.
Proof.
  revert l. induction h as [|x h IH]; intros [|l] H; cbn in *; try lia; auto.
  apply IH. lia.
Qed.

Lemma safe_update n l o : (n <= l)%nat -> safe n (Heap.update l o) (fun _ => True).
Proof.
  intros Hl w Hn. unfold Heap.update, Heap.with_objects, frame.
  cbn [fst snd Heap.objects]. split; [|exact I]. split.
  - now rewrite length_write_nth.
  - intros k Hk. apply nth_error_write_nth_other. lia.
Qed.

Lemma safe_time_time n : safe n Heap.time_time (fun _ => True).
Proof. intros w Hn. cbn. split; [|exact I]. split; auto. Qed.

Lemma safe_put_entry n k e : safe n (Heap.put_entry k e) (fun _ => True).
Proof. intros w Hn. cbn. split; [|exact I]. split; auto. Qed.

Lemma safe_update_metrics n f : safe n (Heap.update_metrics f) (fun _ => True).
Proof. intros w Hn. cbn. split; [|exact I]. split; auto. Qed.

Lemma safe_dict_items n v : safe n (Heap.dict_items v) (fun _ => True).
Proof.
  destruct v; try apply safe_raise. cbn [Heap.dict_items].
  eapply safe_bind; [apply safe_load|]. intros [items|items] _.
  - now apply safe_ret.
  - apply safe_raise.
Qed.

Lemma safe_dict_copy n v : safe n (Heap.dict_copy v) (fun l => (n <= l)%nat).
Proof.
  unfold Heap.dict_copy. eapply safe_bind; [apply safe_dict_items|].
  intros items _. apply safe_alloc.
Qed.

Lemma safe_dict_setitem n l k v :
  (n <= l)%nat -> safe n (Heap.dict_setitem l k v) (fun _ => True).
Proof.
  intros Hl. unfold Heap.dict_setitem. eapply safe_bind; [apply safe_load|].
  intros [items|items] _; [now apply safe_update | apply safe_raise].
Qed.

Lemma safe_list_append n l v :
  (n <= l)%nat -> safe n (Heap.list_append l v) (fun _ => True).
Proof.
  intros Hl. unfold Heap.list_append. eapply safe_bind; [apply safe_load|].
  intros [items|items] _; [apply safe_raise | now apply safe_update].
Qed.

Lemma safe_iterM {A} n (body : A -> Heap.HM unit) xs :
  (forall x, safe n (body x) (fun _ => True)) ->
  safe n (Heap.iterM body xs) (fun _ => True).
Proof.
  intros H. induction xs as [|x xs IH]; cbn [Heap.iterM].
  - now apply safe_ret.
  - eapply safe_bind; [apply H|]. intros _ _. exact IH.
Qed.

Lemma safe_compress_block n new_content block :
  (n <= new_content)%nat ->
  safe n (Heap.compress_block new_content block) (fun _ => True).
Proof.
  intros Hn. unfold Heap.compress_block.
  eapply safe_bind; [apply safe_dict_items|]. intros items _.
  eapply safe_bind with (P := fun _ => True); [|intros b _; now apply safe_list_append].
  destruct (Heap.is_vstr (Heap.dget "type" items) "tool_result"); [|now apply safe_ret].
  destruct (Heap.dget_default "content" (Heap.VStr "") items); try now apply safe_ret.
  destruct (2000 <? PyStr.len s); [|now apply safe_ret].
  cbv zeta.
  eapply safe_bind; [apply safe_time_time|]. intros now _.
  eapply safe_bind; [apply safe_put_entry|]. intros _ _.
  eapply safe_bind; [apply safe_update_metrics|]. intros _ _.
  eapply safe_bind; [apply safe_dict_copy|]. intros copy Hcopy.
  eapply safe_bind; [now apply safe_dict_setitem|]. intros _ _.
  now apply safe_ret.
Qed.

Lemma safe_compress_message n compressed_messages msg :
  (n <= compressed_messages)%nat ->
  safe n (Heap.compress_message compressed_messages msg) (fun _ => True).
Proof.
  intros Hn. unfold Heap.compress_message.
  eapply safe_bind; [apply safe_dict_copy|]. intros compressed_msg Hc.
  eapply safe_bind; [apply safe_dict_items|]. intros items _.
  eapply safe_bind with (P := fun _ => True); [|intros _ _; now apply safe_list_append].
  destruct (Heap.is_vstr (Heap.dget "role" items) "user"); [|now apply safe_ret].
  destruct (Heap.dget "content" items) as [[| | | | |c]|]; try now apply safe_ret.
  eapply safe_bind; [apply safe_load|]. intros [d|blocks] _; [now apply safe_ret|].
  eapply safe_bind; [apply safe_alloc|]. intros new_content Hnew.
  eapply safe_bind; [apply safe_iterM; intros x; now apply safe_compress_block|].
  intros _ _. now apply safe_dict_setitem.
Qed.

Lemma safe_basic_compress n messages :
  safe n (Heap.basic_compress messages) (fun _ => True).
Proof.
  unfold Heap.basic_compress.
  eapply safe_bind; [apply safe_alloc|]. intros compressed_messages Hc.
  eapply safe_bind with (P := fun _ => True).
  { destruct messages; try apply safe_raise. apply safe_load. }
  intros [d|msgs] _; [apply safe_raise|].
  eapply safe_bind; [apply safe_iterM; intros x; now apply safe_compress_message|].
  intros _ _. now apply safe_ret.
Qed.

(** [basic_compress] writes no object of its caller: whatever the
    conversation and whether it returns or raises, every object that
    existed before the call is the same object after it. *)
Lemma basic_compress_preserves_objects messages (w : Heap.hworld) :
  Heap.preserved (Heap.objects w) (Heap.objects (snd (Heap.basic_compress messages w))).
Proof.
  destruct (safe_basic_compress (List.length (Heap.objects w)) messages w (le_n _)) as ((_ & F) & _).
  intros l o H. rewrite F; [assumption|]. apply nth_error_Some. congruence.
Qed.

(** ** Reading a conversation from memory *)

Lemma json_nested_ind (Q : json -> Prop) :
  Q JNull -> (forall b, Q (JBool b)) -> (forall n, Q (JInt n)) ->
  (forall r, Q (JFloat r)) -> (forall s, Q (JStr s)) ->
  (forall l, Forall Q l -> Q (JList l)) ->
  (forall d, Forall (fun kv => Q (snd kv)) d -> Q (JDict d)) ->
  forall j, Q j.
Proof.
  intros HN HB HI HF HS HL HD. fix F 1. intros [|b|n|r|s|l|d].
  - exact HN.
  - apply HB.
  - apply HI.
  - apply HF.
  - apply HS.
  - apply HL. induction l as [|x l IH]; constructor; [apply F | exact IH].
  - apply HD. induction d as [|[k x] d IH]; constructor; [apply F | exact IH].
Qed.

(** The list and dict cases of [denotes_in], item by item. *)
Lemma denotes_in_list X h js v :
  Heap.denotes_in X h (JList js) v <->
  exists l vs, v = Heap.VRef l /\ X l /\ nth_error h l = Some (Heap.OList vs) /\
               Forall2 (Heap.denotes_in X h) js vs.
Proof.
  cbn [Heap.denotes_in].
  assert (A : forall js vs,
    (fix all (js : list json) (vs : list Heap.pyval) {struct js} : Prop :=
       match js, vs with
       | [], [] => True
       | j' :: js', v' :: vs' => Heap.denotes_in X h j' v' /\ all js' vs'
       | _, _ => False
       end) js vs <-> Forall2 (Heap.denotes_in X h) js vs).
  { clear. induction js as [|j js IH]; intros [|v vs]; split; intros H.
    - constructor.
    - exact I.
    - contradiction.
    - inversion H.
    - contradiction.
    - inversion H.
    - destruct H as (H1 & H2). constructor; [assumption | now apply IH].
    - inversion H; subst. split; [assumption | now apply IH]. }
  split; intros (l & vs & E & Hx & Hl & Hall); exists l, vs; repeat split; auto; now apply A.
Qed.

Lemma denotes_in_dict X h d v :
  Heap.denotes_in X h (JDict d) v <->
  exists l items, v = Heap.VRef l /\ X l /\ nth_error h l = Some (Heap.ODict items) /\
    Forall2 (fun kj kv => fst kj = fst kv /\ Heap.denotes_in X h (snd kj) (snd kv)) d items.
Proof.
  cbn [Heap.denotes_in].
  assert (A : forall d items,
    (fix all (d : list (string * json)) (items : list (string * Heap.pyval)) {struct d} : Prop :=
       match d, items with
       | [], [] => True
       | (k, j') :: d', (k', v') :: items' => k = k' /\ Heap.denotes_in X h j' v' /\ all d' items'
       | _, _ => False
       end) d items <->
    Forall2 (fun kj kv => fst kj = fst kv /\ Heap.denotes_in X h (snd kj) (snd kv)) d items).
  { clear. induction d as [|[k j] d IH]; intros [|[k' v] items]; split; intros H.
    - constructor.
    - exact I.
    - contradiction.
    - inversion H.
    - contradiction.
    - inversion H.
    - destruct H as (H1 & H2 & H3). constructor; [split; assumption | now apply IH].
    - inversion H as [|? ? ? ? (H1 & H2) H3]; subst. cbn in H1, H2.
      split; [assumption|]. split; [assumption | now apply IH]. }
  split; intros (l & items & E & Hx & Hl & Hall); exists l, items; repeat split; auto;
    now apply A.
Qed.

(** A value that stands for a tree through [X] keeps standing for it in
    every heap that still has the objects of [X], and through every larger
    set of locations. *)
Lemma denotes_in_stable X Y h h' :
  (forall l, X l -> Y l) ->
  (forall l o, X l -> nth_error h l = Some o -> nth_error h' l = Some o) ->
  forall j v, Heap.denotes_in X h j v -> Heap.denotes_in Y h' j v.
Proof.
  intros HXY P j. induction j as [|b|n|r|s|l IH|d IH] using json_nested_ind;
    intros v H; try exact H.
  - apply denotes_in_list in H. apply denotes_in_list.
    destruct H as (loc & vs & -> & Hx & Hl & Hall). exists loc, vs.
    repeat split; auto. clear Hl.
    induction Hall as [|j v js vs Hjv Hrest IHall]; constructor.
    + inversion IH; subst. auto.
    + inversion IH; subst. auto.
  - apply denotes_in_dict in H. apply denotes_in_dict.
    destruct H as (loc & items & -> & Hx & Hl & Hall). exists loc, items.
    repeat split; auto. clear Hl.
    induction Hall as [|kj kv d items (Hk & Hjv) Hrest IHall]; constructor.
    + inversion IH; subst. auto.
    + inversion IH; subst. auto.
Qed.

(** A value reads only objects the heap has. *)
Lemma denotes_in_bounded X h :
  forall j v, Heap.denotes_in X h j v ->
              Heap.denotes_in (fun l => X l /\ (l < List.length h)%nat) h j v.
Proof.
  intros j. induction j as [|b|n|r|s|l IH|d IH] using json_nested_ind;
    intros v H; try exact H.
  - apply denotes_in_list in H. apply denotes_in_list.
    destruct H as (loc & vs & -> & Hx & Hl & Hall). exists loc, vs.
    repeat split; auto. { apply nth_error_Some. congruence. } clear Hl.
    induction Hall as [|j v js vs Hjv Hrest IHall]; constructor.
    + inversion IH; subst. auto.
    + inversion IH; subst. auto.
  - apply denotes_in_dict in H. apply denotes_in_dict.
    destruct H as (loc & items & -> & Hx & Hl & Hall). exists loc, items.
    repeat split; auto. { apply nth_error_Some. congruence. } clear Hl.
    induction Hall as [|kj kv d items (Hk & Hjv) Hrest IHall]; constructor.
    + inversion IH; subst. auto.
    + inversion IH; subst. auto.
Qed.

Lemma denotes_preserved h h' :
  Heap.preserved h h' -> forall j v, Heap.denotes h j v -> Heap.denotes h' j v.
Proof.
  intros P j v. apply denotes_in_stable; [auto|]. intros l o _. apply P.
Qed.

(** The list [basic_compress] returns is a new object. *)
Lemma basic_compress_returns_new_list messages (w : Heap.hworld) out w' :
  Heap.basic_compress messages w = (Ok out, w') ->
  exists l, out = Heap.VRef l /\ (List.length (Heap.objects w) <= l)%nat.
Proof.
  intros E.
  assert (S : safe (List.length (Heap.objects w)) (Heap.basic_compress messages)
                (fun v => exists l, v = Heap.VRef l /\ (List.length (Heap.objects w) <= l)%nat)).
  { unfold Heap.basic_compress.
    eapply safe_bind; [apply safe_alloc|]. intros compressed_messages Hc.
    eapply safe_bind with (P := fun _ => True).
    { destruct messages; try apply safe_raise. apply safe_load. }
    intros [d|msgs] _; [apply safe_raise|].
    eapply safe_bind; [apply safe_iterM; intros x; now apply safe_compress_message|].
    intros _ _. apply safe_ret. eauto. }
  destruct (S w (le_n _)) as (_ & R). now rewrite E in R.
Qed.

(** ** The run on memory follows the run on trees *)

Lemma grows_refl S h : grows S h h.
Proof. split; auto. Qed.

Lemma grows_trans S h1 h2 h3 : grows S h1 h2 -> grows S h2 h3 -> grows S h1 h3.
Proof.
  intros (L1 & H1) (L2 & H2). split; [lia|].
  intros l Hl Hs. rewrite H2, H1; auto. lia.
Qed.

Lemma grows_weaken S S' h h' : incl S S' -> grows S h h' -> grows S' h h'.
Proof. intros I (L & H). split; [assumption|]. intros l Hl Hs. apply H; auto. Qed.

Lemma grows_app S h extra : grows S h (h ++ extra)%list.
Proof.
  split; [rewrite length_app; lia|]. intros l Hl _. now apply nth_error_app1.
Qed.

Lemma grows_write l o h : grows [l] h (Heap.write_nth l o h).
Proof.
  split; [now rewrite length_write_nth|]. intros k Hk N.
  apply nth_error_write_nth_other. intros ->. apply N. now left.
Qed.

(** Objects allocated after [h] are not objects of [h]. *)
Lemma grows_fresh S S' h1 h2 h :
  (List.length h <= List.length h1)%nat ->
  (forall s, In s S -> In s S' \/ (List.length h <= s)%nat) ->
  grows S' h h1 -> grows S h1 h2 -> grows S' h h2.
Proof.
  intros L HS (L1 & H1) (L2 & H2). split; [lia|].
  intros l Hl N. rewrite H2, H1; auto; [lia|].
  intros I. destruct (HS l I); [contradiction | lia].
Qed.

Lemma preserved_grows S h0 h h' :
  Heap.preserved h0 h -> grows S h h' ->
  (forall s, In s S -> (List.length h0 <= s)%nat) ->
  Heap.preserved h0 h'.
Proof.
  intros P (L & G) HS l o Hl.
  assert (l < List.length h0)%nat by (apply nth_error_Some; congruence).
  rewrite G; auto.
  - assert (nth_error h l <> None) by (rewrite (P l o Hl); discriminate).
    now apply nth_error_Some.
  - intros I. apply HS in I. lia.
Qed.

(** An input value, read in the first heap, reads the same at any later
    moment through the locations of the first heap. *)
Lemma input_denotes h0 h n S j v :
  Heap.preserved h0 h ->
  (List.length h0 <= n)%nat ->
  (forall s, In s S -> (List.length h0 <= s)%nat) ->
  Heap.denotes h0 j v -> Heap.denotes_in (below n S) h j v.
Proof.
  intros P Hn HS H. apply denotes_in_bounded in H.
  revert H. apply denotes_in_stable.
  - intros l (_ & Hl). split; [lia|]. intros I. apply HS in I. lia.
  - intros l o _. apply P.
Qed.

Lemma get_rel D d items k :
  items_rel D d items ->
  match Json.get k d, Heap.dget k items with
  | Some j, Some v => D j v
  | None, None => True
  | _, _ => False
  end.
Proof.
  induction 1 as [|[k1 j] [k2 v] d items (Hk & Hd) Hrest IH]; cbn; [exact I|].
  cbn in Hk, Hd. subst k2. destruct (String.eqb k k1); [exact Hd | exact IH].
Qed.

Lemma set_rel (D : json -> Heap.pyval -> Prop) d items k j v :
  items_rel D d items -> D j v -> items_rel D (Json.set k j d) (Heap.dset k v items).
Proof.
  intros H Hjv. induction H as [|[k1 j1] [k2 v1] d items (Hk & Hd) Hrest IH]; cbn.
  - constructor; [split; auto | constructor].
  - cbn in Hk, Hd. subst k2. destruct (String.eqb k k1).
    + constructor; [split; auto | assumption].
    + constructor; [split; auto | assumption].
Qed.

Lemma items_rel_impl (D D' : json -> Heap.pyval -> Prop) d items :
  (forall j v, D j v -> D' j v) -> items_rel D d items -> items_rel D' d items.
Proof.
  intros H. induction 1 as [|kj kv d items (Hk & Hd) Hrest IH]; constructor; auto.
Qed.

(** A value that stands for a string is that string, and only such a value. *)
Lemma denotes_str X h j v s :
  Heap.denotes_in X h j v -> (j = JStr s <-> v = Heap.VStr s).
Proof.
  destruct j; cbn [Heap.denotes_in]; intros H; subst;
    try (split; intros; congruence);
    destruct H as (loc & x & -> & _); split; discriminate.
Qed.

Lemma is_str_rel X h d items k s :
  items_rel (Heap.denotes_in X h) d items ->
  Heap.is_vstr (Heap.dget k items) s = is_str (Json.get k d) s.
Proof.
  intros H. pose proof (get_rel _ d items k H) as G.
  destruct (Json.get k d) as [j|], (Heap.dget k items) as [v|]; try contradiction; auto.
  cbn. destruct j; cbn [Heap.denotes_in] in G; subst; auto;
    destruct G as (loc & x & -> & _); reflexivity.
Qed.

Lemma dict_items_at l items mem :
  nth_error (Heap.objects mem) l = Some (Heap.ODict items) ->
  Heap.dict_items (Heap.VRef l) mem = (Ok items, mem).
Proof. intros H. cbn [Heap.dict_items]. unfold bind, Heap.load. now rewrite H. Qed.

Lemma list_append_at l acc v mem :
  nth_error (Heap.objects mem) l = Some (Heap.OList acc) ->
  Heap.list_append l v mem
  = (Ok tt, Heap.with_objects
              (Heap.write_nth l (Heap.OList (acc ++ [v])%list) (Heap.objects mem)) mem).
Proof. intros H. unfold Heap.list_append, bind, Heap.load. now rewrite H. Qed.

Lemma dict_setitem_at l items k v mem :
  nth_error (Heap.objects mem) l = Some (Heap.ODict items) ->
  Heap.dict_setitem l k v mem
  = (Ok tt, Heap.with_objects
              (Heap.write_nth l (Heap.ODict (Heap.dset k v items)) (Heap.objects mem)) mem).
Proof. intros H. unfold Heap.dict_setitem, bind, Heap.load. now rewrite H. Qed.

Lemma dict_copy_at l items mem :
  nth_error (Heap.objects mem) l = Some (Heap.ODict items) ->
  Heap.dict_copy (Heap.VRef l) mem
  = (Ok (List.length (Heap.objects mem)),
     Heap.with_objects (Heap.objects mem ++ [Heap.ODict items])%list mem).
Proof.
  intros H. unfold Heap.dict_copy. unfold bind at 1. now rewrite (dict_items_at l items mem H).
Qed.

(** A value that stands for a dict refers to a dict object with related
    items; one that stands for anything else has no [.get]. *)
Lemma dict_items_not_dict h j v mem :
  Heap.denotes h j v -> Heap.objects mem = h -> (forall b, j <> JDict b) ->
  Heap.dict_items v mem = (Raise AttributeError, mem).
Proof.
  intros H <- N. destruct j; cbn [Heap.denotes_in Heap.denotes] in H; unfold Heap.denotes in H;
    cbn [Heap.denotes_in] in H; subst; try reflexivity.
  - destruct H as (loc & vs & -> & _ & Hl & _). cbn [Heap.dict_items].
    unfold bind, Heap.load. now rewrite Hl.
  - now destruct (N d).
Qed.

Lemma get_default_rel D d items k j0 v0 :
  items_rel D d items -> D j0 v0 ->
  D (Json.get_default k j0 d) (Heap.dget_default k v0 items).
Proof.
  intros H H0. pose proof (get_rel D d items k H) as G.
  unfold Json.get_default, Heap.dget_default.
  destruct (Json.get k d), (Heap.dget k items); try contradiction; auto.
Qed.

Lemma store_set_rel h0 (hst : list (string * Heap.hentry)) (st : store) k he e :
  Forall2 (fun he e => fst he = fst e /\
                       Heap.h_timestamp (snd he) = timestamp (snd e) /\
                       Heap.denotes h0 (content (snd e)) (Heap.h_content (snd he)) /\
                       Heap.denotes h0 (tool_name (snd e)) (Heap.h_tool_name (snd he))) hst st ->
  Heap.h_timestamp he = timestamp e ->
  Heap.denotes h0 (content e) (Heap.h_content he) ->
  Heap.denotes h0 (tool_name e) (Heap.h_tool_name he) ->
  Forall2 (fun he e => fst he = fst e /\
                       Heap.h_timestamp (snd he) = timestamp (snd e) /\
                       Heap.denotes h0 (content (snd e)) (Heap.h_content (snd he)) /\
                       Heap.denotes h0 (tool_name (snd e)) (Heap.h_tool_name (snd he)))
          (Heap.store_set k he hst) (Store.set k e st).
Proof.
  intros H Ht Hc Hn. induction H as [|[k1 he1] [k2 e1] hst st (Hk & Hrest) Htl IH]; cbn.
  - constructor; [cbn; auto | constructor].
  - cbn in Hk. subst k2. destruct (String.eqb k k1).
    + constructor; [cbn; auto | assumption].
    + constructor; [cbn; auto | assumption].
Qed.

(** Appending a value that reads as [j] to the list being built. *)
Lemma append_step h0 S nc mem acc j v :
  Heap.preserved h0 (Heap.objects mem) ->
  In nc S ->
  (forall s, In s S -> (List.length h0 <= s < List.length (Heap.objects mem))%nat) ->
  nth_error (Heap.objects mem) nc = Some (Heap.OList acc) ->
  Heap.denotes h0 j v ->
  exists mem',
    Heap.list_append nc v mem = (Ok tt, mem') /\
    mem' = Heap.with_objects
             (Heap.write_nth nc (Heap.OList (acc ++ [v])%list) (Heap.objects mem)) mem /\
    grows [nc] (Heap.objects mem) (Heap.objects mem') /\
    nth_error (Heap.objects mem') nc = Some (Heap.OList (acc ++ [v])%list) /\
    Heap.denotes_in (below (List.length (Heap.objects mem')) S) (Heap.objects mem') j v.
Proof.
  intros P HncS HS Hnc D. eexists. split; [exact (list_append_at nc acc v mem Hnc)|].
  split; [reflexivity|]. cbn [Heap.with_objects Heap.objects].
  assert (G : grows [nc] (Heap.objects mem)
                (Heap.write_nth nc (Heap.OList (acc ++ [v])%list) (Heap.objects mem)))
    by apply grows_write.
  split; [exact G|]. split.
  - apply nth_error_write_nth_same. apply (HS nc HncS).
  - apply input_denotes with (h0 := h0); auto.
    + eapply preserved_grows; eauto. intros s [<- | []]. apply (HS nc HncS).
    + rewrite length_write_nth. pose proof (HS nc HncS). lia.
    + intros s Hs. apply (HS s Hs).
Qed.

(** One block: the run on memory appends to the list being built a value
    that reads as the block the run on trees returns, with the same effect
    on the process state, or raises as it does. *)
Lemma block_sim h0 Sp nc j v mem w acc :
  related h0 mem w ->
  Heap.preserved h0 (Heap.objects mem) ->
  In nc Sp ->
  (forall s, In s Sp -> (List.length h0 <= s < List.length (Heap.objects mem))%nat) ->
  nth_error (Heap.objects mem) nc = Some (Heap.OList acc) ->
  Heap.denotes h0 j v ->
  match compress_block j w with
  | (Ok j', w') =>
      exists v' mem',
        Heap.compress_block nc v mem = (Ok tt, mem') /\
        related h0 mem' w' /\
        grows [nc] (Heap.objects mem) (Heap.objects mem') /\
        nth_error (Heap.objects mem') nc = Some (Heap.OList (acc ++ [v'])%list) /\
        Heap.denotes_in (below (List.length (Heap.objects mem')) Sp) (Heap.objects mem') j' v'
  | (Raise e, w') =>
      w' = w /\ Heap.compress_block nc v mem = (Raise e, mem)
  end.
Proof.
  intros R P HncS HS Hnc D.
  assert (Dh : Heap.denotes (Heap.objects mem) j v) by (eapply denotes_preserved; eauto).
  (* a block that is passed on as it is *)
  assert (Keep :
            exists v' mem',
              (block' <- ret v ;; Heap.list_append nc block') mem = (Ok tt, mem') /\
              related h0 mem' w /\
              grows [nc] (Heap.objects mem) (Heap.objects mem') /\
              nth_error (Heap.objects mem') nc = Some (Heap.OList (acc ++ [v'])%list) /\
              Heap.denotes_in (below (List.length (Heap.objects mem')) Sp)
                              (Heap.objects mem') j v').
  { destruct (append_step h0 Sp nc mem acc j v P HncS HS Hnc D) as (mem' & E & Em & G & N & Dv).
    exists v, mem'. split.
    - unfold bind at 1. cbn [ret]. exact E.
    - split; [|auto]. subst mem'. exact R. }
  destruct j as [| | | | | |b];
    try (unfold compress_block, raise; split; [reflexivity|];
         unfold Heap.compress_block; unfold bind at 1;
         rewrite (dict_items_not_dict _ _ v mem Dh eq_refl) by (intros ?; discriminate);
         reflexivity).
  pose proof D as D0. apply denotes_in_dict in D0.
  destruct D0 as (l & items & -> & _ & Hl0 & Hitems).
  pose proof (P _ _ Hl0) as Hl.
  pose proof (dict_items_at l items mem Hl) as Ei.
  assert (Hrun : Heap.compress_block nc (Heap.VRef l) mem
    = (block' <-
         (if Heap.is_vstr (Heap.dget "type" items) "tool_result" then
            match Heap.dget_default "content" (Heap.VStr "") items with
            | Heap.VStr content =>
                if 2000 <? PyStr.len content then
                  let hash_key := generate_hash (JStr content) in
                  now <- Heap.time_time ;;
                  Heap.put_entry hash_key
                    (Heap.HEntry (Heap.VStr content) now
                       (Heap.dget_default "tool_use_id" (Heap.VStr "unknown") items)) ;;;
                  Heap.update_metrics incr_ccr_stores ;;;
                  copy <- Heap.dict_copy (Heap.VRef l) ;;
                  Heap.dict_setitem copy "content" (Heap.VStr (reference hash_key content)) ;;;
                  ret (Heap.VRef copy)
                else ret (Heap.VRef l)
            | _ => ret (Heap.VRef l)
            end
          else ret (Heap.VRef l)) ;;
       Heap.list_append nc block') mem).
  { unfold Heap.compress_block. unfold bind at 1. rewrite Ei. reflexivity. }
  rewrite Hrun. clear Hrun.
  unfold compress_block.
  rewrite <- (is_str_rel _ _ b items "type" "tool_result" Hitems).
  destruct (Heap.is_vstr (Heap.dget "type" items) "tool_result"); [|exact Keep].
  pose proof (get_default_rel _ b items "content" (JStr "") (Heap.VStr "") Hitems eq_refl) as Dc.
  unfold Heap.denotes in Dc.
  destruct (Json.get_default "content" (JStr "") b) as [|x|x|x|s|x|x] eqn:Ec;
    cbn [Heap.denotes_in] in Dc;
    try (rewrite Dc; exact Keep);
    try (destruct Dc as (loc & vs & Dc & _); rewrite Dc; exact Keep).
  rewrite Dc.
  destruct (2000 <? PyStr.len s); [|exact Keep].
  (* the offloaded block *)
  destruct R as (Rm & Rc & Rt & Rs).
  set (c := List.length (Heap.objects mem)).
  set (hash_key := generate_hash (JStr s)).
  set (items' := Heap.dset "content" (Heap.VStr (reference hash_key s)) items).
  set (h1 := (Heap.objects mem ++ [Heap.ODict items])%list).
  set (h2 := Heap.write_nth c (Heap.ODict items') h1).
  set (h3 := Heap.write_nth nc (Heap.OList (acc ++ [Heap.VRef c])%list) h2).
  pose proof (HS nc HncS) as Bnc.
  assert (Hc1 : nth_error h1 c = Some (Heap.ODict items)).
  { unfold h1, c. rewrite nth_error_app2, Nat.sub_diag by lia. reflexivity. }
  assert (Hnc2 : nth_error h2 nc = Some (Heap.OList acc)).
  { unfold h2. rewrite nth_error_write_nth_other by (unfold c; lia).
    unfold h1. rewrite nth_error_app1 by lia. exact Hnc. }
  assert (L3 : List.length h3 = S c).
  { unfold h3, h2, h1. rewrite !length_write_nth, length_app. cbn. unfold c. lia. }
  assert (G : grows [nc] (Heap.objects mem) h3).
  { split; [fold c; lia|]. intros k Hk Nk.
    unfold h3, h2, h1. rewrite !nth_error_write_nth_other.
    - now apply nth_error_app1.
    - unfold c. lia.
    - intros ->. apply Nk. now left. }
  assert (P3 : Heap.preserved h0 h3).
  { eapply preserved_grows; eauto. intros x [<- | []]. lia. }
  exists (Heap.VRef c),
    (Heap.HWorld h3
       (Heap.store_set hash_key
          (Heap.HEntry (Heap.VStr s) (Heap.h_clock mem (Heap.h_ticks mem))
             (Heap.dget_default "tool_use_id" (Heap.VStr "unknown") items))
          (Heap.h_store mem))
       (incr_ccr_stores (Heap.h_metrics mem)) (Heap.h_clock mem) (S (Heap.h_ticks mem))).
  split; [|split; [|split; [|split]]].
  - unfold bind at 1. cbv zeta.
    unfold bind at 1. cbn [Heap.time_time]. unfold bind at 1. cbn [Heap.put_entry].
    unfold bind at 1. cbn [Heap.update_metrics Heap.objects Heap.h_store Heap.h_metrics
                             Heap.h_clock Heap.h_ticks].
    unfold bind at 1.
    rewrite (dict_copy_at l items) by exact Hl.
    cbn [Heap.with_objects Heap.objects Heap.h_store Heap.h_metrics Heap.h_clock Heap.h_ticks].
    fold c h1. unfold bind at 1.
    rewrite (dict_setitem_at c items) by exact Hc1.
    cbn [Heap.with_objects Heap.objects Heap.h_store Heap.h_metrics Heap.h_clock Heap.h_ticks].
    fold hash_key items' h2. cbn [ret].
    rewrite (list_append_at nc acc) by exact Hnc2.
    reflexivity.
  - unfold bind, time_time, get_store, put_store, update_metrics, ret.
    cbn [ccr_store metrics clock ticks]. unfold related.
    cbn [Heap.h_metrics Heap.h_clock Heap.h_ticks Heap.h_store ccr_store metrics clock ticks].
    rewrite Rm, Rc, Rt. repeat split.
    apply store_set_rel; auto.
    + cbn. reflexivity.
    + cbn. apply (get_default_rel (Heap.denotes h0) b items "tool_use_id"); auto. reflexivity.
  - exact G.
  - cbn [Heap.objects]. unfold h3. apply nth_error_write_nth_same.
    unfold h2, h1. rewrite length_write_nth, length_app. lia.
  - cbn [Heap.objects].
    unfold bind, time_time, get_store, put_store, update_metrics, ret. cbn [fst].
    apply denotes_in_dict. exists c, items'. split; [reflexivity|]. split; [|split].
    + split; [lia|]. intros I. apply HS in I. fold c in I. lia.
    + unfold h3. rewrite nth_error_write_nth_other by (unfold c; lia).
      unfold h2. apply nth_error_write_nth_same. unfold h1. rewrite length_app. cbn.
      unfold c. lia.
    + apply set_rel; [|reflexivity].
      eapply items_rel_impl; [|exact Hitems]. intros j v Hjv.
      apply input_denotes with (h0 := h0); auto.
      * rewrite L3. unfold c. lia.
      * intros x Hx. apply (HS x Hx).
Qed.

(** Values built so far keep reading the same while the objects they do
    not reach are written and new objects are made. *)
Lemma built_stable Sp T h h' j v :
  incl T Sp -> grows T h h' ->
  Heap.denotes_in (below (List.length h) Sp) h j v ->
  Heap.denotes_in (below (List.length h') Sp) h' j v.
Proof.
  intros I (L & G). apply denotes_in_stable.
  - intros l (Hl & N). split; [lia | assumption].
  - intros l o (Hl & N) E. rewrite G; auto.
Qed.

Lemma built_stable_list Sp T h h' js vs :
  incl T Sp -> grows T h h' ->
  Forall2 (Heap.denotes_in (below (List.length h) Sp) h) js vs ->
  Forall2 (Heap.denotes_in (below (List.length h') Sp) h') js vs.
Proof.
  intros I G H. induction H; constructor; auto. eapply built_stable; eauto.
Qed.

(** The inner loop. *)
Lemma blocks_sim h0 Sp nc js vs :
  Forall2 (Heap.denotes h0) js vs ->
  forall mem w acc accj,
  related h0 mem w ->
  Heap.preserved h0 (Heap.objects mem) ->
  In nc Sp ->
  (forall s, In s Sp -> (List.length h0 <= s < List.length (Heap.objects mem))%nat) ->
  nth_error (Heap.objects mem) nc = Some (Heap.OList acc) ->
  Forall2 (Heap.denotes_in (below (List.length (Heap.objects mem)) Sp) (Heap.objects mem))
          accj acc ->
  match mapM compress_block js w with
  | (Ok outs, w') =>
      exists acc' mem',
        Heap.iterM (Heap.compress_block nc) vs mem = (Ok tt, mem') /\
        related h0 mem' w' /\
        grows [nc] (Heap.objects mem) (Heap.objects mem') /\
        nth_error (Heap.objects mem') nc = Some (Heap.OList (acc ++ acc')%list) /\
        Forall2 (Heap.denotes_in (below (List.length (Heap.objects mem')) Sp) (Heap.objects mem'))
                (accj ++ outs)%list (acc ++ acc')%list
  | (Raise e, w') =>
      exists mem',
        Heap.iterM (Heap.compress_block nc) vs mem = (Raise e, mem') /\
        related h0 mem' w' /\
        grows [nc] (Heap.objects mem) (Heap.objects mem')
  end.
Proof.
  induction 1 as [|j v js vs Djv Hrest IH]; intros mem w acc accj R P HncS HS Hnc Hacc.
  - cbn [mapM Heap.iterM]. unfold ret. exists [], mem. rewrite !List.app_nil_r.
    split; [reflexivity|]. split; [assumption|]. split; [apply grows_refl|].
    split; assumption.
  - cbn [mapM Heap.iterM]. unfold bind at 1.
    pose proof (block_sim h0 Sp nc j v mem w acc R P HncS HS Hnc Djv) as B.
    destruct (compress_block j w) as [[j'|e] w1].
    + destruct B as (v' & mem1 & E1 & R1 & G1 & N1 & D1).
      assert (P1 : Heap.preserved h0 (Heap.objects mem1)).
      { eapply preserved_grows; eauto. intros s [<- | []]. apply (HS nc HncS). }
      assert (HS1 : forall s, In s Sp ->
                (List.length h0 <= s < List.length (Heap.objects mem1))%nat).
      { intros s Hs. pose proof (HS s Hs). destruct G1 as (L & _). lia. }
      assert (Hacc1 : Forall2 (Heap.denotes_in (below (List.length (Heap.objects mem1)) Sp)
                                 (Heap.objects mem1)) (accj ++ [j'])%list (acc ++ [v'])%list).
      { apply Forall2_app; [|constructor; [assumption | constructor]].
        eapply built_stable_list; [|exact G1|exact Hacc].
        intros x [<- | []]. assumption. }
      specialize (IH mem1 w1 (acc ++ [v'])%list (accj ++ [j'])%list R1 P1 HncS HS1 N1 Hacc1).
      unfold bind at 1.
      destruct (mapM compress_block js w1) as [[outs|e] w2].
      * destruct IH as (acc' & mem2 & E2 & R2 & G2 & N2 & D2).
        exists (v' :: acc'), mem2. unfold ret.
        split; [unfold bind; rewrite E1; exact E2|].
        split; [assumption|]. split; [eapply grows_trans; eauto|].
        repeat rewrite <- List.app_assoc in N2. repeat rewrite <- List.app_assoc in D2.
        cbn [app] in N2, D2. split; assumption.
      * destruct IH as (mem2 & E2 & R2 & G2).
        exists mem2. split; [unfold bind; rewrite E1; exact E2|].
        split; [assumption | eapply grows_trans; eauto].
    + destruct B as (-> & E1). exists mem.
      split; [unfold bind; rewrite E1; reflexivity|]. split; [assumption | apply grows_refl].
Qed.

(** The last step of the outer loop body: the new message dict at [cm] goes
    to the end of the list being built at [cms]. *)
Lemma finish_message cms cm mem accm m' items' :
  let h := Heap.objects mem in
  (cm < List.length h)%nat -> (cms < List.length h)%nat -> cm <> cms ->
  nth_error h cm = Some (Heap.ODict items') ->
  nth_error h cms = Some (Heap.OList accm) ->
  items_rel (Heap.denotes_in (below (List.length h) [cms]) h) m' items' ->
  exists mem',
    Heap.list_append cms (Heap.VRef cm) mem = (Ok tt, mem') /\
    mem' = Heap.with_objects
             (Heap.write_nth cms (Heap.OList (accm ++ [Heap.VRef cm])%list) h) mem /\
    grows [cms] h (Heap.objects mem') /\
    nth_error (Heap.objects mem') cms = Some (Heap.OList (accm ++ [Heap.VRef cm])%list) /\
    Heap.denotes_in (below (List.length (Heap.objects mem')) [cms]) (Heap.objects mem')
                    (JDict m') (Heap.VRef cm).
Proof.
  intros h Lcm Lcms N Hcm Hcms Hitems.
  eexists. split; [exact (list_append_at cms accm _ mem Hcms)|]. split; [reflexivity|].
  cbn [Heap.with_objects Heap.objects]. fold h.
  pose proof (grows_write cms (Heap.OList (accm ++ [Heap.VRef cm])%list) h) as G.
  split; [exact G|]. split; [now apply nth_error_write_nth_same|].
  apply denotes_in_dict. exists cm, items'. split; [reflexivity|]. split; [|split].
  - split; [rewrite length_write_nth; lia|]. intros [E | []]. congruence.
  - rewrite nth_error_write_nth_other by assumption. exact Hcm.
  - eapply items_rel_impl; [|exact Hitems]. intros j v.
    apply (built_stable [cms] [cms]); [apply incl_refl | exact G].
Qed.

Lemma related_objects h0 mem w h :
  related h0 mem w -> related h0 (Heap.with_objects h mem) w.
Proof. intros R. exact R. Qed.

Lemma seq_run {A B} (X : Heap.HM A) (K : Heap.HM B) mem a mem1 :
  X mem = (Ok a, mem1) -> (X ;;; K) mem = K mem1.
Proof. intros H. unfold bind. now rewrite H. Qed.

Lemma seq_raise {A B} (X : Heap.HM A) (K : Heap.HM B) mem e mem1 :
  X mem = (Raise e, mem1) -> (X ;;; K) mem = (Raise e, mem1).
Proof. intros H. unfold bind. now rewrite H. Qed.

(** One message: the run on memory appends to the list being built a new
    dict that reads as the message the run on trees returns, with the same
    effect on the process state, or raises as it does. *)
Lemma message_sim h0 cms m v mem w accm :
  related h0 mem w ->
  Heap.preserved h0 (Heap.objects mem) ->
  (List.length h0 <= cms < List.length (Heap.objects mem))%nat ->
  nth_error (Heap.objects mem) cms = Some (Heap.OList accm) ->
  Heap.denotes h0 (JDict m) v ->
  match compress_message m w with
  | (Ok m', w') =>
      exists v' mem',
        Heap.compress_message cms v mem = (Ok tt, mem') /\
        related h0 mem' w' /\
        grows [cms] (Heap.objects mem) (Heap.objects mem') /\
        nth_error (Heap.objects mem') cms = Some (Heap.OList (accm ++ [v'])%list) /\
        Heap.denotes_in (below (List.length (Heap.objects mem')) [cms]) (Heap.objects mem')
                        (JDict m') v'
  | (Raise e, w') =>
      exists mem',
        Heap.compress_message cms v mem = (Raise e, mem') /\
        related h0 mem' w' /\
        grows [cms] (Heap.objects mem) (Heap.objects mem')
  end.
Proof.
  intros R P Bcms Hcms D.
  apply denotes_in_dict in D. destruct D as (l & items & -> & _ & Hl0 & Hitems).
  set (h := Heap.objects mem) in *.
  set (cm := List.length h).
  set (h1 := (h ++ [Heap.ODict items])%list).
  set (mem1 := Heap.with_objects h1 mem).
  pose proof (P _ _ Hl0) as Hl. fold h in Hl.
  assert (Ll : (l < List.length h)%nat) by (apply nth_error_Some; congruence).
  assert (L1 : List.length h1 = S cm) by (unfold h1; rewrite length_app; cbn; unfold cm; lia).
  assert (Hl1 : nth_error h1 l = Some (Heap.ODict items))
    by (unfold h1; rewrite nth_error_app1; assumption).
  assert (Hcm1 : nth_error h1 cm = Some (Heap.ODict items))
    by (unfold h1, cm; rewrite nth_error_app2, Nat.sub_diag by lia; reflexivity).
  assert (Hcms1 : nth_error h1 cms = Some (Heap.OList accm))
    by (unfold h1; rewrite nth_error_app1 by lia; assumption).
  assert (G1 : grows [cms] h h1) by apply grows_app.
  assert (P1 : Heap.preserved h0 h1).
  { eapply preserved_grows; eauto. intros s [<- | []]. lia. }
  assert (Input : forall hx, Heap.preserved h0 hx -> (List.length h0 <= List.length hx)%nat ->
            items_rel (Heap.denotes_in (below (List.length hx) [cms]) hx) m items).
  { intros hx Px Lx. eapply items_rel_impl; [|exact Hitems]. intros j v Hjv.
    apply input_denotes with (h0 := h0); auto. intros s [<- | []]. lia. }
  eassert (Hrun : Heap.compress_message cms (Heap.VRef l) mem = _).
  { unfold Heap.compress_message. unfold bind at 1. rewrite (dict_copy_at l items mem Hl).
    fold h cm h1 mem1. unfold bind at 1.
    rewrite (dict_items_at l items mem1) by exact Hl1. reflexivity. }
  (* the message is passed on as a copy *)
  assert (Pass :
    exists v' mem',
      Heap.list_append cms (Heap.VRef cm) mem1 = (Ok tt, mem') /\
      related h0 mem' w /\
      grows [cms] h (Heap.objects mem') /\
      nth_error (Heap.objects mem') cms = Some (Heap.OList (accm ++ [v'])%list) /\
      Heap.denotes_in (below (List.length (Heap.objects mem')) [cms]) (Heap.objects mem')
                      (JDict m) v').
  { destruct (finish_message cms cm mem1 accm m items) as (mem' & E & Em & G & N & Dv);
      cbn [mem1 Heap.with_objects Heap.objects]; try lia; auto.
    { apply Input; [assumption | lia]. }
    exists (Heap.VRef cm), mem'. split; [exact E|]. split; [subst mem'; exact R|].
    split; [|split; assumption].
    eapply grows_trans; [exact G1 | exact G]. }
  rewrite Hrun. clear Hrun. unfold compress_message.
  rewrite <- (is_str_rel _ _ m items "role" "user" Hitems).
  destruct (Heap.is_vstr (Heap.dget "role" items) "user").
  2:{ rewrite (seq_run (ret tt) _ mem1 tt mem1 eq_refl). exact Pass. }
  pose proof (get_rel _ m items "content" Hitems) as Dc. cbv beta in Dc.
  destruct (Json.get "content" m) as [jc|], (Heap.dget "content" items) as [vc|];
    try contradiction.
  2:{ rewrite (seq_run (ret tt) _ mem1 tt mem1 eq_refl). exact Pass. }
  destruct jc as [|x|x|x|x|blocks|d];
    try (cbn [Heap.denotes_in] in Dc; subst vc;
         rewrite (seq_run (ret tt) _ mem1 tt mem1 eq_refl); exact Pass).
  2:{ (* the content is a dict *)
    apply denotes_in_dict in Dc. destruct Dc as (c & itemsc & -> & _ & Hc0 & _).
    pose proof (P1 _ _ Hc0) as Hc1.
    erewrite seq_run; [exact Pass|].
    unfold bind, Heap.load. cbn [mem1 Heap.with_objects Heap.objects]. rewrite Hc1.
    reflexivity. }
  (* the content is a list of blocks *)
  apply denotes_in_list in Dc. destruct Dc as (c & vsb & -> & _ & Hc0 & Hblocks).
  pose proof (P1 _ _ Hc0) as Hc1.
  set (nc := S cm).
  assert (Enc : nc = S cm) by reflexivity.
  assert (Ecm : cm = List.length h) by reflexivity.
  set (h2 := (h1 ++ [Heap.OList []])%list).
  set (mem2 := Heap.with_objects h2 mem).
  assert (L2 : List.length h2 = S nc) by (unfold h2; rewrite length_app, L1; cbn; lia).
  assert (G2 : grows [] h1 h2) by apply grows_app.
  assert (P2 : Heap.preserved h0 h2).
  { eapply preserved_grows; eauto. intros s []. }
  assert (Hnc2 : nth_error h2 nc = Some (Heap.OList [])).
  { unfold h2, nc. rewrite nth_error_app2 by lia. rewrite L1, Nat.sub_diag. reflexivity. }
  assert (HS2 : forall s, In s [nc; cm; cms] ->
             (List.length h0 <= s < List.length (Heap.objects mem2))%nat).
  { cbn [mem2 Heap.with_objects Heap.objects]. rewrite L2. unfold nc.
    intros s [<- | [<- | [<- | []]]]; unfold cm; lia. }
  pose proof (blocks_sim h0 [nc; cm; cms] nc blocks vsb Hblocks mem2 w [] []
                R P2 (or_introl eq_refl) HS2 Hnc2 (Forall2_nil _)) as B.
  eassert (Hrun : forall K : Heap.HM unit,
     ((o <- Heap.load c ;;
       match o with
       | Heap.ODict _ => ret tt
       | Heap.OList blocks0 =>
           new_content <- Heap.alloc (Heap.OList []) ;;
           Heap.iterM (Heap.compress_block new_content) blocks0 ;;;
           Heap.dict_setitem cm "content" (Heap.VRef new_content)
       end) ;;; K) mem1
     = ((Heap.iterM (Heap.compress_block nc) vsb ;;;
         Heap.dict_setitem cm "content" (Heap.VRef nc)) ;;; K) mem2).
  { intros K. unfold bind at 1 2. unfold Heap.load at 1.
    cbn [mem1 Heap.with_objects Heap.objects]. rewrite Hc1.
    unfold bind at 1. unfold Heap.alloc at 1.
    unfold mem2, mem1, Heap.with_objects.
    cbn [Heap.objects Heap.h_store Heap.h_metrics Heap.h_clock Heap.h_ticks].
    rewrite L1. fold nc h2. unfold bind. reflexivity. }
  rewrite Hrun. clear Hrun.
  unfold bind at 1.
  assert (Old : forall hx, grows [nc] h2 hx -> forall k, (k < List.length h)%nat ->
                  nth_error hx k = nth_error h k).
  { intros hx (_ & Gx) k Hk. rewrite Gx.
    - unfold h2, h1. rewrite !nth_error_app1; auto; rewrite ?length_app; lia.
    - rewrite L2. lia.
    - intros [E | []]. unfold nc, cm in E. lia. }
  destruct (mapM compress_block blocks w) as [[outs|e] w1].
  - destruct B as (acc' & mem3 & E3 & R3 & G3 & N3 & D3).
    cbn [app] in N3, D3. cbn [mem2 Heap.with_objects Heap.objects] in G3.
    set (h3 := Heap.objects mem3) in *.
    set (items' := Heap.dset "content" (Heap.VRef nc) items).
    set (h4 := Heap.write_nth cm (Heap.ODict items') h3).
    set (mem4 := Heap.with_objects h4 mem3).
    assert (L3 : (S nc <= List.length h3)%nat) by (destruct G3 as (L & _); lia).
    assert (Hcm3 : nth_error h3 cm = Some (Heap.ODict items)).
    { destruct G3 as (_ & G3). rewrite G3.
      - unfold h2. rewrite nth_error_app1 by lia. exact Hcm1.
      - lia.
      - intros [E | []]. unfold nc in E. lia. }
    assert (Hcms3 : nth_error h3 cms = Some (Heap.OList accm)).
    { rewrite (Old h3 G3) by lia. exact Hcms. }
    assert (P3 : Heap.preserved h0 h3).
    { eapply preserved_grows; eauto. intros s [<- | []]. unfold nc, cm. lia. }
    assert (G4 : grows [cm] h3 h4) by apply grows_write.
    assert (P4 : Heap.preserved h0 h4).
    { eapply preserved_grows; eauto. intros s [<- | []]. unfold cm. lia. }
    assert (L4 : List.length h4 = List.length h3) by apply length_write_nth.
    assert (E4 : ((Heap.iterM (Heap.compress_block nc) vsb ;;;
                   Heap.dict_setitem cm "content" (Heap.VRef nc)) ;;;
                  Heap.list_append cms (Heap.VRef cm)) mem2
                 = Heap.list_append cms (Heap.VRef cm) mem4).
    { apply seq_run with (a := tt). rewrite (seq_run _ _ mem2 tt mem3 E3).
      now apply dict_setitem_at. }
    rewrite E4.
    destruct (finish_message cms cm mem4 accm (Json.set "content" (JList outs) m) items')
      as (mem' & E & Em & G & N & Dv); cbn [mem4 Heap.with_objects Heap.objects];
      try lia.
    + apply nth_error_write_nth_same. lia.
    + unfold h4. rewrite nth_error_write_nth_other by (unfold cm; lia). exact Hcms3.
    + apply set_rel; [apply Input; [assumption | lia]|].
      apply denotes_in_list. exists nc, acc'. split; [reflexivity|]. split; [|split].
      * split; [lia|]. intros [E | []]. unfold nc, cm in E. lia.
      * unfold h4. rewrite nth_error_write_nth_other by (unfold nc; lia). exact N3.
      * clear - D3 L4 G4. induction D3 as [|j v js vs Hjv Hrest IH]; constructor; auto.
        revert Hjv. apply denotes_in_stable.
        -- intros k (Hk & Nk). split; [lia|]. intros [E | []]. apply Nk. subst. cbn. auto.
        -- intros k o (Hk & Nk) Eo. destruct G4 as (_ & G4). rewrite G4; auto.
           intros [E | []]. apply Nk. subst. cbn. auto.
    + exists (Heap.VRef cm), mem'. unfold ret.
      split; [exact E|]. split; [subst mem'; exact R3|]. split; [|split; assumption].
      subst mem'. cbn [Heap.with_objects Heap.objects]. split.
      * rewrite length_write_nth. cbn [mem4 Heap.with_objects Heap.objects]. lia.
      * intros k Hk Nk. rewrite nth_error_write_nth_other by (intros ->; apply Nk; now left).
        cbn [mem4 Heap.with_objects Heap.objects]. unfold h4. rewrite nth_error_write_nth_other by (unfold cm; lia).
        now apply Old.
  - destruct B as (mem3 & E3 & R3 & G3).
    cbn [mem2 Heap.with_objects Heap.objects] in G3.
    exists mem3. split; [|split; [exact R3|]].
    + apply seq_raise. now apply seq_raise.
    + split; [destruct G3 as (L & _); lia|]. intros k Hk _. now apply Old.
Qed.

(** The outer loop. *)
Lemma messages_sim h0 cms ms vs :
  Forall2 (fun m v => Heap.denotes h0 (JDict m) v) ms vs ->
  forall mem w accm accj,
  related h0 mem w ->
  Heap.preserved h0 (Heap.objects mem) ->
  (List.length h0 <= cms < List.length (Heap.objects mem))%nat ->
  nth_error (Heap.objects mem) cms = Some (Heap.OList accm) ->
  Forall2 (Heap.denotes_in (below (List.length (Heap.objects mem)) [cms]) (Heap.objects mem))
          accj accm ->
  match mapM compress_message ms w with
  | (Ok outs, w') =>
      exists acc' mem',
        Heap.iterM (Heap.compress_message cms) vs mem = (Ok tt, mem') /\
        related h0 mem' w' /\
        grows [cms] (Heap.objects mem) (Heap.objects mem') /\
        nth_error (Heap.objects mem') cms = Some (Heap.OList (accm ++ acc')%list) /\
        Forall2 (Heap.denotes_in (below (List.length (Heap.objects mem')) [cms])
                                 (Heap.objects mem'))
                (accj ++ map JDict outs)%list (accm ++ acc')%list
  | (Raise e, w') =>
      exists mem',
        Heap.iterM (Heap.compress_message cms) vs mem = (Raise e, mem') /\
        related h0 mem' w' /\
        grows [cms] (Heap.objects mem) (Heap.objects mem')
  end.
Proof.
  induction 1 as [|m v ms vs Dmv Hrest IH]; intros mem w accm accj R P Bcms Hcms Hacc.
  - cbn [mapM Heap.iterM map]. unfold ret. exists [], mem. rewrite !List.app_nil_r.
    split; [reflexivity|]. split; [assumption|]. split; [apply grows_refl|].
    split; assumption.
  - cbn [mapM Heap.iterM]. unfold bind at 1.
    pose proof (message_sim h0 cms m v mem w accm R P Bcms Hcms Dmv) as B.
    destruct (compress_message m w) as [[m'|e] w1].
    + destruct B as (v' & mem1 & E1 & R1 & G1 & N1 & D1).
      assert (P1 : Heap.preserved h0 (Heap.objects mem1)).
      { eapply preserved_grows; eauto. intros s [<- | []]. lia. }
      assert (B1 : (List.length h0 <= cms < List.length (Heap.objects mem1))%nat).
      { destruct G1 as (L & _). lia. }
      assert (Hacc1 : Forall2 (Heap.denotes_in (below (List.length (Heap.objects mem1)) [cms])
                                 (Heap.objects mem1)) (accj ++ [JDict m'])%list
                              (accm ++ [v'])%list).
      { apply Forall2_app; [|constructor; [assumption | constructor]].
        eapply built_stable_list; [apply incl_refl | exact G1 | exact Hacc]. }
      specialize (IH mem1 w1 (accm ++ [v'])%list (accj ++ [JDict m'])%list R1 P1 B1 N1 Hacc1).
      unfold bind at 1.
      destruct (mapM compress_message ms w1) as [[outs|e] w2].
      * destruct IH as (acc' & mem2 & E2 & R2 & G2 & N2 & D2).
        exists (v' :: acc'), mem2. unfold ret.
        split; [unfold bind; rewrite E1; exact E2|].
        split; [assumption|]. split; [eapply grows_trans; eauto|].
        repeat rewrite <- List.app_assoc in N2. repeat rewrite <- List.app_assoc in D2.
        cbn [app map] in *. split; assumption.
      * destruct IH as (mem2 & E2 & R2 & G2).
        exists mem2. split; [unfold bind; rewrite E1; exact E2|].
        split; [assumption | eapply grows_trans; eauto].
    + destruct B as (mem1 & E1 & R1 & G1). exists mem1.
      split; [unfold bind; rewrite E1; reflexivity|]. split; assumption.
Qed.

Lemma related_preserved h0 h mem w :
  Heap.preserved h0 h -> related h0 mem w -> related h mem w.
Proof.
  intros P (Rm & Rc & Rt & Rs). repeat split; auto.
  induction Rs as [|he e hst st (Hk & Ht & Hc & Hn) Hrest IH]; constructor; auto.
  repeat split; auto; eapply denotes_preserved; eauto.
Qed.

(** The run of [basic_compress] on a memory that holds the conversation
    follows its run on the conversation: it returns when that returns, a
    list that reads as the compressed conversation, and raises when that
    raises, with the same store and counters either way; and the caller's
    conversation reads as before. *)
Lemma basic_compress_sim msgs tls w mem v :
  related (Heap.objects mem) mem w ->
  Heap.denotes (Heap.objects mem) (messages_json msgs) v ->
  match basic_compress msgs tls w with
  | (Ok r, w') =>
      exists out mem',
        Heap.basic_compress v mem = (Ok out, mem') /\
        related (Heap.objects mem') mem' w' /\
        Heap.denotes (Heap.objects mem') (messages_json (messages r)) out /\
        Heap.denotes (Heap.objects mem') (messages_json msgs) v
  | (Raise e, w') =>
      exists mem',
        Heap.basic_compress v mem = (Raise e, mem') /\
        related (Heap.objects mem') mem' w' /\
        Heap.denotes (Heap.objects mem') (messages_json msgs) v
  end.
Proof.
  intros R D. set (h0 := Heap.objects mem) in *.
  pose proof D as D0. apply denotes_in_list in D0.
  destruct D0 as (lm & vs & -> & _ & Hlm & Hvs).
  assert (Hms : Forall2 (fun m v => Heap.denotes h0 (JDict m) v) msgs vs).
  { clear - Hvs. revert vs Hvs. induction msgs as [|m msgs IH]; intros vs H;
      inversion H; subst; constructor; auto. }
  set (cms := List.length h0).
  set (h1 := (h0 ++ [Heap.OList []])%list).
  set (mem1 := Heap.with_objects h1 mem).
  assert (Llm : (lm < List.length h0)%nat) by (apply nth_error_Some; congruence).
  assert (L1 : List.length h1 = S cms) by (unfold h1; rewrite length_app; cbn; unfold cms; lia).
  assert (P1 : Heap.preserved h0 h1).
  { intros l o Hl. unfold h1. rewrite nth_error_app1; [assumption|].
    apply nth_error_Some. congruence. }
  assert (Hcms1 : nth_error h1 cms = Some (Heap.OList [])).
  { unfold h1, cms. rewrite nth_error_app2, Nat.sub_diag by lia. reflexivity. }
  assert (B1 : (List.length h0 <= cms < List.length (Heap.objects mem1))%nat).
  { cbn [mem1 Heap.with_objects Heap.objects]. rewrite L1. unfold cms. lia. }
  pose proof (messages_sim h0 cms msgs vs Hms mem1 w [] [] R P1 B1 Hcms1 (Forall2_nil _)) as B.
  assert (Hrun : Heap.basic_compress (Heap.VRef lm) mem
                 = (Heap.iterM (Heap.compress_message cms) vs ;;; ret (Heap.VRef cms)) mem1).
  { unfold Heap.basic_compress. unfold bind at 1. cbn [Heap.alloc]. fold h0 cms h1 mem1.
    unfold bind at 1. unfold Heap.load. cbn [mem1 Heap.with_objects Heap.objects].
    rewrite (P1 _ _ Hlm). reflexivity. }
  rewrite Hrun. unfold basic_compress. unfold bind at 1.
  destruct (mapM compress_message msgs w) as [[outs|e] w1].
  - destruct B as (acc' & mem' & E & R' & G & N & Dv). cbn [app] in N, Dv.
    assert (P' : Heap.preserved h0 (Heap.objects mem')).
    { eapply preserved_grows; eauto. intros s [<- | []]. unfold cms. lia. }
    exists (Heap.VRef cms), mem'. unfold ret. cbn [messages].
    split; [unfold bind; rewrite E; reflexivity|].
    split; [now apply (related_preserved h0)|].
    split; [|now apply (denotes_preserved h0)].
    apply denotes_in_list. exists cms, acc'. repeat split; auto.
    clear - Dv. induction Dv; constructor; auto.
    revert H. apply denotes_in_stable; auto.
  - destruct B as (mem' & E & R' & G).
    assert (P' : Heap.preserved h0 (Heap.objects mem')).
    { eapply preserved_grows; eauto. intros s [<- | []]. unfold cms. lia. }
    exists mem'. split; [unfold bind; rewrite E; reflexivity|].
    split; [now apply (related_preserved h0) | now apply (denotes_preserved h0)].
Qed.

(** ** The fallback on a conversation with one long tool result *)

(** The run of [basic_compress] on the memory of [big_request]: the caller's
    list still reads as the request, the returned list is a new object that
    reads as the compressed conversation of the run on trees, and the four
    objects of the request are where and what they were. *)
Lemma big_memory_run :
  fst (Heap.basic_compress (Heap.VRef 3%nat) big_memory) = Ok (Heap.VRef 4%nat) /\
  Heap.read 4 (Heap.objects (snd (Heap.basic_compress (Heap.VRef 3%nat) big_memory))) (Heap.VRef 3%nat)
    = Some (messages_json (req_messages big_request)) /\
  Heap.read 4 (Heap.objects (snd (Heap.basic_compress (Heap.VRef 3%nat) big_memory))) (Heap.VRef 4%nat)
    = match fst (basic_compress (req_messages big_request) None (fresh_world 50)) with
      | Ok r => Some (messages_json (messages r))
      | Raise _ => None
      end /\
  firstn 4 (Heap.objects (snd (Heap.basic_compress (Heap.VRef 3%nat) big_memory)))
    = Heap.objects big_memory.
Proof. vm_compute. repeat split. Qed.

(** C4. A conversation holds a user message with a tool-result block [b]
    whose content is a string [P] of more than 2000 characters; its other
    blocks and messages are ones the fallback passes through.  Then
    [basic_compress] returns; in the conversation it returns, [b] has its
    content replaced by the reference text, which spells the address of [P]
    and the length of [P], and everything else is as in the input; the store
    holds [P] under its address, stamped with the clock reading and labelled
    with the [tool_use_id] of [b] ("unknown" without one), and every other
    address is as before: a store that did not hold the address has one entry
    more, the new one last; one offload is counted; [tokens_after] is less
    than [tokens_before] and the result is flagged compressed.  Run on a
    memory that holds the conversation, the call returns a new list object
    that reads as that compressed conversation and writes no object that
    existed before it: the caller's conversation reads as before. *)
Theorem fallback_offloads_long_tool_result
    (P : string) (b msg : dict) (pre post : list dict) (before after : list dict)
    (tls : option (list dict)) (w : world) :
  offloads P b ->
  is_str (Json.get "role" msg) "user" = true ->
  Json.get "content" msg = Some (JList (map JDict pre ++ JDict b :: map JDict post)%list) ->
  Forall kept pre -> Forall kept post ->
  Forall passive before -> Forall passive after ->
  let msgs := (before ++ msg :: after)%list in
  let address := generate_hash (JStr P) in
  let text := "[CCR:" ++ address ++ "] Content compressed (" ++ PyStr.str_of_Z (PyStr.len P)
              ++ " chars). Use ccr_retrieve to access full content." in
  exists r w',
    basic_compress msgs tls w = (Ok r, w') /\
    messages r
      = (before
         ++ Json.set "content"
              (JList (map JDict pre ++ JDict (Json.set "content" (JStr text) b)
                      :: map JDict post)%list) msg
         :: after)%list /\
    is_address address /\
    tools r = tls /\
    Store.get address (ccr_store w')
      = Some (Entry (JStr P) (next_time w) (Json.get_default "tool_use_id" (JStr "unknown") b)) /\
    (forall k, k <> address -> Store.get k (ccr_store w') = Store.get k (ccr_store w)) /\
    (Store.get address (ccr_store w) = None ->
       List.length (ccr_store w') = S (List.length (ccr_store w)) /\
       Store.keys (ccr_store w') = (Store.keys (ccr_store w) ++ [address])%list) /\
    ccr_stores (metrics w') = ccr_stores (metrics w) + 1 /\
    stats_get "tokens_before" (stats r) = Some (SInt (estimate_tokens (messages_json msgs))) /\
    stats_get "tokens_after" (stats r)
      = Some (SInt (estimate_tokens (messages_json (messages r)))) /\
    estimate_tokens (messages_json (messages r)) < estimate_tokens (messages_json msgs) /\
    compressed r = true /\
    stats_get "transforms_applied" (stats r) = Some (SNames ["basic_ccr"]) /\
    (forall (mem : Heap.hworld) (v : Heap.pyval),
       related (Heap.objects mem) mem w ->
       Heap.denotes (Heap.objects mem) (messages_json msgs) v ->
       exists out mem',
         Heap.basic_compress v mem = (Ok out, mem') /\
         related (Heap.objects mem') mem' w' /\
         Heap.denotes (Heap.objects mem') (messages_json (messages r)) out /\
         Heap.denotes (Heap.objects mem') (messages_json msgs) v /\
         Heap.preserved (Heap.objects mem) (Heap.objects mem') /\
         exists l, out = Heap.VRef l /\ (List.length (Heap.objects mem) <= l)%nat).
Proof.
  intros Hb R C Hpre Hpost Hbefore Hafter msgs address text.
  change (Json.set "content" (JStr text) b)
    with (Json.set "content" (JStr (reference (generate_hash (JStr P)) P)) b).
  fold (replaced P b).
  set (out := (before ++ Json.set "content"
                 (JList (map JDict pre ++ replaced P b :: map JDict post)%list) msg
               :: after)%list).
  assert (E : mapM compress_message msgs w = (Ok out, offloaded P b w))
    by exact (mapM_messages_one P b pre post msg before after w Hbefore R C Hpre Hb Hpost Hafter).
  assert (T : estimate_tokens (messages_json out) < estimate_tokens (messages_json msgs))
    by exact (offload_saves_tokens P b msg (map JDict pre) (map JDict post) before after Hb C).
  apply Z.ltb_lt in T.
  eexists _, _. split.
  { unfold basic_compress, bind. rewrite E. reflexivity. }
  cbn [messages tools compressed stats stats_get String.eqb Ascii.eqb Bool.eqb].
  rewrite T. cbn [offloaded ccr_store metrics incr_ccr_stores ccr_stores].
  split; [reflexivity|]. split; [apply generate_hash_is_address|]. split; [reflexivity|].
  split; [apply StoreFacts.get_set_same|].
  split; [intros k N; now apply StoreFacts.get_set_other|].
  split.
  { intros G. apply StoreFacts.get_None_notin in G. split.
    - now apply StoreFacts.length_set_notin.
    - now apply StoreFacts.keys_set_notin. }
  split; [reflexivity|]. split; [reflexivity|]. split; [reflexivity|].
  split; [now apply Z.ltb_lt|]. split; [reflexivity|]. split; [reflexivity|].
  intros mem v Rel Dv.
  pose proof (basic_compress_sim msgs tls w mem v Rel Dv) as Sim.
  unfold basic_compress, bind in Sim. rewrite E in Sim. unfold ret in Sim.
  destruct Sim as (res & mem' & Eh & Rel' & Dout & Din).
  exists res, mem'. split; [exact Eh|]. split; [exact Rel'|].
  split; [exact Dout|]. split; [exact Din|]. split.
  - pose proof (basic_compress_preserves_objects v mem) as Pr. now rewrite Eh in Pr.
  - exact (basic_compress_returns_new_list v mem res mem' Eh).
Qed.

(** ** The theorems at concrete inputs *)

Lemma ccr_address_deduplication_witness :
  Store.wf (ccr_store (fresh_world 50)) /\
  Forall (offloads big_payload)
         [tool_block "toolu_1" big_payload; tool_block "toolu_2" big_payload] /\
  is_address (generate_hash (JStr big_payload)) /\
  exists w',
    mapM compress_block
      (map JDict [tool_block "toolu_1" big_payload; tool_block "toolu_2" big_payload])
      (fresh_world 50)
    = (Ok (map (replaced big_payload)
               [tool_block "toolu_1" big_payload; tool_block "toolu_2" big_payload]), w') /\
    Store.count (generate_hash (JStr big_payload)) (ccr_store w') = 1%nat.
Proof.
  assert (H1 : Store.wf (ccr_store (fresh_world 50))) by constructor.
  assert (H2 : Forall (offloads big_payload)
                 [tool_block "toolu_1" big_payload; tool_block "toolu_2" big_payload])
    by (repeat constructor).
  split; [exact H1|]. split; [exact H2|].
  destruct (ccr_address_deduplication big_payload _ _ _ H1 H2)
    as (_ & _ & A & w' & E & C & _).
  split; [exact A|]. exists w'. split; [exact E | exact C].
Defined.

Lemma retrieve_not_found_iff_absent_or_expired_witness :
  Store.wf (ccr_store warm_world) /\
  exists resp w',
    ccr_retrieve default_config (get_request big_address) warm_world = (Ok resp, w') /\
    resp <> not_found big_address /\ success resp = true.
Proof.
  assert (H : Store.wf (ccr_store warm_world)).
  { repeat constructor. simpl. intros []. }
  split; [exact H|].
  destruct (retrieve_not_found_iff_absent_or_expired
              default_config (get_request big_address) warm_world H)
    as (resp & w' & E & _ & _ & _ & _ & L & _).
  exists resp, w'. split; [exact E|].
  assert (G : Store.get big_address (ccr_store warm_world)
              = Some (Entry (JStr big_payload) 1050 (JStr "toolu_1"))) by reflexivity.
  assert (T : next_time warm_world - 1050 <= ccr_ttl default_config)
    by (vm_compute; discriminate).
  destruct (L _ G T) as (N & S). split; [exact N|]. exact (proj1 (S eq_refl)).
Defined.

Lemma retrieve_roundtrip_and_search_witness :
  Store.wf (ccr_store listing_world) /\
  Store.get listing_address (ccr_store listing_world)
    = Some (Entry (JList listing) 1000 (JStr "toolu_3")) /\
  next_time listing_world - 1000 <= ccr_ttl default_config /\
  exists resp,
    ccr_retrieve default_config (search_request "ALPHA" (Some 1)) listing_world
      = (Ok resp, after_retrieve default_config listing_world) /\
    resp_content resp = Some (JList [JStr "Alpha.txt"]) /\
    was_search resp = true /\
    items_retrieved resp <= 1.
Proof.
  assert (H : Store.wf (ccr_store listing_world)).
  { repeat constructor. simpl. intros []. }
  assert (G : Store.get (req_hash (search_request "ALPHA" (Some 1))) (ccr_store listing_world)
              = Some (Entry (JList listing) 1000 (JStr "toolu_3"))) by reflexivity.
  assert (T : next_time listing_world - timestamp (Entry (JList listing) 1000 (JStr "toolu_3"))
              <= ccr_ttl default_config)
    by (vm_compute; discriminate).
  split; [exact H|]. split; [exact G|]. split; [exact T|].
  destruct (retrieve_roundtrip_and_search default_config (search_request "ALPHA" (Some 1))
              listing_world _ H G T) as (resp & E & _ & _ & S & _).
  exists resp. split; [exact E|].
  destruct (S "ALPHA" listing eq_refl ltac:(discriminate) eq_refl)
    as (found & answered & Sel & _ & Ws & _ & C & _ & _ & A & B).
  assert (F : found = [JStr "Alpha.txt"; JStr "ALPHABET.md"]).
  { unfold listing in Sel.
    assert (Y : forall s, PyStr.contains (PyStr.lower "ALPHA")
                            (PyStr.lower (Json.dumps false (JStr s))) = true ->
                          mentions "ALPHA" (JStr s))
      by (intros s; apply matches_iff).
    assert (N : forall s, PyStr.contains (PyStr.lower "ALPHA")
                            (PyStr.lower (Json.dumps false (JStr s))) = false ->
                          ~ mentions "ALPHA" (JStr s)).
    { intros s X M. apply matches_iff in M. unfold matches in M. congruence. }
    inversion Sel as [|x l l1 P1 S1|x l l1 P1 S1]; subst;
      [|destruct P1; apply Y; vm_compute; reflexivity].
    inversion S1 as [|x l l2 P2 S2|x l l2 P2 S2]; subst;
      [destruct (N "beta.txt"); [vm_compute; reflexivity | exact P2]|].
    inversion S2 as [|x l l3 P3 S3|x l l3 P3 S3]; subst;
      [|destruct P3; apply Y; vm_compute; reflexivity].
    inversion S3; subst. reflexivity. }
  rewrite F in A. cbn in A. rewrite A in C.
  split; [exact C|]. split; [exact Ws | exact B].
Defined.

Lemma fallback_offloads_long_tool_result_witness :
  offloads big_payload (tool_block "toolu_1" big_payload) /\
  Store.get (generate_hash (JStr big_payload)) (ccr_store (fresh_world 50)) = None /\
  exists r w',
    basic_compress (req_messages big_request) None (fresh_world 50) = (Ok r, w') /\
    estimate_tokens (messages_json (messages r))
      < estimate_tokens (messages_json (req_messages big_request)) /\
    List.length (ccr_store w') = 1%nat.
Proof.
  assert (Hb : offloads big_payload (tool_block "toolu_1" big_payload)) by (repeat split).
  assert (R : is_str (Json.get "role" (user_message [JDict (tool_block "toolu_1" big_payload)]))
                     "user" = true) by reflexivity.
  assert (C : Json.get "content" (user_message [JDict (tool_block "toolu_1" big_payload)])
              = Some (JList (map JDict [] ++ JDict (tool_block "toolu_1" big_payload)
                             :: map JDict [])%list)) by reflexivity.
  assert (G : Store.get (generate_hash (JStr big_payload)) (ccr_store (fresh_world 50)) = None)
    by reflexivity.
  split; [exact Hb|]. split; [exact G|].
  destruct (fallback_offloads_long_tool_result big_payload _ _ [] [] [] [] None (fresh_world 50)
              Hb R C (Forall_nil _) (Forall_nil _) (Forall_nil _) (Forall_nil _))
    as (r & w' & E & _ & _ & _ & _ & _ & N & _ & _ & _ & T & _).
  exists r, w'. split; [exact E|]. split; [exact T|]. exact (proj1 (N G)).
Defined.

Lemma gate_skips_below_minimum_witness :
  estimate_tokens (messages_json (req_messages tiny_request))
    < smart_crusher_min_tokens default_config /\
  exists resp w',
    compress_messages default_config None tiny_request (fresh_world 50) = (Ok resp, w') /\
    compressed resp = false /\
    stats_get "skipped" (stats resp) = Some (SBool true) /\
    ccr_store w' = ccr_store (fresh_world 50).
Proof.
  assert (H : estimate_tokens (messages_json (req_messages tiny_request))
              < smart_crusher_min_tokens default_config) by reflexivity.
  split; [exact H|].
  destruct (gate_skips_below_minimum default_config None tiny_request (fresh_world 50) H)
    as (resp & w' & E & C & S & _ & _ & _ & St & _).
  exists resp, w'. repeat split; assumption.
Defined.


Lemma offload_always_stamps_now_witness :
  offloads big_payload (tool_block "toolu_2" big_payload) /\
  exists out w',
    compress_block (JDict (tool_block "toolu_2" big_payload)) warm_world = (Ok out, w') /\
    Store.get (generate_hash (JStr big_payload)) (ccr_store w')
      = Some (Entry (JStr big_payload) (next_time warm_world) (JStr "toolu_2")).
Proof.
  assert (Hb : offloads big_payload (tool_block "toolu_2" big_payload)) by (repeat split).
  split; [exact Hb|].
  destruct (offload_always_stamps_now big_payload _ warm_world Hb) as (out & w' & E & G & _).
  exists out, w'. split; [exact E | exact G].
Defined.

Lemma ccr_stores_counts_every_offload_witness :
  offloads big_payload (tool_block "toolu_2" big_payload) /\
  exists out w',
    compress_block (JDict (tool_block "toolu_2" big_payload)) warm_world = (Ok out, w') /\
    ccr_stores (metrics w') = ccr_stores (metrics warm_world) + 1.
Proof.
  assert (Hb : offloads big_payload (tool_block "toolu_2" big_payload)) by (repeat split).
  split; [exact Hb|].
  destruct (proj1 (ccr_stores_counts_every_offload (tool_block "toolu_2" big_payload) warm_world)
              big_payload Hb) as (out & w' & E & C & _).
  exists out, w'. split; [exact E | exact C].
Defined.

Lemma offload_only_long_strings_witness :
  let listed := [("type", JStr "tool_result"); ("tool_use_id", JStr "toolu_3");
                 ("content", JList [JStr big_payload])] in
  let short := tool_block "toolu_4" (replicate 2000 "x") in
  Json.get "content" listed = Some (JList [JStr big_payload]) /\
  PyStr.len (replicate 2000 "x") <= 2000 /\
  compress_block (JDict listed) warm_world = (Ok (JDict listed), warm_world) /\
  compress_block (JDict short) warm_world = (Ok (JDict short), warm_world).
Proof.
  intros listed short.
  assert (C : Json.get "content" listed = Some (JList [JStr big_payload])) by reflexivity.
  assert (L : PyStr.len (replicate 2000 "x") <= 2000) by (vm_compute; discriminate).
  split; [exact C|]. split; [exact L|].
  destruct (offload_only_long_strings listed warm_world) as (_ & H1 & _).
  destruct (offload_only_long_strings short warm_world) as (_ & _ & H2 & _).
  split.
  - apply (H1 _ C). intros s. discriminate.
  - apply (H2 (replicate 2000 "x") eq_refl L).
Defined.

(** ** Checks of the embedding against known values *)

Example sha256_abc :
  Sha256.hexdigest (Sha256.sha256 (encode "abc"))
  = "ba7816bf8f01cfea414140de5dae2223b00361a396177a9cb410ff61f20015ad".
Proof. vm_compute. reflexivity. Qed.

Example generate_hash_abc : generate_hash (JStr "abc") = "6cc43f858fbb".
Proof. vm_compute. reflexivity. Qed.

Example dumps_sort_keys :
  Json.dumps true (JDict [("b", JInt 1); ("a", JList [JBool true; JNull; JFloat "1.5"; JInt (-3)])])
  = String.concat "" ["{"; PyStr.quoted "a"; ": [true, null, 1.5, -3], "; PyStr.quoted "b"; ": 1}"].
Proof. vm_compute. reflexivity. Qed.

Example lower_latin1 :
  PyStr.lower (String (PyStr.chr 192) (String (PyStr.chr 215) "AbZ"))
  = String (PyStr.chr 224) (String (PyStr.chr 215) "abz").
Proof. vm_compute. reflexivity. Qed.

Example slice_negative : slice_to (Some (-1)) [1; 2; 3] = [1; 2].
Proof. reflexivity. Qed.

Example address_ignores_key_order :
  generate_hash (JDict [("b", JInt 1); ("a", JDict [("y", JNull); ("x", JStr "v")])])
  = generate_hash (JDict [("a", JDict [("x", JStr "v"); ("y", JNull)]); ("b", JInt 1)]).
Proof. vm_compute. reflexivity. Qed.


(** ** The handlers keep the store a dict *)

Lemma mapM_invariant {A B} (I : world -> Prop) (f : A -> M B) (l : list A) :
  (forall x w r w', f x w = (r, w') -> I w -> I w') ->
  forall w r w', mapM f l w = (r, w') -> I w -> I w'.
Proof.
  intros Hf. induction l as [|x l IH]; intros w r w' E Hw.
  - injection E as _ <-. assumption.
  - cbn [mapM] in E. unfold bind at 1 in E.
    destruct (f x w) as [[y|e] w1] eqn:E1.
    + apply Hf in E1; [|assumption]. unfold bind at 1 in E.
      destruct (mapM f l w1) as [[ys|e] w2] eqn:E2; injection E as _ <-; eauto.
    + injection E as _ <-. eauto.
Qed.

Lemma compress_block_wf v w r w' :
  compress_block v w = (r, w') -> Store.wf (ccr_store w) -> Store.wf (ccr_store w').
Proof.
  unfold compress_block. intros E Hw.
  assert (Hsame : forall (x : result json), (x, w) = (r, w') -> Store.wf (ccr_store w')).
  { intros x [= _ <-]. assumption. }
  destruct v as [| | | | | |b]; try (now apply (Hsame _ E)).
  destruct (is_str (Json.get "type" b) "tool_result"); [|now apply (Hsame _ E)].
  destruct (Json.get_default "content" (JStr "") b) as [| | | |s| |];
    try (now apply (Hsame _ E)).
  destruct (2000 <? PyStr.len s); [|now apply (Hsame _ E)].
  unfold bind, time_time, get_store, put_store, update_metrics, ret in E.
  cbn [ccr_store metrics clock ticks] in E. injection E as _ <-.
  cbn [ccr_store]. now apply StoreFacts.wf_set.
Qed.

Lemma compress_message_wf msg w r w' :
  compress_message msg w = (r, w') -> Store.wf (ccr_store w) -> Store.wf (ccr_store w').
Proof.
  unfold compress_message. intros E Hw.
  assert (Hsame : forall (x : result dict), (x, w) = (r, w') -> Store.wf (ccr_store w')).
  { intros x [= _ <-]. assumption. }
  destruct (is_str (Json.get "role" msg) "user"); [|now apply (Hsame _ E)].
  destruct (Json.get "content" msg) as [[| | | | |l|]|]; try (now apply (Hsame _ E)).
  unfold bind in E.
  destruct (mapM compress_block l w) as [[ys|e] w1] eqn:E1;
    injection E as _ <-;
    eapply (mapM_invariant (fun w => Store.wf (ccr_store w))); eauto using compress_block_wf.
Qed.

Lemma basic_compress_wf msgs tls w r w' :
  basic_compress msgs tls w = (r, w') -> Store.wf (ccr_store w) -> Store.wf (ccr_store w').
Proof.
  unfold basic_compress, bind. intros E Hw.
  destruct (mapM compress_message msgs w) as [[ys|e] w1] eqn:E1;
    injection E as _ <-;
    eapply (mapM_invariant (fun w => Store.wf (ccr_store w))); eauto using compress_message_wf.
Qed.

(** Every handler leaves a store with one entry per address: the states a
    process reaches from its empty store all have one. *)
Lemma handlers_keep_store_wf config headroom_pipeline w :
  Store.wf (ccr_store w) ->
  (forall request,
     Store.wf (ccr_store (snd (compress_messages config headroom_pipeline request w)))) /\
  (forall request, Store.wf (ccr_store (snd (ccr_retrieve config request w)))) /\
  Store.wf (ccr_store (snd (health_check config w))) /\
  (forall query turn_number, ccr_store (snd (ccr_analyze query turn_number w)) = ccr_store w).
Proof.
  intros Hw. split; [|split; [|split]].
  - intros request.
    destruct (Z.lt_ge_cases (estimate_tokens (messages_json (req_messages request)))
                            (smart_crusher_min_tokens config)) as [L | L].
    { rewrite compress_messages_skipped by assumption. exact Hw. }
    rewrite compress_messages_unfold by assumption. cbv zeta.
    assert (Fallback : forall w0, ccr_store w0 = ccr_store w ->
      Store.wf (ccr_store (snd (try_except (fallback_compress request (next_time w))
        (fun _ => update_metrics incr_errors ;;; raise (HTTPException 500)) w0)))).
    { intros w0 S0. unfold try_except.
      destruct (basic_compress (req_messages request) (req_tools request) w0)
        as [[r|e] w1] eqn:B.
      * rewrite (fallback_compress_run _ _ _ _ _ B). cbn [snd ccr_store].
        apply (basic_compress_wf _ _ _ _ _ B). now rewrite S0.
      * unfold fallback_compress. unfold bind at 1. rewrite B. cbn.
        apply (basic_compress_wf _ _ _ _ _ B). now rewrite S0. }
    destruct (engine_answer headroom_pipeline request) as [r|]; [|now apply Fallback].
    destruct (as_messages (fst (normalize request r))); [exact Hw | now apply Fallback].
  - intros request.
    destruct (Store.get (req_hash request) (ccr_store w)) as [e|] eqn:G.
    + destruct (Z.lt_ge_cases (ccr_ttl config) (next_time w - timestamp e)) as [X | L].
      * rewrite (ccr_retrieve_expired config request w e) by assumption.
        now apply wf_filter.
      * rewrite (ccr_retrieve_live config request w e) by assumption.
        now apply wf_filter.
    + rewrite ccr_retrieve_absent by assumption. now apply wf_filter.
  - unfold health_check. unfold bind at 1. rewrite cleanup_expired_ccr_spec by assumption.
    now apply wf_filter.
  - reflexivity.
Qed.

Lemma empty_store_wf : Store.wf [].
Proof. constructor. Qed.

(* ================================================================== *)
(** * Further properties *)


(** ** Key order *)

Lemma ascii_compare_lt_trans a b c :
  Ascii.compare a b = Lt -> Ascii.compare b c = Lt -> Ascii.compare a c = Lt.
Proof. unfold Ascii.compare. rewrite !N.compare_lt_iff. lia. Qed.

Lemma string_compare_lt_trans s1 : forall s2 s3,
  String.compare s1 s2 = Lt -> String.compare s2 s3 = Lt -> String.compare s1 s3 = Lt.
Proof.
  induction s1 as [|a s1 IH]; intros [|b s2] [|c s3]; cbn; try congruence.
  destruct (Ascii.compare a b) eqn:Eab; try discriminate.
  - apply Ascii.compare_eq_iff in Eab. subst b.
    destruct (Ascii.compare a c); try congruence. apply IH.
  - destruct (Ascii.compare b c) eqn:Ebc; try discriminate.
    + apply Ascii.compare_eq_iff in Ebc. subst c. now rewrite Eab.
    + now rewrite (ascii_compare_lt_trans a b c Eab Ebc).
Qed.

Lemma string_compare_refl s : String.compare s s = Eq.
Proof.
  induction s as [|a s IH]; cbn; [reflexivity|].
  unfold Ascii.compare. now rewrite N.compare_refl.
Qed.

Lemma string_leb_trans s1 s2 s3 :
  String.leb s1 s2 = true -> String.leb s2 s3 = true -> String.leb s1 s3 = true.
Proof.
  unfold String.leb.
  destruct (String.compare s1 s2) eqn:E12; try discriminate;
    destruct (String.compare s2 s3) eqn:E23; try discriminate; intros _ _.
  - apply String.compare_eq_iff in E12, E23. subst. now rewrite string_compare_refl.
  - apply String.compare_eq_iff in E12. subst. now rewrite E23.
  - apply String.compare_eq_iff in E23. subst. now rewrite E12.
  - now rewrite (string_compare_lt_trans _ _ _ E12 E23).
Qed.

(** Two insertions under distinct keys commute, in any list. *)
Lemma insert_item_comm (x y : string * string) l :
  fst x <> fst y ->
  Json.insert_item x (Json.insert_item y l) = Json.insert_item y (Json.insert_item x l).
Proof.
  intros N. induction l as [|z l IH]; cbn [Json.insert_item].
  - destruct (String.leb (fst x) (fst y)) eqn:Exy, (String.leb (fst y) (fst x)) eqn:Eyx;
      try reflexivity.
    + destruct N. now apply String.leb_antisym.
    + destruct (String.leb_total (fst x) (fst y)); congruence.
  - destruct (String.leb (fst y) (fst z)) eqn:Eyz, (String.leb (fst x) (fst z)) eqn:Exz;
      cbn [Json.insert_item]; rewrite ?Eyz, ?Exz.
    + destruct (String.leb (fst x) (fst y)) eqn:Exy, (String.leb (fst y) (fst x)) eqn:Eyx;
        try reflexivity.
      * destruct N. now apply String.leb_antisym.
      * destruct (String.leb_total (fst x) (fst y)); congruence.
    + destruct (String.leb (fst x) (fst y)) eqn:Exy; [|reflexivity].
      rewrite (string_leb_trans _ _ _ Exy Eyz) in Exz. discriminate.
    + destruct (String.leb (fst y) (fst x)) eqn:Eyx; [|reflexivity].
      rewrite (string_leb_trans _ _ _ Eyx Exz) in Eyz. discriminate.
    + now rewrite IH.
Qed.

Lemma sort_items_permutation (l l' : list (string * string)) :
  Permutation l l' -> NoDup (map fst l) -> Json.sort_items l = Json.sort_items l'.
Proof.
  induction 1 as [|x l l' HP IH|x y l|l l' l'' HP1 IH1 HP2 IH2]; intros ND.
  - reflexivity.
  - cbn. inversion ND; subst. now rewrite IH.
  - cbn. apply insert_item_comm. inversion ND as [|? ? Hn _]; subst.
    intros E. apply Hn. left. now symmetry.
  - rewrite IH1 by assumption. apply IH2.
    eapply Permutation_NoDup; [|exact ND]. now apply Permutation_map.
Qed.

Lemma reordered_dumps a b :
  reordered a b ->
  Json.dumps true a = Json.dumps true b /\
  (forall l l', a = JList l -> b = JList l' ->
     map (Json.dumps true) l = map (Json.dumps true) l') /\
  (forall d d', a = JDict d -> b = JDict d' ->
     Json.sort_items (rendered d) = Json.sort_items (rendered d')).
Proof.
  induction 1 as [v|a b c H1 IH1 H2 IH2|d d' ND HP|x y l l' Hx IHx Hl IHl
                  |k x y d d' Hx IHx Hd IHd].
  - split; [reflexivity|]. split; intros ? ? -> [= ->]; reflexivity.
  - destruct IH1 as (E1 & L1 & D1), IH2 as (E2 & L2 & D2).
    split; [congruence|]. split.
    + intros l l'' -> ->.
      assert (exists l', b = JList l') as (l' & ->).
      { clear - H1. remember (JList l) as a eqn:Ea. revert l Ea.
        induction H1; intros l0 Ea; try discriminate; eauto.
        destruct (IHreordered1 _ Ea) as (m & ->). eauto. }
      rewrite (L1 _ _ eq_refl eq_refl). now apply L2.
    + intros d d'' -> ->.
      assert (exists d', b = JDict d') as (d' & ->).
      { clear - H1. remember (JDict d) as a eqn:Ea. revert d Ea.
        induction H1; intros d0 Ea; try discriminate; eauto.
        destruct (IHreordered1 _ Ea) as (m & ->). eauto. }
      rewrite (D1 _ _ eq_refl eq_refl). now apply D2.
  - assert (S : Json.sort_items (rendered d) = Json.sort_items (rendered d')).
    { apply sort_items_permutation.
      - unfold rendered. now apply Permutation_map.
      - unfold rendered. rewrite map_map. cbn [fst]. exact ND. }
    split; [|split].
    + cbn [Json.dumps]. fold (rendered d). fold (rendered d'). now rewrite S.
    + intros ? ? [=].
    + intros ? ? [= <-] [= <-]. exact S.
  - destruct IHx as (Ex & _), IHl as (_ & Ll & _).
    assert (M : map (Json.dumps true) (x :: l) = map (Json.dumps true) (y :: l')).
    { cbn [map]. now rewrite Ex, (Ll _ _ eq_refl eq_refl). }
    split; [|split].
    + cbn [Json.dumps]. now rewrite M.
    + intros ? ? [= <-] [= <-]. exact M.
    + intros ? ? [=].
  - destruct IHx as (Ex & _), IHd as (_ & _ & Dd).
    assert (S : Json.sort_items (rendered ((k, x) :: d))
                = Json.sort_items (rendered ((k, y) :: d'))).
    { cbn [rendered map Json.sort_items fst snd].
      fold (rendered d). fold (rendered d'). now rewrite Ex, (Dd _ _ eq_refl eq_refl). }
    split; [|split].
    + cbn [Json.dumps]. fold (rendered ((k, x) :: d)). fold (rendered ((k, y) :: d')).
      now rewrite S.
    + intros ? ? [=].
    + intros ? ? [= <-] [= <-]. exact S.
Qed.

(** X1. [generate_hash] reads a value through its key-sorted serialisation
    only: two values that differ by the order of the items of their dicts,
    at any depth, have the same serialisation under [sort_keys] and so the
    same address. *)
Theorem generate_hash_ignores_key_order (a b : json) :
  reordered a b -> Json.dumps true a = Json.dumps true b /\ generate_hash a = generate_hash b.
Proof.
  intros H. destruct (reordered_dumps a b H) as (E & _).
  split; [exact E|]. unfold generate_hash. now rewrite E.
Qed.



Lemma unescape_escape_char c r :
  unescape_char (Json.escape_char c ++ r) = Some (c, r).
Proof.
  destruct c as [[] [] [] [] [] [] [] []]; reflexivity.
Qed.

Lemma escape_injective s1 : forall s2, Json.escape s1 = Json.escape s2 -> s1 = s2.
Proof.
  induction s1 as [|c1 s1 IH]; intros [|c2 s2]; cbn [Json.escape]; intros E.
  - reflexivity.
  - pose proof (escape_char_nonempty c2) as N.
    apply (f_equal String.length) in E. rewrite length_append in E. cbn in E. lia.
  - pose proof (escape_char_nonempty c1) as N.
    apply (f_equal String.length) in E. rewrite length_append in E. cbn in E. lia.
  - apply (f_equal unescape_char) in E. rewrite !unescape_escape_char in E.
    injection E as -> E. f_equal. now apply IH.
Qed.

Lemma append_inj_l (a : string) : forall b c, (b ++ a = c ++ a)%string -> b = c.
Proof.
  intros b. induction b as [|x b IH]; intros [|y c] E.
  - reflexivity.
  - apply (f_equal String.length) in E. cbn in E. rewrite length_append in E. lia.
  - apply (f_equal String.length) in E. cbn in E. rewrite length_append in E. lia.
  - cbn in E. injection E as -> E. f_equal. now apply IH.
Qed.

(** X2. On strings of code points below 256, the strings of this
    development, [json.dumps] escapes without loss: two different strings
    have different serialisations, so the texts [generate_hash] digests for
    two different such payloads are different.  Beyond that range Python's
    escaping loses information: a character outside the basic plane and
    the two lone surrogates of its UTF-16 form are written alike. *)
Theorem distinct_strings_distinct_texts (s1 s2 : string) :
  s1 <> s2 -> Json.dumps true (JStr s1) <> Json.dumps true (JStr s2).
Proof.
  intros N E. apply N. revert E.
  cbn [Json.dumps]. unfold Json.encode_basestring, PyStr.quoted. intros [= E].
  apply escape_injective. now apply append_inj_l in E.
Qed.

(** A line feed, and a backslash followed by the letter n. *)
Lemma distinct_strings_distinct_texts_witness :
  String (PyStr.chr 10) "" <> "\n" /\
  Json.dumps true (JStr (String (PyStr.chr 10) "")) <> Json.dumps true (JStr "\n").
Proof.
  assert (N : String (PyStr.chr 10) "" <> "\n") by discriminate.
  split; [exact N|]. exact (distinct_strings_distinct_texts _ _ N).
Defined.

(** ** Estimates grow with the conversation *)

Lemma join_app_length sep (l l' : list string) :
  (String.length (PyStr.join sep l) <= String.length (PyStr.join sep (l ++ l')))%nat.
Proof.
  induction l as [|a l IH].
  - cbn. lia.
  - destruct l as [|b l].
    + destruct l' as [|c l']; cbn [app PyStr.join]; rewrite ?length_append; lia.
    + change (((a :: b :: l) ++ l')%list) with (a :: b :: (l ++ l'))%list.
      change (((b :: l) ++ l')%list) with (b :: (l ++ l'))%list in IH.
      cbn [PyStr.join] in *. rewrite !length_append in *. lia.
Qed.

Lemma estimate_tokens_monotone (msgs more : list dict) :
  0 <= estimate_tokens (messages_json msgs) <= estimate_tokens (messages_json (msgs ++ more)).
Proof.
  rewrite !tokens_of_messages. unfold messages_json. rewrite map_app.
  cbn [Json.dumps]. rewrite map_app, !length_append.
  pose proof (join_app_length ", " (map (Json.dumps false) (map JDict msgs))
                (map (Json.dumps false) (map JDict more))) as H.
  split.
  - apply Z.div_pos; lia.
  - apply Z.div_le_mono; [lia|]. apply Nat2Z.inj_le.
    apply Nat.add_le_mono_l, Nat.add_le_mono_r. exact H.
Qed.

(** X3. The estimate of a conversation is not negative and does not go down
    when messages are appended: a conversation that reaches the configured
    minimum keeps reaching it as it grows. *)
Theorem estimate_tokens_grows (msgs more : list dict) :
  0 <= estimate_tokens (messages_json msgs) <= estimate_tokens (messages_json (msgs ++ more)) /\
  forall config : HeadroomConfig,
    smart_crusher_min_tokens config <= estimate_tokens (messages_json msgs) ->
    smart_crusher_min_tokens config <= estimate_tokens (messages_json (msgs ++ more)).
Proof.
  pose proof (estimate_tokens_monotone msgs more) as H.
  split; [exact H|].
  intros config L. lia.
Qed.


(** ** Sweeps *)

Lemma filter_filter_impl {A} (p q : A -> bool) (l : list A) :
  (forall x, q x = true -> p x = true) -> filter q (filter p l) = filter q l.
Proof.
  intros H. induction l as [|x l IH]; cbn; [reflexivity|].
  destruct (p x) eqn:Ep; cbn.
  - destruct (q x); congruence.
  - destruct (q x) eqn:Eq; [|assumption]. apply H in Eq. congruence.
Qed.

Lemma swept_swept config now1 now2 st :
  now1 <= now2 -> swept config now2 (swept config now1 st) = swept config now2 st.
Proof.
  intros L. unfold swept. apply filter_filter_impl. intros [k e]. cbn [snd]. unfold expired.
  rewrite !negb_true_iff, !Z.ltb_ge. lia.
Qed.

(** X4. Two sweeps in a row, the clock not going back between their two
    readings, leave the store one sweep at the second reading would leave;
    they read the clock twice and touch no counter. *)
Theorem sweeps_compose (config : HeadroomConfig) (w : world) :
  Store.wf (ccr_store w) ->
  clock w (ticks w) <= clock w (S (ticks w)) ->
  (cleanup_expired_ccr config ;;; cleanup_expired_ccr config) w
  = (Ok tt, World (swept config (clock w (S (ticks w))) (ccr_store w))
                  (metrics w) (clock w) (S (S (ticks w)))).
Proof.
  intros Hwf L. unfold bind. rewrite cleanup_expired_ccr_spec by assumption.
  rewrite cleanup_expired_ccr_spec by (now apply wf_filter).
  unfold after_sweep, next_time. cbn [ccr_store metrics clock ticks].
  now rewrite swept_swept.
Qed.

Lemma sweeps_compose_witness :
  (cleanup_expired_ccr default_config ;;; cleanup_expired_ccr default_config) (served_world 200)
  = (Ok tt, World [] (metrics (served_world 200)) (clock (served_world 200)) 5).
Proof.
  assert (H : Store.wf (ccr_store (served_world 200))).
  { repeat constructor. simpl. intros []. }
  assert (L : clock (served_world 200) (ticks (served_world 200))
              <= clock (served_world 200) (S (ticks (served_world 200))))
    by (vm_compute; discriminate).
  exact (sweeps_compose default_config (served_world 200) H L).
Defined.


(** ** Entries stay under the address of their content *)

Lemma in_set k e st k' e' :
  In (k', e') (Store.set k e st) -> (k', e') = (k, e) \/ In (k', e') st.
Proof.
  induction st as [|[a x] st IH]; cbn.
  - intros [H | []]. now left.
  - destruct (String.eqb k a); cbn; intros [H | H]; auto.
    destruct (IH H); auto.
Qed.

Lemma addressed_filter (p : string * entry -> bool) st :
  addressed st -> addressed (filter p st).
Proof. intros H k e Hin. apply filter_In in Hin. now apply H. Qed.

Lemma compress_block_addressed v w r w' :
  compress_block v w = (r, w') -> addressed (ccr_store w) -> addressed (ccr_store w').
Proof.
  unfold compress_block. intros E Hw.
  assert (Hsame : forall (x : result json), (x, w) = (r, w') -> addressed (ccr_store w')).
  { intros x [= _ <-]. assumption. }
  destruct v as [| | | | | |b]; try (now apply (Hsame _ E)).
  destruct (is_str (Json.get "type" b) "tool_result"); [|now apply (Hsame _ E)].
  destruct (Json.get_default "content" (JStr "") b) as [| | | |s| |];
    try (now apply (Hsame _ E)).
  destruct (Z.ltb_spec 2000 (PyStr.len s)) as [L|L]; [|now apply (Hsame _ E)].
  unfold bind, time_time, get_store, put_store, update_metrics, ret in E.
  cbn [ccr_store metrics clock ticks] in E. injection E as _ <-.
  cbn [ccr_store]. intros k e Hin. apply in_set in Hin. destruct Hin as [[= -> ->] | Hin].
  - exists s. cbn [content]. auto.
  - now apply Hw.
Qed.

Lemma compress_message_addressed msg w r w' :
  compress_message msg w = (r, w') -> addressed (ccr_store w) -> addressed (ccr_store w').
Proof.
  unfold compress_message. intros E Hw.
  assert (Hsame : forall (x : result dict), (x, w) = (r, w') -> addressed (ccr_store w')).
  { intros x [= _ <-]. assumption. }
  destruct (is_str (Json.get "role" msg) "user"); [|now apply (Hsame _ E)].
  destruct (Json.get "content" msg) as [[| | | | |l|]|]; try (now apply (Hsame _ E)).
  unfold bind in E.
  destruct (mapM compress_block l w) as [[ys|e] w1] eqn:E1;
    injection E as _ <-;
    eapply (mapM_invariant (fun w => addressed (ccr_store w)));
    eauto using compress_block_addressed.
Qed.

Lemma basic_compress_addressed msgs tls w r w' :
  basic_compress msgs tls w = (r, w') -> addressed (ccr_store w) -> addressed (ccr_store w').
Proof.
  unfold basic_compress, bind. intros E Hw.
  destruct (mapM compress_message msgs w) as [[ys|e] w1] eqn:E1;
    injection E as _ <-;
    eapply (mapM_invariant (fun w => addressed (ccr_store w)));
    eauto using compress_message_addressed.
Qed.

(** ** When the fallback runs *)

Lemma before_fallback_cases headroom_pipeline request w w0 :
  before_fallback headroom_pipeline request w = Some w0 ->
  (engine_answer headroom_pipeline request = None /\ w0 = counted request w) \/
  (exists r, engine_answer headroom_pipeline request = Some r /\
             as_messages (fst (normalize request r)) = None /\
             w0 = engine_counted request r w).
Proof.
  unfold before_fallback.
  destruct (engine_answer headroom_pipeline request) as [r|].
  - destruct (as_messages (fst (normalize request r))) eqn:V; [discriminate|].
    intros [= <-]. right. now exists r.
  - intros [= <-]. now left.
Qed.

Lemma before_fallback_none headroom_pipeline request w :
  engine_answer headroom_pipeline request = None ->
  before_fallback headroom_pipeline request w = Some (counted request w).
Proof. intros N. unfold before_fallback. now rewrite N. Qed.

(** The fallback runs exactly when the engine gave no response. *)
Lemma before_fallback_response headroom_pipeline request w :
  match engine_response headroom_pipeline request with
  | Some _ => before_fallback headroom_pipeline request w = None
  | None => exists w0, before_fallback headroom_pipeline request w = Some w0
  end.
Proof.
  unfold engine_response, before_fallback.
  destruct (engine_answer headroom_pipeline request) as [r|]; [|eauto].
  destruct (as_messages (fst (normalize request r))); eauto.
Qed.

(** What the state in which the fallback starts keeps of the state of the
    request. *)
Lemma before_fallback_frame headroom_pipeline request w w0 :
  before_fallback headroom_pipeline request w = Some w0 ->
  ccr_store w0 = ccr_store w /\
  clock w0 = clock w /\
  (ticks w < ticks w0)%nat /\
  requests_total (metrics w0) = requests_total (metrics w) + 1 /\
  total_tokens_before (metrics w0)
    = total_tokens_before (metrics w) + estimate_tokens (messages_json (req_messages request)) /\
  compressions_skipped (metrics w0) = compressions_skipped (metrics w) /\
  errors (metrics w0) = errors (metrics w) /\
  ccr_stores (metrics w0) = ccr_stores (metrics w) /\
  ccr_retrievals (metrics w0) = ccr_retrievals (metrics w).
Proof.
  intros H.
  destruct (before_fallback_cases _ _ _ _ H) as [(_ & ->) | (r & _ & _ & ->)];
    cbn; repeat split; lia.
Qed.

Lemma compress_messages_falls_back config headroom_pipeline request w w0 :
  smart_crusher_min_tokens config <= estimate_tokens (messages_json (req_messages request)) ->
  before_fallback headroom_pipeline request w = Some w0 ->
  compress_messages config headroom_pipeline request w
  = try_except (fallback_compress request (next_time w))
               (fun _ => update_metrics incr_errors ;;; raise (HTTPException 500)) w0.
Proof.
  intros L H. rewrite compress_messages_unfold by assumption. cbv zeta.
  destruct (before_fallback_cases _ _ _ _ H) as [(N & ->) | (r & N & V & ->)]; rewrite N;
    [reflexivity|]. now rewrite V.
Qed.

Lemma compress_messages_answered config headroom_pipeline request w msgs names :
  smart_crusher_min_tokens config <= estimate_tokens (messages_json (req_messages request)) ->
  engine_response headroom_pipeline request = Some (msgs, names) ->
  let tokens_before := estimate_tokens (messages_json (req_messages request)) in
  let tokens_after := estimate_tokens (messages_json msgs) in
  compress_messages config headroom_pipeline request w
  = (Ok {| messages := msgs;
           tools := req_tools request;
           compressed := tokens_after <? tokens_before;
           stats := [ ("tokens_before", SInt tokens_before);
                      ("tokens_after", SInt tokens_after);
                      ("tokens_saved", SInt (tokens_before - tokens_after));
                      ("savings_percent", savings_percent tokens_before tokens_after);
                      ("transforms_applied", SNames names);
                      ("latency_ms", latency_ms (next_time w) (clock w (S (ticks w)))) ] |},
     World (ccr_store w)
           (incr_compressions_applied
              (add_total_tokens_after tokens_after (metrics (counted request w))))
           (clock w) (S (S (ticks w)))).
Proof.
  intros L H. rewrite compress_messages_unfold by assumption. cbv zeta.
  unfold engine_response in H.
  destruct (engine_answer headroom_pipeline request) as [r|]; [|discriminate].
  destruct (as_messages (fst (normalize request r))) as [ms|] eqn:V; [|discriminate].
  injection H as -> <-. unfold engine_counted.
  now rewrite (as_messages_sound _ _ V).
Qed.

Lemma compress_messages_failed config headroom_pipeline request w w0 e w1 :
  smart_crusher_min_tokens config <= estimate_tokens (messages_json (req_messages request)) ->
  before_fallback headroom_pipeline request w = Some w0 ->
  basic_compress (req_messages request) (req_tools request) w0 = (Raise e, w1) ->
  compress_messages config headroom_pipeline request w
  = (Raise (HTTPException 500),
     World (ccr_store w1) (incr_errors (metrics w1)) (clock w1) (ticks w1)).
Proof.
  intros L H B. rewrite (compress_messages_falls_back _ _ _ _ _ L H).
  unfold try_except, fallback_compress. unfold bind at 1. rewrite B. reflexivity.
Qed.

Lemma compress_messages_outcome config headroom_pipeline request w :
  outcome config headroom_pipeline request w
    (fst (compress_messages config headroom_pipeline request w))
    (snd (compress_messages config headroom_pipeline request w)).
Proof.
  destruct (Z.lt_ge_cases (estimate_tokens (messages_json (req_messages request)))
                          (smart_crusher_min_tokens config)) as [L | L].
  { rewrite compress_messages_skipped by assumption. now apply outcome_skipped. }
  pose proof (before_fallback_response headroom_pipeline request w) as R.
  destruct (engine_response headroom_pipeline request) as [[msgs names]|] eqn:N.
  - rewrite (compress_messages_answered _ _ _ _ _ _ L N). cbv zeta. cbn [fst snd].
    now apply outcome_engine.
  - destruct R as (w0 & H).
    destruct (basic_compress (req_messages request) (req_tools request) w0)
      as [[r|e] w1] eqn:B.
    + rewrite (compress_messages_falls_back _ _ _ _ _ L H). unfold try_except.
      rewrite (fallback_compress_run _ _ _ _ _ B). cbn [fst snd].
      now apply (outcome_fallback _ _ _ _ w0).
    + rewrite (compress_messages_failed _ _ _ _ _ _ _ L H B). cbn [fst snd].
      now apply (outcome_failed _ _ _ _ w0 e).
Qed.

(** The store of [compress_messages]'s final state, by outcome. *)
Lemma compress_messages_store config headroom_pipeline request w :
  ccr_store (snd (compress_messages config headroom_pipeline request w)) = ccr_store w \/
  exists w0 r w1,
    ccr_store w0 = ccr_store w /\
    basic_compress (req_messages request) (req_tools request) w0 = (r, w1) /\
    ccr_store (snd (compress_messages config headroom_pipeline request w)) = ccr_store w1.
Proof.
  destruct (compress_messages_outcome config headroom_pipeline request w)
    as [L | msgs names L N | w0 r w1 L H B | w0 e w1 L H B].
  - now left.
  - now left.
  - right. exists w0, (Ok r), w1.
    split; [exact (proj1 (before_fallback_frame _ _ _ _ H))|]. now split.
  - right. exists w0, (Raise e), w1.
    split; [exact (proj1 (before_fallback_frame _ _ _ _ H))|]. now split.
Qed.

Lemma ccr_retrieve_store config request w :
  Store.wf (ccr_store w) ->
  ccr_store (snd (ccr_retrieve config request w)) = swept config (next_time w) (ccr_store w).
Proof.
  intros Hw.
  destruct (Store.get (req_hash request) (ccr_store w)) as [e|] eqn:G.
  - destruct (Z.lt_ge_cases (ccr_ttl config) (next_time w - timestamp e)) as [X | L].
    + now rewrite (ccr_retrieve_expired config request w e).
    + now rewrite (ccr_retrieve_live config request w e).
  - now rewrite ccr_retrieve_absent.
Qed.

Lemma health_check_run config w :
  Store.wf (ccr_store w) ->
  health_check config w
  = (Ok (Z.of_nat (List.length (swept config (next_time w) (ccr_store w)))),
     after_sweep config w).
Proof.
  intros Hw. unfold health_check. unfold bind at 1. now rewrite cleanup_expired_ccr_spec.
Qed.

(** X5. Every handler keeps the store content-addressed: if each entry is a
    string longer than 2000 characters stored under its own
    [generate_hash], so it is after [compress_messages], whatever its
    outcome, after [ccr_retrieve], [health_check] and [ccr_analyze]. *)
Theorem handlers_keep_addresses
    (config : HeadroomConfig) (headroom_pipeline : option pipeline) (w : world) :
  Store.wf (ccr_store w) -> addressed (ccr_store w) ->
  (forall request,
     addressed (ccr_store (snd (compress_messages config headroom_pipeline request w)))) /\
  (forall request, addressed (ccr_store (snd (ccr_retrieve config request w)))) /\
  addressed (ccr_store (snd (health_check config w))) /\
  (forall query turn_number,
     addressed (ccr_store (snd (ccr_analyze query turn_number w)))).
Proof.
  intros Hwf Hw. split; [|split; [|split]].
  - intros request.
    destruct (compress_messages_store config headroom_pipeline request w)
      as [-> | (w0 & r & w1 & S0 & B & ->)]; [assumption|].
    apply (basic_compress_addressed _ _ _ _ _ B). now rewrite S0.
  - intros request. rewrite ccr_retrieve_store by assumption. now apply addressed_filter.
  - rewrite health_check_run by assumption. now apply addressed_filter.
  - intros query turn_number. exact Hw.
Qed.

Lemma addressed_nil : addressed [].
Proof. intros k e []. Qed.

Lemma handlers_keep_addresses_witness :
  addressed (ccr_store (snd (compress_messages default_config None big_request (fresh_world 50)))).
Proof.
  exact (proj1 (handlers_keep_addresses default_config None (fresh_world 50)
                  empty_store_wf addressed_nil) big_request).
Defined.

(** X6. In a content-addressed store, whatever a retrieval answers with
    success is a string whose [generate_hash] is the requested address,
    counted as one item; the search over a list content is never reached. *)
Theorem retrieved_content_has_requested_address
    (config : HeadroomConfig) (request : CCRRetrieveRequest) (w : world)
    (resp : CCRRetrieveResponse) (w' : world) :
  Store.wf (ccr_store w) -> addressed (ccr_store w) ->
  ccr_retrieve config request w = (Ok resp, w') ->
  success resp = true ->
  exists s, resp_content resp = Some (JStr s) /\
            generate_hash (JStr s) = req_hash request /\
            2000 < PyStr.len s /\
            items_retrieved resp = 1.
Proof.
  intros Hwf Hw E S.
  destruct (Store.get (req_hash request) (ccr_store w)) as [e|] eqn:G.
  2:{ rewrite ccr_retrieve_absent in E by assumption. injection E as <- _. discriminate. }
  destruct (Z.lt_ge_cases (ccr_ttl config) (next_time w - timestamp e)) as [X | L].
  { rewrite (ccr_retrieve_expired config request w e) in E by assumption.
    injection E as <- _. discriminate. }
  rewrite (ccr_retrieve_live config request w e) in E by assumption. injection E as <- _.
  assert (Hin : In (req_hash request, e) (ccr_store w)).
  { clear - G. induction (ccr_store w) as [|[a x] st IH]; cbn in G; [discriminate|].
    destruct (String.eqb (req_hash request) a) eqn:Ea.
    - apply String.eqb_eq in Ea. injection G as ->. left. now subst.
    - right. now apply IH. }
  destruct (Hw _ _ Hin) as (s & C & Ls & Hk).
  exists s. unfold answer in *. rewrite C in *.
  destruct (truthy (req_query request)) as [q|].
  - destruct (PyStr.contains (PyStr.lower q) (PyStr.lower s)); [|discriminate].
    cbn. auto.
  - cbn. auto.
Qed.

(** ** Retrieval reads, it does not consume or refresh *)

(** X7. A retrieval neither removes nor restamps the entry it finds: the
    entry is in the store afterwards with its timestamp.  A second retrieval
    of the same request answers like the first while the entry is within the
    TTL at its reading, and not-found once the entry is past it. *)
Theorem retrieval_does_not_refresh
    (config : HeadroomConfig) (request : CCRRetrieveRequest) (w : world) (e : entry) :
  Store.wf (ccr_store w) ->
  Store.get (req_hash request) (ccr_store w) = Some e ->
  next_time w - timestamp e <= ccr_ttl config ->
  let w1 := snd (ccr_retrieve config request w) in
  Store.get (req_hash request) (ccr_store w1) = Some e /\
  (next_time w1 - timestamp e <= ccr_ttl config ->
     fst (ccr_retrieve config request w1) = fst (ccr_retrieve config request w)) /\
  (ccr_ttl config < next_time w1 - timestamp e ->
     fst (ccr_retrieve config request w1) = Ok (not_found (req_hash request))).
Proof.
  intros Hwf G L w1. subst w1.
  rewrite (ccr_retrieve_live config request w e) by assumption.
  cbn [fst snd].
  assert (Hwf1 : Store.wf (ccr_store (after_retrieve config w))) by (now apply wf_filter).
  assert (G1 : Store.get (req_hash request) (ccr_store (after_retrieve config w)) = Some e).
  { cbn [after_retrieve ccr_store]. rewrite get_swept, G by assumption.
    unfold expired. apply Z.ltb_ge in L. now rewrite L. }
  split; [exact G1|]. split.
  - intros L1. now rewrite (ccr_retrieve_live config request _ e).
  - intros X1. now rewrite (ccr_retrieve_expired config request _ e).
Qed.



(** ** What a retrieval counts *)

(** X8. [ccr_retrievals] counts the lookups that found a live entry, whether
    or not the query then matched: a not-found answer leaves the counters as
    they were, every other answer adds one retrieval and nothing else, also
    the query-not-found failure.  A retrieval reads the clock once. *)
Theorem retrievals_count_found_entries
    (config : HeadroomConfig) (request : CCRRetrieveRequest) (w : world) :
  Store.wf (ccr_store w) ->
  exists resp w',
    ccr_retrieve config request w = (Ok resp, w') /\
    (resp = not_found (req_hash request) -> metrics w' = metrics w) /\
    (resp <> not_found (req_hash request) ->
       metrics w' = incr_ccr_retrievals (metrics w)) /\
    (resp = query_not_found ->
       success resp = false /\
       ccr_retrievals (metrics w') = ccr_retrievals (metrics w) + 1) /\
    ticks w' = S (ticks w).
Proof.
  intros Hwf.
  assert (Miss : forall w',
            ccr_retrieve config request w = (Ok (not_found (req_hash request)), w') ->
            w' = after_sweep config w ->
            exists resp w',
              ccr_retrieve config request w = (Ok resp, w') /\
              (resp = not_found (req_hash request) -> metrics w' = metrics w) /\
              (resp <> not_found (req_hash request) ->
                 metrics w' = incr_ccr_retrievals (metrics w)) /\
              (resp = query_not_found ->
                 success resp = false /\
                 ccr_retrievals (metrics w') = ccr_retrievals (metrics w) + 1) /\
              ticks w' = S (ticks w)).
  { intros w' E ->. eexists _, _. split; [exact E|].
    split; [reflexivity|]. split; [intros N; now destruct N|].
    split; [intros N; symmetry in N; now apply not_found_neq_query_not_found in N|].
    reflexivity. }
  destruct (Store.get (req_hash request) (ccr_store w)) as [e|] eqn:G.
  - destruct (Z.lt_ge_cases (ccr_ttl config) (next_time w - timestamp e)) as [X | L].
    + exact (Miss _ (ccr_retrieve_expired config request w e Hwf G X) eq_refl).
    + eexists _, _. split; [exact (ccr_retrieve_live config request w e Hwf G L)|].
      split; [intros N; now apply answer_neq_not_found in N|].
      split; [reflexivity|]. split; [intros ->; split; reflexivity|].
      reflexivity.
  - exact (Miss _ (ccr_retrieve_absent config request w Hwf G) eq_refl).
Qed.

(** ** From the reference back to the content *)


Lemma substring_append_exact (a b : string) :
  String.substring 0 (String.length a) (a ++ b) = a.
Proof. induction a as [|c a IH]; cbn; [now destruct b|]. now rewrite IH. Qed.

Lemma address_in_reference h P : String.length h = 12%nat -> address_in (reference h P) = h.
Proof.
  intros H. unfold address_in, reference. cbn [append String.substring].
  rewrite <- H. apply substring_append_exact.
Qed.

(** X9. The text that replaces an offloaded content starts with the [CCR:
    tag and carries, in the twelve characters that follow, the address of the
    content; a retrieval of the address read there, while the entry is
    within the TTL, answers the content in full. *)
Theorem reference_leads_back_to_content
    (config : HeadroomConfig) (P : string) (b : dict) (w : world) :
  Store.wf (ccr_store w) ->
  offloads P b ->
  exists text w1,
    compress_block (JDict b) w
    = (Ok (JDict (Json.set "content" (JStr text) b)), w1) /\
    address_in text = generate_hash (JStr P) /\
    String.prefix "[CCR:" text = true /\
    (next_time w1 - clock w (ticks w) <= ccr_ttl config ->
       fst (ccr_retrieve config (get_request (address_in text)) w1)
       = Ok (full_content (JStr P))).
Proof.
  intros Hwf Hb.
  exists (reference (generate_hash (JStr P)) P), (offloaded P b w).
  split; [exact (compress_block_offload P b w Hb)|].
  assert (A : address_in (reference (generate_hash (JStr P)) P) = generate_hash (JStr P)).
  { apply address_in_reference. apply generate_hash_is_address. }
  split; [exact A|]. split; [reflexivity|].
  intros L. rewrite A.
  rewrite (ccr_retrieve_live config _ (offloaded P b w) (entry_of P b (clock w (ticks w)))).
  - reflexivity.
  - now apply StoreFacts.wf_set.
  - apply StoreFacts.get_set_same.
  - exact L.
Qed.


(** ** Suggestions *)

Lemma contains_empty s : PyStr.contains "" s = true.
Proof. destruct s; reflexivity. Qed.

Lemma filter_all {A} (p : A -> bool) (l : list A) :
  (forall x, p x = true) -> filter p l = l.
Proof. intros H. induction l as [|x l IH]; cbn; [reflexivity|]. now rewrite H, IH. Qed.

Lemma ccr_analyze_run query turn_number w :
  ccr_analyze query turn_number w
  = (Ok (firstn 5 (map suggestion
                       (filter (fun kv => matches query (content (snd kv))) (ccr_store w)))), w).
Proof. reflexivity. Qed.

(** X10. The empty query matches every entry: [ccr_analyze] then suggests the
    first five entries of the store in insertion order, whatever they hold,
    that is min(5, number of entries) suggestions, and leaves the state as
    it is. *)
Theorem analyze_empty_query_suggests_everything (turn_number : Z) (w : world) :
  ccr_analyze "" turn_number w = (Ok (firstn 5 (map suggestion (ccr_store w))), w) /\
  List.length (firstn 5 (map suggestion (ccr_store w)))
  = Nat.min 5 (List.length (ccr_store w)).
Proof.
  split.
  - rewrite ccr_analyze_run. rewrite filter_all; [reflexivity|].
    intros kv. unfold matches. apply contains_empty.
  - now rewrite length_firstn, length_map.
Qed.

Lemma in_get k e st : Store.wf st -> In (k, e) st -> Store.get k st = Some e.
Proof.
  unfold Store.wf, Store.keys. induction st as [|[a x] st IH]; cbn; intros Hwf Hin; [contradiction|].
  inversion Hwf as [|? ? Hn Hd]; subst.
  destruct Hin as [[= -> ->] | Hin].
  - now rewrite String.eqb_refl.
  - destruct (String.eqb k a) eqn:Ea; [|now apply IH].
    apply String.eqb_eq in Ea. subst a. exfalso. apply Hn.
    now apply (in_map fst) in Hin.
Qed.

(** X11. After a sweep (a [health_check]), every suggestion of [ccr_analyze]
    is a stored entry within the TTL at the reading of the sweep, with the
    entry's label and a content that matches the query; a retrieval of the
    suggested address answers that content in full as long as the entry is
    within the TTL at the retrieval's own reading. *)
Theorem analyze_after_sweep_suggests_live
    (config : HeadroomConfig) (query : string) (turn_number : Z) (w : world) :
  Store.wf (ccr_store w) ->
  let w1 := snd (health_check config w) in
  exists exps,
    ccr_analyze query turn_number w1 = (Ok exps, w1) /\
    forall x, In x exps ->
      exists e,
        Store.get (exp_hash x) (ccr_store w) = Some e /\
        next_time w - timestamp e <= ccr_ttl config /\
        exp_tool_name x = tool_name e /\
        matches query (content e) = true /\
        (next_time w1 - timestamp e <= ccr_ttl config ->
           fst (ccr_retrieve config (get_request (exp_hash x)) w1)
           = Ok (full_content (content e))).
Proof.
  intros Hwf w1. subst w1. rewrite health_check_run by assumption. cbn [snd].
  eexists. split; [apply ccr_analyze_run|].
  intros x Hx. apply in_firstn in Hx. apply in_map_iff in Hx.
  destruct Hx as ([k e] & <- & Hin). apply filter_In in Hin. destruct Hin as (Hin & Hm).
  cbn [snd] in Hm. cbn [suggestion exp_hash exp_tool_name fst snd].
  assert (Hwf1 : Store.wf (ccr_store (after_sweep config w))) by (now apply wf_filter).
  pose proof (in_get _ _ _ Hwf1 Hin) as G1.
  pose proof (swept_live config _ _ _ _ Hwf G1) as L.
  cbn [after_sweep ccr_store] in G1.
  assert (G : Store.get k (ccr_store w) = Some e).
  { rewrite get_swept in G1 by assumption.
    destruct (Store.get k (ccr_store w)) as [e'|]; [|discriminate].
    destruct (expired config (next_time w) e'); [discriminate|]. exact G1. }
  exists e. split; [exact G|]. split; [exact L|]. split; [reflexivity|]. split; [exact Hm|].
  intros L1.
  rewrite (ccr_retrieve_live config (get_request k) (after_sweep config w) e);
    [reflexivity | exact Hwf1 | exact (in_get _ _ _ Hwf1 Hin) | exact L1].
Qed.


(** ** What one run of a loop body does *)

Lemma compress_block_cases v w y w' :
  compress_block v w = (Ok y, w') ->
  exists b, v = JDict b /\
    ((y = v /\ w' = w) \/
     exists P, offloads P b /\ y = replaced P b /\ w' = offloaded P b w).
Proof.
  unfold compress_block. intros E.
  destruct v as [| | | | | |b]; try discriminate.
  exists b. split; [reflexivity|].
  destruct (is_str (Json.get "type" b) "tool_result") eqn:T;
    [|left; injection E as <- <-; auto].
  unfold Json.get_default in E.
  destruct (Json.get "content" b) as [c|] eqn:C.
  - destruct c as [| | | |s| |]; try (left; injection E as <- <-; now auto).
    destruct (Z.ltb_spec 2000 (PyStr.len s)) as [L|L]; [|left; injection E as <- <-; auto].
    right. exists s.
    assert (Hb : offloads s b) by (repeat split; assumption).
    pose proof (compress_block_offload s b w Hb) as R.
    unfold compress_block, Json.get_default in R. rewrite T, C in R.
    apply Z.ltb_lt in L. rewrite L in R. rewrite R in E. injection E as <- <-. auto.
  - cbn in E. left. injection E as <- <-. auto.
Qed.

Lemma compress_block_raises v w e w' :
  compress_block v w = (Raise e, w') -> e = AttributeError /\ w' = w /\ ~ is_dict v.
Proof.
  intros E. destruct v as [| | | | | |b];
    try (injection E as <- <-; repeat split; intros (d & [=])).
  destruct (compress_block_returns b w) as (y & w1 & R). congruence.
Qed.

Lemma mapM_Forall2 {A B} (R : A -> B -> Prop) (f : A -> M B) (l : list A) :
  (forall x w y w', f x w = (Ok y, w') -> R x y) ->
  forall w ys w', mapM f l w = (Ok ys, w') -> Forall2 R l ys.
Proof.
  intros Hf. induction l as [|x l IH]; intros w ys w' E.
  - injection E as <- _. constructor.
  - cbn [mapM] in E. unfold bind at 1 in E.
    destruct (f x w) as [[y|e] w1] eqn:E1; [|discriminate].
    unfold bind at 1 in E.
    destruct (mapM f l w1) as [[zs|e] w2] eqn:E2; [|discriminate].
    injection E as <- _. constructor; eauto.
Qed.


Lemma join_length sep (l : list string) :
  Z.of_nat (String.length (PyStr.join sep l))
  = total l + Z.of_nat (String.length sep) * Z.max 0 (Z.of_nat (List.length l) - 1).
Proof.
  induction l as [|x l IH]; [cbn; lia|].
  destruct l as [|y l].
  - cbn. lia.
  - cbn [PyStr.join total List.length] in *. rewrite !length_append, !Nat2Z.inj_add, IH.
    lia.
Qed.

Lemma size_list (l : list json) :
  size (JList l)
  = 2 + total (map (Json.dumps false) l) + 2 * Z.max 0 (Z.of_nat (List.length l) - 1).
Proof.
  unfold size. cbn [Json.dumps]. rewrite !length_append, !Nat2Z.inj_add, join_length.
  rewrite length_map. cbn [String.length]. lia.
Qed.

Lemma size_set_content (msg : dict) (x y : json) :
  Json.get "content" msg = Some x ->
  size (JDict (Json.set "content" y msg)) + size x = size (JDict msg) + size y.
Proof.
  intros G. destruct (json_get_split _ _ _ G) as (d1 & d2 & -> & S). rewrite S.
  pose proof (dumps_dict_swap d1 d2 "content" x y). unfold size. lia.
Qed.

Lemma size_replaced P b : offloads P b -> size (replaced P b) + 4 <= size (JDict b).
Proof.
  intros (_ & C & L). unfold replaced.
  pose proof (size_set_content b (JStr P) (JStr (reference (generate_hash (JStr P)) P)) C).
  pose proof (reference_shorter P L). unfold size in *. lia.
Qed.

Lemma mapM_accounts {A} (sz : A -> Z) (f : A -> M A) (l : list A) :
  (forall x w y w', f x w = (Ok y, w') -> accounts sz x w y w') ->
  forall w ys w', mapM f l w = (Ok ys, w') ->
    accounts (sum_sizes sz) l w ys w' /\ List.length ys = List.length l.
Proof.
  intros Hf. induction l as [|x l IH]; intros w ys w' E.
  - injection E as <- <-. unfold accounts. cbn [sum_sizes]. repeat split; lia || reflexivity.
  - cbn [mapM] in E. unfold bind at 1 in E.
    destruct (f x w) as [[y|e] w1] eqn:E1; [|discriminate].
    unfold bind at 1 in E.
    destruct (mapM f l w1) as [[zs|e] w2] eqn:E2; [|discriminate].
    injection E as <- <-.
    destruct (Hf _ _ _ _ E1) as (A1 & A2 & A3).
    destruct (IH _ _ _ E2) as ((B1 & B2 & B3) & B4).
    unfold accounts. cbn [sum_sizes List.length]. split; [split; [lia|split; [lia|]]|lia].
    intros Hs. destruct A3 as [-> ->]; [lia|]. destruct B3 as [-> ->]; [lia|]. auto.
Qed.

Lemma total_dumps (l : list json) : total (map (Json.dumps false) l) = sum_sizes size l.
Proof. induction l as [|x l IH]; cbn; [reflexivity|]. now rewrite IH. Qed.

Lemma compress_block_accounts v w y w' :
  compress_block v w = (Ok y, w') -> accounts size v w y w'.
Proof.
  intros E. destruct (compress_block_cases _ _ _ _ E)
    as (b & -> & [(-> & ->) | (P & Hb & -> & ->)]); unfold accounts, stored.
  - repeat split; lia || reflexivity.
  - pose proof (size_replaced P b Hb). cbn [offloaded metrics incr_ccr_stores ccr_stores].
    split; [lia|]. split; [lia|]. intros; lia.
Qed.

Lemma compress_message_accounts msg w y w' :
  compress_message msg w = (Ok y, w') ->
  accounts (fun m => size (JDict m)) msg w y w'.
Proof.
  unfold compress_message. intros E.
  assert (Hsame : (Ok msg, w) = (Ok y, w') -> accounts (fun m => size (JDict m)) msg w y w').
  { intros [= <- <-]. unfold accounts. repeat split; lia || reflexivity. }
  destruct (is_str (Json.get "role" msg) "user"); [|now apply Hsame].
  destruct (Json.get "content" msg) as [[| | | | |l|]|] eqn:C; try (now apply Hsame).
  unfold bind in E.
  destruct (mapM compress_block l w) as [[ys|e] w1] eqn:E1; [|discriminate].
  injection E as <- <-.
  destruct (mapM_accounts size compress_block l compress_block_accounts _ _ _ E1)
    as ((A1 & A2 & A3) & A4).
  pose proof (size_set_content msg (JList l) (JList ys) C) as S.
  rewrite !size_list, !total_dumps, A4 in S.
  unfold accounts. split; [lia|]. split; [lia|].
  intros Hs. destruct (A3 Hs) as [-> ->]. split; [|reflexivity]. now apply json_set_same.
Qed.

Lemma sum_sizes_map {A B} (g : A -> B) (sz : B -> Z) (l : list A) :
  sum_sizes sz (map g l) = sum_sizes (fun x => sz (g x)) l.
Proof. induction l as [|x l IH]; cbn; [reflexivity|]. now rewrite IH. Qed.

Lemma basic_compress_accounts msgs tls w r w' :
  basic_compress msgs tls w = (Ok r, w') ->
  stored w <= stored w' /\
  size (messages_json (messages r)) + 4 * (stored w' - stored w)
    <= size (messages_json msgs) /\
  (stored w' = stored w -> messages r = msgs /\ w' = w) /\
  List.length (messages r) = List.length msgs.
Proof.
  intros E. destruct (basic_compress_result _ _ _ _ _ E) as (R & _).
  destruct (mapM_accounts (fun m => size (JDict m)) compress_message msgs
              compress_message_accounts _ _ _ R) as ((A1 & A2 & A3) & A4).
  unfold messages_json. rewrite !size_list, !total_dumps, !sum_sizes_map, !length_map, A4.
  split; [lia|]. split; [lia|]. split; [exact A3|exact A4].
Qed.

Lemma basic_compress_saves
    (msgs : list dict) (tls : option (list dict)) (w : world)
    (r : CompressResponse) (w' : world) :
  basic_compress msgs tls w = (Ok r, w') ->
  let tokens_before := estimate_tokens (messages_json msgs) in
  let tokens_after := estimate_tokens (messages_json (messages r)) in
  let offloaded_blocks := ccr_stores (metrics w') - ccr_stores (metrics w) in
  0 <= offloaded_blocks /\
  tokens_after + offloaded_blocks <= tokens_before /\
  (compressed r = true <-> 0 < offloaded_blocks) /\
  (offloaded_blocks = 0 -> messages r = msgs /\ w' = w).
Proof.
  intros E tokens_before tokens_after offloaded_blocks.
  destruct (basic_compress_accounts _ _ _ _ _ E) as (A1 & A2 & A3 & _).
  destruct (basic_compress_result _ _ _ _ _ E) as (R & _ & Hc & Hs).
  fold tokens_before tokens_after in Hc, Hs.
  unfold stored in *. fold offloaded_blocks in A2.
  assert (T : tokens_after + offloaded_blocks <= tokens_before).
  { subst tokens_before tokens_after. rewrite !tokens_of_messages.
    unfold size in A2. revert A2.
    generalize (Z.of_nat (String.length (Json.dumps false (messages_json (messages r))))).
    generalize (Z.of_nat (String.length (Json.dumps false (messages_json msgs)))).
    intros a b A2. Z.to_euclidean_division_equations. lia. }
  split; [subst offloaded_blocks; lia|]. split; [exact T|].
  split.
  - rewrite Hc. rewrite Z.ltb_lt. split; [|lia].
    intros Lt. destruct (Z.eq_dec offloaded_blocks 0) as [Z0|]; [|subst offloaded_blocks; lia].
    assert (M : messages r = msgs) by (apply A3; subst offloaded_blocks; lia).
    subst tokens_after tokens_before. rewrite M in Lt. lia.
  - intros Z0. destruct A3 as [M ->]; [subst offloaded_blocks; lia|]. auto.
Qed.

(** X12. Whenever [basic_compress] returns, [tokens_after] plus the number of
    offloads it counted is at most [tokens_before]: every offload saves a
    token or more.  [tokens_saved] is the difference, the [compressed] flag
    is set exactly when a block was offloaded, and without an offload the
    messages and the state are those it was given. *)
Theorem fallback_never_inflates
    (msgs : list dict) (tls : option (list dict)) (w : world)
    (r : CompressResponse) (w' : world) :
  basic_compress msgs tls w = (Ok r, w') ->
  let tokens_before := estimate_tokens (messages_json msgs) in
  let tokens_after := estimate_tokens (messages_json (messages r)) in
  let offloaded_blocks := ccr_stores (metrics w') - ccr_stores (metrics w) in
  0 <= offloaded_blocks /\
  tokens_after + offloaded_blocks <= tokens_before /\
  stats_get "tokens_saved" (stats r) = Some (SInt (tokens_before - tokens_after)) /\
  (compressed r = true <-> 0 < offloaded_blocks) /\
  (offloaded_blocks = 0 -> messages r = msgs /\ w' = w).
Proof.
  intros E tokens_before tokens_after offloaded_blocks.
  destruct (basic_compress_saves _ _ _ _ _ E) as (A1 & A2 & A3 & A4).
  destruct (basic_compress_result _ _ _ _ _ E) as (_ & _ & _ & Hs).
  split; [exact A1|]. split; [exact A2|]. split; [rewrite Hs; reflexivity|].
  split; [exact A3 | exact A4].
Qed.


(** ** The shape of the conversation *)

Lemma json_set_keys k v d x :
  Json.get k d = Some x -> map fst (Json.set k v d) = map fst d.
Proof.
  intros G. destruct (json_get_split _ _ _ G) as (d1 & d2 & -> & S).
  rewrite S, !map_app. reflexivity.
Qed.

Lemma json_get_set_same k v d : Json.get k (Json.set k v d) = Some v.
Proof.
  induction d as [|[a x] d IH]; cbn.
  - now rewrite String.eqb_refl.
  - destruct (String.eqb k a) eqn:E; cbn; rewrite ?String.eqb_refl, ?E; auto.
Qed.

Lemma json_get_set_other k k' v d : k' <> k -> Json.get k' (Json.set k v d) = Json.get k' d.
Proof.
  intros N. induction d as [|[a x] d IH]; cbn.
  - apply String.eqb_neq in N. now rewrite N.
  - destruct (String.eqb k a) eqn:E; cbn.
    + apply String.eqb_eq in E. subst a. apply String.eqb_neq in N. now rewrite N.
    + now rewrite IH.
Qed.

Lemma same_shape_refl m : same_shape m m.
Proof.
  unfold same_shape. repeat split; auto. intros l G. exists l. auto.
Qed.

Lemma compress_message_shape msg w y w' :
  compress_message msg w = (Ok y, w') -> same_shape msg y.
Proof.
  unfold compress_message. intros E.
  assert (Hsame : (Ok msg, w) = (Ok y, w') -> same_shape msg y).
  { intros [= <- <-]. apply same_shape_refl. }
  destruct (is_str (Json.get "role" msg) "user"); [|now apply Hsame].
  destruct (Json.get "content" msg) as [[| | | | |l|]|] eqn:C; try (now apply Hsame).
  unfold bind in E.
  destruct (mapM compress_block l w) as [[ys|e] w1] eqn:E1; [|discriminate].
  injection E as <- <-.
  destruct (mapM_accounts size compress_block l compress_block_accounts _ _ _ E1) as (_ & Len).
  unfold same_shape. rewrite C. split; [now apply (json_set_keys _ _ _ (JList l))|].
  split; [intros k N; now apply json_get_set_other|].
  split; [intros v Hv N; injection Hv as <-; exfalso; now apply (N l)|].
  split; [|discriminate].
  intros l0 [= <-]. exists ys. split; [apply json_get_set_same | exact Len].
Qed.

(** X13. [basic_compress] returns the tools it was given and as many messages
    as it got, each with the fields of its original in the same order and
    with the same values but for [content]: a content that is a list is a
    list of as many blocks, any other content is kept, a message without
    content is kept whole. *)
Theorem fallback_keeps_shape
    (msgs : list dict) (tls : option (list dict)) (w : world)
    (r : CompressResponse) (w' : world) :
  basic_compress msgs tls w = (Ok r, w') ->
  tools r = tls /\
  List.length (messages r) = List.length msgs /\
  Forall2 same_shape msgs (messages r).
Proof.
  intros E. destruct (basic_compress_result _ _ _ _ _ E) as (R & T & _).
  destruct (basic_compress_accounts _ _ _ _ _ E) as (_ & _ & _ & Len).
  split; [exact T|]. split; [exact Len|].
  exact (mapM_Forall2 same_shape compress_message msgs compress_message_shape _ _ _ R).
Qed.

(** ** Failure of the fallback *)

Lemma mapM_blocks_raise l : forall w e w',
  mapM compress_block l w = (Raise e, w') -> e = AttributeError /\ ~ Forall is_dict l.
Proof.
  induction l as [|v l IH]; intros w e w' E; [discriminate|].
  cbn [mapM] in E. unfold bind at 1 in E.
  destruct (compress_block v w) as [[y|e1] w1] eqn:E1.
  - unfold bind at 1 in E.
    destruct (mapM compress_block l w1) as [[ys|e2] w2] eqn:E2; [discriminate|].
    injection E as <- <-. destruct (IH _ _ _ E2) as (-> & N).
    split; [reflexivity|]. intros HF. inversion HF; subst. contradiction.
  - injection E as <- <-. destruct (compress_block_raises _ _ _ _ E1) as (-> & _ & N).
    split; [reflexivity|]. intros HF. inversion HF; subst. contradiction.
Qed.

Lemma compress_message_raises msg w e w' :
  compress_message msg w = (Raise e, w') -> e = AttributeError /\ ~ blocks_are_dicts msg.
Proof.
  unfold compress_message, blocks_are_dicts. intros E.
  destruct (is_str (Json.get "role" msg) "user"); [|discriminate].
  destruct (Json.get "content" msg) as [[| | | | |l|]|] eqn:C; try discriminate.
  unfold bind in E.
  destruct (mapM compress_block l w) as [[ys|e1] w1] eqn:E1; [discriminate|].
  injection E as <- <-. destruct (mapM_blocks_raise _ _ _ _ E1) as (-> & N).
  split; [reflexivity|]. intros H. apply N. now apply (H eq_refl l).
Qed.

Lemma mapM_messages_raise msgs : forall w e w',
  mapM compress_message msgs w = (Raise e, w') ->
  e = AttributeError /\ ~ Forall blocks_are_dicts msgs.
Proof.
  induction msgs as [|m msgs IH]; intros w e w' E; [discriminate|].
  cbn [mapM] in E. unfold bind at 1 in E.
  destruct (compress_message m w) as [[y|e1] w1] eqn:E1.
  - unfold bind at 1 in E.
    destruct (mapM compress_message msgs w1) as [[ys|e2] w2] eqn:E2; [discriminate|].
    injection E as <- <-. destruct (IH _ _ _ E2) as (-> & N).
    split; [reflexivity|]. intros HF. inversion HF; subst. contradiction.
  - injection E as <- <-. destruct (compress_message_raises _ _ _ _ E1) as (-> & N).
    split; [reflexivity|]. intros HF. inversion HF; subst. contradiction.
Qed.

Lemma basic_compress_raises msgs tls w e w' :
  basic_compress msgs tls w = (Raise e, w') ->
  e = AttributeError /\ ~ Forall blocks_are_dicts msgs.
Proof.
  unfold basic_compress, bind. intros E.
  destruct (mapM compress_message msgs w) as [[ys|e1] w1] eqn:E1; [discriminate|].
  injection E as <- <-. exact (mapM_messages_raise _ _ _ _ E1).
Qed.

Lemma mapM_ok_all {A B} (P : A -> Prop) (f : A -> M B) (l : list A) :
  (forall x w y w', f x w = (Ok y, w') -> P x) ->
  forall w ys w', mapM f l w = (Ok ys, w') -> Forall P l.
Proof.
  intros Hf w ys w' E.
  pose proof (mapM_Forall2 (fun x _ => P x) f l Hf _ _ _ E) as F. clear E.
  induction F as [|x y l0 ys0 Hx _ IH]; constructor; [exact Hx | exact IH].
Qed.

Lemma compress_message_ok msg w y w' :
  compress_message msg w = (Ok y, w') -> blocks_are_dicts msg.
Proof.
  unfold compress_message, blocks_are_dicts. intros E R l C. rewrite R, C in E.
  unfold bind in E.
  destruct (mapM compress_block l w) as [[ys|e] w1] eqn:E1; [|discriminate].
  apply (mapM_ok_all is_dict compress_block l) in E1; [assumption|].
  intros x w0 y0 w0' Ex. destruct (compress_block_cases _ _ _ _ Ex) as (b & -> & _).
  now exists b.
Qed.

Lemma basic_compress_ok msgs tls w r w' :
  basic_compress msgs tls w = (Ok r, w') -> Forall blocks_are_dicts msgs.
Proof.
  intros E. destruct (basic_compress_result _ _ _ _ _ E) as (R & _).
  exact (mapM_ok_all blocks_are_dicts compress_message msgs compress_message_ok _ _ _ R).
Qed.

(** X14. [basic_compress] returns exactly on the conversations in which every
    block of every list content of a user message is a dict; on every other
    conversation it raises [AttributeError], the failure of [block.get], and
    it raises nothing else. *)
Theorem fallback_fails_on_non_dict_block
    (msgs : list dict) (tls : option (list dict)) (w : world) :
  (Forall blocks_are_dicts msgs <->
     exists r w', basic_compress msgs tls w = (Ok r, w')) /\
  (forall e w', basic_compress msgs tls w = (Raise e, w') -> e = AttributeError) /\
  ((exists w', basic_compress msgs tls w = (Raise AttributeError, w')) <->
     ~ Forall blocks_are_dicts msgs).
Proof.
  split; [|split].
  - split; [apply basic_compress_returns|].
    intros (r & w' & E). exact (basic_compress_ok _ _ _ _ _ E).
  - intros e w' E. exact (proj1 (basic_compress_raises _ _ _ _ _ E)).
  - split.
    + intros (w' & E). exact (proj2 (basic_compress_raises _ _ _ _ _ E)).
    + intros N. destruct (basic_compress msgs tls w) as [[r|e] w'] eqn:B.
      * destruct N. exact (basic_compress_ok _ _ _ _ _ B).
      * destruct (basic_compress_raises _ _ _ _ _ B) as (-> & _). eauto.
Qed.


(** ** A second pass finds nothing to offload *)

Lemma size_nat_bound p : Z.pos p < 2 ^ 63 -> (Pos.size_nat p <= 63)%nat.
Proof.
  intros H. pose proof (pow2_size_le p) as B.
  destruct (Nat.le_gt_cases (Pos.size_nat p) 63) as [L | G]; [assumption|].
  assert (2 ^ 64 <= 2 ^ Z.of_nat (Pos.size_nat p)) by (apply Z.pow_le_mono_r; lia).
  change (2 ^ 64) with (2 * 2 ^ 63) in *. lia.
Qed.

Lemma str_of_Z_short n : 0 <= n < 2 ^ 63 -> (String.length (PyStr.str_of_Z n) <= 63)%nat.
Proof.
  intros H. unfold PyStr.str_of_Z. destruct n as [|p|p]; [cbn; lia | | lia].
  cbn [Z.to_int NilZero.string_of_int]. unfold NilZero.string_of_uint.
  pose proof (size_nat_bound p (proj2 H)) as B.
  pose proof (pos_digits_le_size p) as D.
  assert (L : String.length (NilEmpty.string_of_uint (Pos.to_uint p))
              = Decimal.nb_digits (Pos.to_little_uint p)).
  { rewrite uint_digits_length. unfold Pos.to_uint. apply nb_digits_rev. }
  destruct (Pos.to_uint p) eqn:E; rewrite <- ?E in *; try lia.
  cbn. lia.
Qed.

Lemma reference_kept P b :
  PyStr.len P < 2 ^ 63 ->
  kept (Json.set "content" (JStr (reference (generate_hash (JStr P)) P)) b).
Proof.
  intros B Q (_ & C & L). rewrite json_get_set_same in C. injection C as <-.
  destruct (generate_hash_is_address (JStr P)) as (H12 & _).
  pose proof (reference_length (generate_hash (JStr P)) P) as RL.
  pose proof (str_of_Z_short (PyStr.len P)) as S.
  unfold PyStr.len in *. lia.
Qed.

Lemma unchanged_kept b w : compress_block (JDict b) w = (Ok (JDict b), w) -> kept b.
Proof.
  intros E P Hb. rewrite (compress_block_offload P b w Hb) in E.
  injection E as _ E. apply (f_equal ticks) in E. cbn in E. lia.
Qed.

Lemma compress_block_settles v w y w' :
  compress_block v w = (Ok y, w') ->
  (forall b P, v = JDict b -> Json.get "content" b = Some (JStr P) -> PyStr.len P < 2 ^ 63) ->
  exists b', y = JDict b' /\ kept b'.
Proof.
  intros E B.
  destruct (compress_block_cases _ _ _ _ E) as (b & -> & [(-> & ->) | (P & Hb & -> & ->)]).
  - exists b. split; [reflexivity|]. now apply (unchanged_kept b w).
  - eexists. split; [reflexivity|]. apply reference_kept.
    apply (B b P eq_refl). apply Hb.
Qed.

Lemma mapM_blocks_settle l : forall w ys w',
  mapM compress_block l w = (Ok ys, w') ->
  (forall b P, In (JDict b) l -> Json.get "content" b = Some (JStr P) -> PyStr.len P < 2 ^ 63) ->
  exists bs, ys = map JDict bs /\ Forall kept bs.
Proof.
  induction l as [|v l IH]; intros w ys w' E B.
  - injection E as <- _. exists []. split; [reflexivity | constructor].
  - cbn [mapM] in E. unfold bind at 1 in E.
    destruct (compress_block v w) as [[y|e] w1] eqn:E1; [|discriminate].
    unfold bind at 1 in E.
    destruct (mapM compress_block l w1) as [[zs|e] w2] eqn:E2; [|discriminate].
    injection E as <- _.
    destruct (compress_block_settles _ _ _ _ E1) as (b' & -> & K).
    { intros b P -> C. apply (B b P); [now left | exact C]. }
    destruct (IH _ _ _ E2) as (bs & -> & Ks).
    { intros b P Hin C. apply (B b P); [now right | exact C]. }
    exists (b' :: bs). split; [reflexivity | now constructor].
Qed.

Lemma compress_message_settles msg w y w' :
  compress_message msg w = (Ok y, w') -> within_limits msg -> passive y.
Proof.
  unfold compress_message. intros E B.
  destruct (is_str (Json.get "role" msg) "user") eqn:R.
  2:{ injection E as <- _. now left. }
  destruct (Json.get "content" msg) as [c|] eqn:C.
  2:{ injection E as <- _. right. left. intros l. congruence. }
  destruct c as [| | | | |l|];
    try (injection E as <- _; right; left; intros l0; congruence).
  unfold bind in E.
  destruct (mapM compress_block l w) as [[ys|e] w1] eqn:E1; [|discriminate].
  injection E as <- _.
  destruct (mapM_blocks_settle _ _ _ _ E1) as (bs & -> & Ks).
  { intros b P Hin Cb. exact (B l b P C Hin Cb). }
  right. right. exists bs. split; [apply json_get_set_same | exact Ks].
Qed.

Lemma mapM_messages_settle msgs : forall w ys w',
  mapM compress_message msgs w = (Ok ys, w') -> Forall within_limits msgs -> Forall passive ys.
Proof.
  induction msgs as [|m msgs IH]; intros w ys w' E B.
  - injection E as <- _. constructor.
  - cbn [mapM] in E. unfold bind at 1 in E.
    destruct (compress_message m w) as [[y|e] w1] eqn:E1; [|discriminate].
    unfold bind at 1 in E.
    destruct (mapM compress_message msgs w1) as [[zs|e] w2] eqn:E2; [|discriminate].
    injection E as <- _. inversion B; subst.
    constructor; [eapply compress_message_settles | eapply IH]; eauto.
Qed.

(** X15. [basic_compress] is idempotent.  Run again on the messages it
    returned, in the state it left, it returns them unchanged with
    [compressed = false], no token saved and no transform named, and leaves
    the state as it is: the references it wrote are too short to be
    offloaded (no string being longer than a Python string can be). *)
Theorem fallback_is_idempotent
    (msgs : list dict) (tls : option (list dict)) (w : world)
    (r : CompressResponse) (w' : world) :
  Forall within_limits msgs ->
  basic_compress msgs tls w = (Ok r, w') ->
  exists r',
    basic_compress (messages r) tls w' = (Ok r', w') /\
    messages r' = messages r /\
    compressed r' = false /\
    stats_get "tokens_saved" (stats r') = Some (SInt 0) /\
    stats_get "transforms_applied" (stats r') = Some (SNames []).
Proof.
  intros B E. destruct (basic_compress_result _ _ _ _ _ E) as (R & _).
  pose proof (mapM_messages_settle _ _ _ _ R B) as HP.
  unfold basic_compress at 1. unfold bind. rewrite (mapM_passive _ w' HP).
  eexists. split; [reflexivity|]. cbn [messages compressed stats stats_get String.eqb
    Ascii.eqb Bool.eqb]. rewrite Z.ltb_irrefl, Z.sub_diag. repeat split.
Qed.


(** ** Failure of [compress_messages] *)

(** X16. [compress_messages] fails with the HTTP status 500 only, and exactly
    when the request reaches the configured minimum, the engine gives no
    response (it is absent, it raises, or [CompressResponse] refuses the
    messages of its answer) and some block of a list content of a user
    message is not a dict.  The failure counts the request, its
    [tokens_before] and one error, and no skipped compression.  When the
    engine is absent or raises, it counts no applied compression and no
    [tokens_after] either; after a refused answer, the applied compression
    and the tokens counted for that answer stay counted. *)
Theorem compress_fails_only_with_500
    (config : HeadroomConfig) (headroom_pipeline : option pipeline)
    (request : CompressRequest) (w : world) :
  let tokens_before := estimate_tokens (messages_json (req_messages request)) in
  (forall e w',
     compress_messages config headroom_pipeline request w = (Raise e, w') ->
     e = HTTPException 500 /\
     smart_crusher_min_tokens config <= tokens_before /\
     engine_response headroom_pipeline request = None /\
     (answer_refused headroom_pipeline request = false ->
        engine_answer headroom_pipeline request = None) /\
     ~ Forall blocks_are_dicts (req_messages request) /\
     errors (metrics w') = errors (metrics w) + 1 /\
     requests_total (metrics w') = requests_total (metrics w) + 1 /\
     total_tokens_before (metrics w') = total_tokens_before (metrics w) + tokens_before /\
     compressions_skipped (metrics w') = compressions_skipped (metrics w) /\
     match engine_answer headroom_pipeline request with
     | None =>
         total_tokens_after (metrics w') = total_tokens_after (metrics w) /\
         compressions_applied (metrics w') = compressions_applied (metrics w)
     | Some r =>
         total_tokens_after (metrics w')
           = total_tokens_after (metrics w) + estimate_tokens (fst (normalize request r)) /\
         compressions_applied (metrics w') = compressions_applied (metrics w) + 1
     end) /\
  (smart_crusher_min_tokens config <= tokens_before ->
   engine_response headroom_pipeline request = None ->
   ~ Forall blocks_are_dicts (req_messages request) ->
   exists w', compress_messages config headroom_pipeline request w
              = (Raise (HTTPException 500), w')).
Proof.
  intros tokens_before. split.
  - intros e w' E.
    pose proof (compress_messages_outcome config headroom_pipeline request w) as O.
    rewrite E in O. cbn [fst snd] in O.
    inversion O as [L Hr Hw | msgs names L N tb ta Hr Hw | w0 r w1 L H B Hr Hw
                    | w0 e1 w1 L H B Hr Hw].
    destruct (basic_compress_raises _ _ _ _ _ B) as (_ & NF).
    destruct (basic_compress_frame _ _ _ _ _ B)
      as (_ & _ & F1 & F2 & F3 & F4 & _ & F6 & F7 & _).
    cbn [metrics incr_errors requests_total compressions_applied compressions_skipped
         errors total_tokens_before total_tokens_after].
    split; [reflexivity|]. split; [exact L|].
    destruct (before_fallback_cases _ _ _ _ H) as [(N & ->) | (a & N & V & ->)].
    + cbn [counted metrics add_total_tokens_before incr_requests_total requests_total
           compressions_applied compressions_skipped errors total_tokens_before
           total_tokens_after] in F1, F2, F3, F4, F6, F7.
      unfold engine_response. rewrite N. subst tokens_before.
      repeat split; try assumption; try reflexivity; lia.
    + cbn [engine_counted counted metrics add_total_tokens_before add_total_tokens_after
           incr_requests_total incr_compressions_applied requests_total
           compressions_applied compressions_skipped errors total_tokens_before
           total_tokens_after] in F1, F2, F3, F4, F6, F7.
      unfold engine_response, answer_refused. rewrite N, V. subst tokens_before.
      repeat split; try assumption; try reflexivity; try discriminate; lia.
  - intros L N NF.
    pose proof (before_fallback_response headroom_pipeline request w) as R.
    rewrite N in R. destruct R as (w0 & H).
    destruct (basic_compress (req_messages request) (req_tools request) w0)
      as [[r|e] w1] eqn:B.
    + destruct NF. exact (basic_compress_ok _ _ _ _ _ B).
    + eexists. exact (compress_messages_failed _ _ _ _ _ _ _ L H B).
Qed.

(** X17. A failed request keeps the offloads made before the failure: when
    the first block of its first message is offloaded and the second is not
    a dict, the handler answers 500, yet the store holds the entry of the
    first block, stamped with the second clock reading and labelled, and
    [ccr_stores] counts it. *)
Theorem failed_request_keeps_its_offloads
    (config : HeadroomConfig) (headroom_pipeline : option pipeline)
    (request : CompressRequest) (w : world)
    (P : string) (b : dict) (v : json) (blocks : list json) (rest : list dict) :
  req_messages request = user_message (JDict b :: v :: blocks) :: rest ->
  offloads P b ->
  ~ is_dict v ->
  smart_crusher_min_tokens config <= estimate_tokens (messages_json (req_messages request)) ->
  engine_answer headroom_pipeline request = None ->
  exists w',
    compress_messages config headroom_pipeline request w = (Raise (HTTPException 500), w') /\
    ccr_store w'
    = Store.set (generate_hash (JStr P)) (entry_of P b (clock w (S (ticks w)))) (ccr_store w) /\
    Store.get (generate_hash (JStr P)) (ccr_store w')
    = Some (entry_of P b (clock w (S (ticks w)))) /\
    ccr_stores (metrics w') = ccr_stores (metrics w) + 1 /\
    errors (metrics w') = errors (metrics w) + 1.
Proof.
  intros Hm Hb Hv L N.
  pose proof (before_fallback_none headroom_pipeline request w N) as H0.
  assert (Rv : compress_block v (offloaded P b (counted request w))
               = (Raise AttributeError, offloaded P b (counted request w))).
  { destruct v; try reflexivity. destruct Hv. now eexists. }
  assert (B : basic_compress (req_messages request) (req_tools request) (counted request w)
              = (Raise AttributeError, offloaded P b (counted request w))).
  { assert (Rb : mapM compress_block (JDict b :: v :: blocks) (counted request w)
                 = (Raise AttributeError, offloaded P b (counted request w))).
    { rewrite (mapM_cons_offload P b _ _ Hb). cbn [mapM]. unfold bind at 1. now rewrite Rv. }
    rewrite Hm. unfold basic_compress. unfold bind at 1. cbn [mapM]. unfold bind at 1.
    unfold compress_message. cbn [user_message Json.get String.eqb Ascii.eqb Bool.eqb is_str].
    unfold bind at 1. now rewrite Rb. }
  eexists. split; [exact (compress_messages_failed _ _ _ _ _ _ _ L H0 B)|].
  cbn [ccr_store offloaded counted metrics clock ticks incr_errors incr_ccr_stores
       ccr_stores errors add_total_tokens_before incr_requests_total].
  split; [reflexivity|]. split; [apply StoreFacts.get_set_same|]. split; reflexivity.
Qed.

(** X18. Every handler keeps the counters balanced: if [requests_total] is
    the sum of [compressions_applied], [compressions_skipped] and [errors],
    so it is after [compress_messages], whatever its outcome, unless the
    request reached the configured minimum and [CompressResponse] refused
    the messages the engine answered; that request is counted twice, as an
    applied compression and as what the fallback made of it, and the sum
    is one more than [requests_total].  The three other handlers count
    none of the four. *)
Theorem handlers_keep_metrics_balanced
    (config : HeadroomConfig) (headroom_pipeline : option pipeline) (w : world) :
  balanced (metrics w) ->
  (forall request,
     let m' := metrics (snd (compress_messages config headroom_pipeline request w)) in
     if (smart_crusher_min_tokens config
           <=? estimate_tokens (messages_json (req_messages request)))
        && answer_refused headroom_pipeline request
     then compressions_applied m' + compressions_skipped m' + errors m'
          = requests_total m' + 1
     else balanced m') /\
  (forall request, balanced (metrics (snd (ccr_retrieve config request w)))) /\
  balanced (metrics (snd (health_check config w))) /\
  (forall query turn_number, balanced (metrics (snd (ccr_analyze query turn_number w)))).
Proof.
  unfold balanced. intros Hb. split; [|split; [|split]].
  - intros request. cbv zeta.
    assert (Fallback : forall w0 (f : metrics_t -> metrics_t) w1 (x : Z),
      before_fallback headroom_pipeline request w = Some w0 ->
      smart_crusher_min_tokens config
        <= estimate_tokens (messages_json (req_messages request)) ->
      requests_total (metrics w1) = requests_total (metrics w0) ->
      compressions_applied (metrics w1) = compressions_applied (metrics w0) ->
      compressions_skipped (metrics w1) = compressions_skipped (metrics w0) ->
      errors (metrics w1) = errors (metrics w0) ->
      requests_total (f (metrics w1)) = requests_total (metrics w1) ->
      compressions_applied (f (metrics w1)) + compressions_skipped (f (metrics w1))
        + errors (f (metrics w1))
      = compressions_applied (metrics w1) + compressions_skipped (metrics w1)
        + errors (metrics w1) + 1 ->
      if (smart_crusher_min_tokens config
            <=? estimate_tokens (messages_json (req_messages request)))
         && answer_refused headroom_pipeline request
      then compressions_applied (f (metrics w1)) + compressions_skipped (f (metrics w1))
           + errors (f (metrics w1)) = requests_total (f (metrics w1)) + 1
      else requests_total (f (metrics w1))
           = compressions_applied (f (metrics w1)) + compressions_skipped (f (metrics w1))
             + errors (f (metrics w1))).
    { intros w0 f w1 x H L F1 F2 F3 F4 G1 G2.
      apply Z.leb_le in L. rewrite L. cbn [andb]. unfold answer_refused.
      destruct (before_fallback_cases _ _ _ _ H) as [(N & ->) | (a & N & V & ->)];
        rewrite N; [|rewrite V]; cbn in F1, F2, F3, F4; lia. }
    destruct (compress_messages_outcome config headroom_pipeline request w)
      as [L | msgs names L N | w0 r w1 L H B | w0 e w1 L H B].
    + apply Z.leb_gt in L. rewrite L. cbn. lia.
    + assert (R : answer_refused headroom_pipeline request = false).
      { unfold engine_response in N. unfold answer_refused.
        destruct (engine_answer headroom_pipeline request) as [a|]; [|reflexivity].
        now destruct (as_messages (fst (normalize request a))). }
      rewrite R, andb_false_r. cbn. lia.
    + destruct (basic_compress_frame _ _ _ _ _ B) as (_ & _ & F1 & F2 & F3 & F4 & _).
      cbn [metrics].
      apply (Fallback w0 (fun m => (if compressed r then incr_compressions_applied
                                    else incr_compressions_skipped)
                                     (add_total_tokens_after
                                        (estimate_tokens (messages_json (messages r))) m))
               w1 0 H L F1 F2 F3 F4); destruct (compressed r); cbn; lia.
    + destruct (basic_compress_frame _ _ _ _ _ B) as (_ & _ & F1 & F2 & F3 & F4 & _).
      cbn [metrics].
      apply (Fallback w0 incr_errors w1 0 H L F1 F2 F3 F4); cbn; lia.
  - intros request. unfold ccr_retrieve, cleanup_expired_ccr.
    unfold bind, time_time, get_store, put_store, update_metrics, ret.
    cbn [ccr_store metrics clock ticks].
    destruct (Store.get _ _) as [e|]; [|exact Hb].
    destruct (truthy (req_query request)) as [q|]; [destruct (content e)|]; cbn; try lia.
    destruct (PyStr.contains _ _); cbn; lia.
  - exact Hb.
  - intros query turn_number. exact Hb.
Qed.

(** X19. [compress_messages] depends on the engine through its answer to the
    request only: two engines that answer it alike give the same response and
    the same state, and an engine that raises gives those of a process with
    no engine. *)
Theorem engine_failure_is_engine_absence
    (config : HeadroomConfig) (p1 p2 : option pipeline)
    (request : CompressRequest) (w : world) :
  engine_answer p1 request = engine_answer p2 request ->
  compress_messages config p1 request w = compress_messages config p2 request w.
Proof.
  intros E.
  destruct (Z.lt_ge_cases (estimate_tokens (messages_json (req_messages request)))
                          (smart_crusher_min_tokens config)) as [L | L].
  - now rewrite !compress_messages_skipped.
  - rewrite !compress_messages_unfold by assumption. cbv zeta. now rewrite E.
Qed.

(** X20. An answered request: the response carries the tools of the
    request, and the clock, [ccr_retrievals] and [errors] are as they were.
    The store and [ccr_stores] are as they were when the request was
    skipped and when the engine gave the response ([CompressResponse]
    having taken the messages of its answer): they change on the fallback
    path only.  A response that comes with a changed store has
    [compressed = true]. *)
Theorem only_the_fallback_writes_the_store
    (config : HeadroomConfig) (headroom_pipeline : option pipeline)
    (request : CompressRequest) (w : world) (resp : CompressResponse) (w' : world) :
  compress_messages config headroom_pipeline request w = (Ok resp, w') ->
  let tokens_before := estimate_tokens (messages_json (req_messages request)) in
  tools resp = req_tools request /\
  clock w' = clock w /\
  ccr_retrievals (metrics w') = ccr_retrievals (metrics w) /\
  errors (metrics w') = errors (metrics w) /\
  (tokens_before < smart_crusher_min_tokens config \/
   engine_response headroom_pipeline request <> None ->
   ccr_store w' = ccr_store w /\ ccr_stores (metrics w') = ccr_stores (metrics w)) /\
  (ccr_store w' <> ccr_store w -> compressed resp = true).
Proof.
  intros E tokens_before.
  pose proof (compress_messages_outcome config headroom_pipeline request w) as O.
  rewrite E in O. cbn [fst snd] in O.
  inversion O as [L Hr Hw | msgs names L N tb ta Hr Hw | w0 r w1 L H B Hr Hw
                  | w0 e1 w1 L H B Hr Hw].
  - cbn. repeat split; try reflexivity. intros X. now destruct X.
  - cbn. repeat split; try reflexivity. intros X. now destruct X.
  - destruct (basic_compress_result _ _ _ _ _ B) as (_ & T & _).
    destruct (basic_compress_frame _ _ _ _ _ B)
      as (Hck & _ & _ & _ & _ & F4 & F5 & _).
    destruct (before_fallback_frame _ _ _ _ H)
      as (S0 & C0 & _ & _ & _ & _ & E0 & O0 & R0).
    cbn [tools clock metrics compressed ccr_store].
    split; [exact T|]. split; [congruence|].
    split; [destruct (compressed r); cbn; lia|].
    split; [destruct (compressed r); cbn; lia|].
    split.
    + intros [X | X]; [subst tokens_before; lia|]. destruct X.
      pose proof (before_fallback_response headroom_pipeline request w) as R.
      destruct (engine_response headroom_pipeline request); [congruence | reflexivity].
    + intros Hs. destruct (compressed r) eqn:C; [reflexivity|]. exfalso.
      destruct (basic_compress_saves _ _ _ _ _ B) as (Hp & _ & Hc & Hz).
      destruct (Z.eq_dec (ccr_stores (metrics w1) - ccr_stores (metrics w0)) 0)
        as [Z0 | NZ].
      * destruct (Hz Z0) as (_ & Ew). apply Hs. rewrite Ew. exact S0.
      * assert (compressed r = true) by (apply Hc; lia). congruence.
Qed.

(** X21. The empty conversation estimates to 0 tokens and is answered, never
    failed, with [compressed = false] and the store untouched: skipped when
    the minimum is positive; otherwise with [tokens_before = 0] and
    [savings_percent = 0], the zero [tokens_before] never being divided by,
    and, by the fallback, with no message, no token saved and a skipped
    compression counted. *)
Theorem empty_conversation_is_answered
    (config : HeadroomConfig) (headroom_pipeline : option pipeline)
    (request : CompressRequest) (w : world) :
  req_messages request = [] ->
  exists resp w',
    compress_messages config headroom_pipeline request w = (Ok resp, w') /\
    compressed resp = false /\
    ccr_store w' = ccr_store w /\
    total_tokens_before (metrics w') = total_tokens_before (metrics w) /\
    (0 < smart_crusher_min_tokens config ->
       stats_get "skipped" (stats resp) = Some (SBool true) /\ messages resp = []) /\
    (smart_crusher_min_tokens config <= 0 ->
       stats_get "tokens_before" (stats resp) = Some (SInt 0) /\
       stats_get "savings_percent" (stats resp) = Some (SInt 0) /\
       (engine_answer headroom_pipeline request = None ->
          messages resp = [] /\
          stats_get "tokens_saved" (stats resp) = Some (SInt 0) /\
          compressions_skipped (metrics w') = compressions_skipped (metrics w) + 1)).
Proof.
  intros Hm. destruct request as [ms tl md ml]. cbn [req_messages] in Hm. subst ms.
  set (request := {| req_messages := []; req_tools := tl; req_model := md;
                     req_model_limit := ml |}).
  assert (T0 : estimate_tokens (messages_json (req_messages request)) = 0) by reflexivity.
  destruct (Z.lt_ge_cases 0 (smart_crusher_min_tokens config)) as [L | L].
  - eexists _, _. split; [apply compress_messages_skipped; lia|].
    rewrite T0. cbn. repeat split; try lia.
  - assert (B : forall w0,
        basic_compress (req_messages request) (req_tools request) w0
        = (Ok {| messages := []; tools := req_tools request; compressed := false;
                 stats := [ ("tokens_before", SInt 0); ("tokens_after", SInt 0);
                            ("tokens_saved", SInt 0); ("savings_percent", SInt 0);
                            ("transforms_applied", SNames []);
                            ("latency_ms", SInt 0) ] |}, w0))
      by reflexivity.
    assert (L0 : smart_crusher_min_tokens config
                 <= estimate_tokens (messages_json (req_messages request))) by lia.
    pose proof (before_fallback_response headroom_pipeline request w) as R.
    destruct (engine_response headroom_pipeline request) as [[msgs names]|] eqn:N.
    + eexists _, _. split; [exact (compress_messages_answered _ _ _ _ _ _ L0 N)|].
      cbv zeta. rewrite T0. cbn [compressed stats ccr_store metrics].
      pose proof (proj1 (estimate_tokens_monotone msgs [])) as P0.
      split; [apply Z.ltb_ge; exact P0|].
      unfold engine_response in N.
      cbn. repeat split; try lia;
        match goal with X : engine_answer _ _ = None |- _ => rewrite X in N end;
        discriminate.
    + destruct R as (w0 & H).
      destruct (before_fallback_frame _ _ _ _ H) as (S0 & _ & _ & _ & Tb & Sk & _).
      rewrite T0 in Tb.
      eexists _, _. split.
      { rewrite (compress_messages_falls_back _ _ _ _ _ L0 H). unfold try_except.
        rewrite (fallback_compress_run _ _ _ _ _ (B w0)). reflexivity. }
      cbn [compressed messages stats ccr_store metrics stats_set stats_get
           String.eqb Ascii.eqb Bool.eqb incr_compressions_skipped add_total_tokens_after
           total_tokens_before compressions_skipped].
      split; [reflexivity|]. split; [exact S0|]. split; [lia|].
      split; [lia|]. intros _. split; [reflexivity|]. split; [reflexivity|].
      intros _. split; [reflexivity|]. split; [reflexivity|]. lia.
Qed.

(** ** What [get_metrics] reports *)

Lemma filter_length_le {A} (p : A -> bool) (l : list A) :
  (List.length (filter p l) <= List.length l)%nat.
Proof. induction l as [|x l IH]; cbn; [lia|]. destruct (p x); cbn; lia. Qed.

Lemma filter_length_eq {A} (p : A -> bool) (l : list A) :
  List.length (filter p l) = List.length l <-> forall x, In x l -> p x = true.
Proof.
  induction l as [|x l IH]; cbn.
  - split; [intros _ x [] | reflexivity].
  - pose proof (filter_length_le p l) as B. destruct (p x) eqn:E; cbn.
    + split.
      * intros H y [<- | Hy]; [assumption|]. apply IH; [lia | assumption].
      * intros H. f_equal. apply IH. auto.
    + split; [lia|]. intros H. specialize (H x (or_introl eq_refl)). congruence.
Qed.

(** X22. [get_metrics] changes nothing and does not sweep: [ccr_entries] is
    the number of entries the store holds, expired ones included, so at
    least the [entries_cached] a [health_check] from the same state reports,
    and equal to it exactly when no entry is past the TTL; after the health
    check [get_metrics] reports [entries_cached]. *)
Theorem metrics_count_unswept_entries (config : HeadroomConfig) (w : world) :
  Store.wf (ccr_store w) ->
  exists report entries_cached w1,
    get_metrics w = (Ok report, w) /\
    health_check config w = (Ok entries_cached, w1) /\
    ccr_entries report = Z.of_nat (List.length (ccr_store w)) /\
    counters report = metrics w /\
    entries_cached <= ccr_entries report /\
    (entries_cached = ccr_entries report <->
       forall k e, In (k, e) (ccr_store w) -> next_time w - timestamp e <= ccr_ttl config) /\
    fst (get_metrics w1) = Ok {| counters := metrics w;
                                 average_compression_ratio := average_compression_ratio report;
                                 ccr_entries := entries_cached |}.
Proof.
  intros Hwf. eexists _, _, _. split; [reflexivity|].
  split; [now apply health_check_run|].
  cbn [ccr_entries counters average_compression_ratio].
  split; [reflexivity|]. split; [reflexivity|].
  pose proof (filter_length_le (fun kv => negb (expired config (next_time w) (snd kv)))
                (ccr_store w)) as B.
  split; [unfold swept; lia|]. split; [|reflexivity].
  unfold swept. rewrite Nat2Z.inj_iff, filter_length_eq. split.
  - intros H k e Hin. specialize (H _ Hin). cbn [snd] in H. unfold expired in H.
    apply negb_true_iff, Z.ltb_ge in H. exact H.
  - intros H [k e] Hin. cbn [snd]. unfold expired. apply negb_true_iff, Z.ltb_ge.
    now apply (H k).
Qed.

(** ** The ratio without an engine *)


Lemma round_half_even_bounds a b :
  0 < b -> 0 <= a <= 1000 * b -> 0 <= round_half_even a b <= 1000.
Proof.
  intros Hb Ha. unfold round_half_even.
  pose proof (Z.div_mod a b ltac:(lia)) as D.
  pose proof (Z.mod_pos_bound a b Hb) as R.
  assert (N : 0 <= a / b <= 1000).
  { split; [apply Z.div_pos; lia|]. apply Z.div_le_upper_bound; lia. }
  assert (N1 : a / b = 1000 -> a mod b = 0) by nia.
  destruct (Z.ltb_spec (2 * (a mod b)) b); [lia|].
  destruct (Z.ltb_spec b (2 * (a mod b))); [lia|].
  destruct (Z.even (a / b)); lia.
Qed.

Lemma ratio_bounds a b :
  0 <= a <= b -> 0 < b -> (0 <= round3 (inject_Z a / inject_Z b) <= 1)%Q.
Proof.
  intros Ha Hb. unfold round3.
  destruct b as [|p|p]; try lia.
  assert (Hn : Qnum (inject_Z a / inject_Z (Z.pos p)) = a * 1)
    by (cbn; lia).
  assert (Hd : Qden (inject_Z a / inject_Z (Z.pos p)) = (1 * p)%positive) by reflexivity.
  rewrite Hn, Hd.
  pose proof (round_half_even_bounds (1000 * (a * 1)) (Z.pos (1 * p)) ltac:(lia) ltac:(lia)) as B.
  unfold Qle. cbn [Qnum Qden]. lia.
Qed.

(** X23. When no engine answers, [compress_messages] keeps the running totals
    ordered, [0 <= total_tokens_after <= total_tokens_before], whatever its
    outcome, and [get_metrics] then reports an [average_compression_ratio]
    between 0 and 1. *)
Theorem ratio_at_most_one_without_engine
    (config : HeadroomConfig) (headroom_pipeline : option pipeline)
    (request : CompressRequest) (w : world) :
  engine_answer headroom_pipeline request = None ->
  totals_ordered (metrics w) ->
  let w' := snd (compress_messages config headroom_pipeline request w) in
  totals_ordered (metrics w') /\
  forall report, fst (get_metrics w') = Ok report ->
    (0 <= average_compression_ratio report <= 1)%Q.
Proof.
  intros N Ho w'.
  assert (Ho' : totals_ordered (metrics w')).
  { subst w'. unfold totals_ordered in *.
    pose proof (proj1 (estimate_tokens_monotone (req_messages request) [])) as P0.
    pose proof (before_fallback_none headroom_pipeline request w N) as H0.
    destruct (compress_messages_outcome config headroom_pipeline request w)
      as [L | msgs names L N' | w0 r w1 L H B | w0 e w1 L H B];
      try (rewrite H0 in H; injection H as <-).
    - cbn. lia.
    - unfold engine_response in N'. rewrite N in N'. discriminate.
    - destruct (basic_compress_frame _ _ _ _ _ B) as (_ & _ & _ & _ & _ & _ & _ & F6 & F7 & _).
      destruct (basic_compress_saves _ _ _ _ _ B) as (Hp & Hle & _).
      pose proof (proj1 (estimate_tokens_monotone (messages r) [])) as P1.
      cbn in F6, F7. destruct (compressed r); cbn; lia.
    - destruct (basic_compress_frame _ _ _ _ _ B) as (_ & _ & _ & _ & _ & _ & _ & F6 & F7 & _).
      cbn in F6, F7. cbn. lia. }
  split; [exact Ho'|].
  intros report [= <-]. cbn [average_compression_ratio].
  destruct (Z.ltb_spec 0 (total_tokens_before (metrics w'))) as [Hb | Hb].
  - apply ratio_bounds; [exact Ho' | exact Hb].
  - split; unfold Qle; cbn; lia.
Qed.

(** ** Properties of the configuration *)

Lemma lower_char_idempotent c : PyStr.lower_char (PyStr.lower_char c) = PyStr.lower_char c.
Proof. destruct c as [[] [] [] [] [] [] [] []]; reflexivity. Qed.

Lemma lower_idempotent s : PyStr.lower (PyStr.lower s) = PyStr.lower s.
Proof.
  induction s as [|c s IH]; cbn; [reflexivity|]. now rewrite lower_char_idempotent, IH.
Qed.

Lemma lower_length s : String.length (PyStr.lower s) = String.length s.
Proof. induction s as [|c s IH]; cbn; congruence. Qed.

(** X24. [str_to_bool] folds case: lowering the value does not change the
    result.  It accepts the four words [true], [1], [yes], [on] in any letter
    case and nothing else: not the empty string, no surrounding blanks,
    nothing longer than four characters. *)
Theorem str_to_bool_folds_case (s : string) :
  str_to_bool (PyStr.lower s) = str_to_bool s /\
  (str_to_bool s = true ->
     (1 <= String.length s <= 4)%nat /\
     (PyStr.lower s = "true" \/ PyStr.lower s = "1" \/
      PyStr.lower s = "yes" \/ PyStr.lower s = "on")).
Proof.
  split.
  - unfold str_to_bool. cbv zeta. now rewrite lower_idempotent.
  - unfold str_to_bool. cbv zeta. intros H.
    assert (D : PyStr.lower s = "true" \/ PyStr.lower s = "1" \/
                PyStr.lower s = "yes" \/ PyStr.lower s = "on").
    { repeat (apply orb_prop in H; destruct H as [H | H]);
        apply String.eqb_eq in H; auto. }
    split; [|exact D].
    rewrite <- (lower_length s).
    destruct D as [-> | [-> | [-> | ->]]]; cbn; lia.
Qed.

Lemma environ_get_unset env key default :
  ~ In key (map fst env) -> environ_get env key default = default.
Proof.
  induction env as [|[k v] env IH]; cbn; [reflexivity|].
  intros N. destruct (String.eqb key k) eqn:E.
  - apply String.eqb_eq in E. destruct N. now left.
  - apply IH. tauto.
Qed.

(** X25. With none of its variables set in the environment, a
    [HeadroomConfig] is built with the defaults: a minimum of 200 tokens and
    a TTL of 300 seconds, the [default_config] of the handlers, the port
    8787, CCR enabled, LLMLingua disabled; [to_dict] reports them. *)
Theorem unset_environment_gives_defaults (int : string -> option Z) (env : environ) :
  int "8787" = Some 8787 -> int "200" = Some 200 -> int "15" = Some 15 ->
  int "3" = Some 3 -> int "300" = Some 300 ->
  (forall key, In key config_keys -> ~ In key (map fst env)) ->
  exists c,
    Settings.init int env = Some c /\
    Settings.handlers c = default_config /\
    Settings.port c = 8787 /\
    Settings.ccr_enabled c = true /\
    Settings.llmlingua_enabled c = false /\
    Json.get "ccr" (Settings.to_dict c) = Some (JDict [("enabled", JBool true); ("ttl", JInt 300)]).
Proof.
  intros I1 I2 I3 I4 I5 U. unfold Settings.init.
  rewrite !environ_get_unset by (apply U; cbn; tauto).
  rewrite I1, I2, I3, I4, I5. eexists. split; [reflexivity|]. repeat split.
Qed.

(** ** Entries and the count of offloads *)

Lemma length_set_le k e st :
  (List.length (Store.set k e st) <= S (List.length st))%nat.
Proof.
  induction st as [|[a x] st IH]; cbn; [lia|].
  destruct (String.eqb k a); cbn; lia.
Qed.

Lemma compress_block_counted_for v w r w' :
  compress_block v w = (r, w') -> counted_for w -> counted_for w'.
Proof.
  unfold compress_block. intros E Hw.
  assert (Hsame : forall (x : result json), (x, w) = (r, w') -> counted_for w').
  { intros x [= _ <-]. assumption. }
  destruct v as [| | | | | |b]; try (now apply (Hsame _ E)).
  destruct (is_str (Json.get "type" b) "tool_result"); [|now apply (Hsame _ E)].
  destruct (Json.get_default "content" (JStr "") b) as [| | | |s| |];
    try (now apply (Hsame _ E)).
  destruct (2000 <? PyStr.len s); [|now apply (Hsame _ E)].
  unfold bind, time_time, get_store, put_store, update_metrics, ret in E.
  cbn [ccr_store metrics clock ticks] in E. injection E as _ <-.
  unfold counted_for in *. cbn [ccr_store metrics incr_ccr_stores ccr_stores].
  pose proof (length_set_le (generate_hash (JStr s))
                (Entry (JStr s) (clock w (ticks w))
                       (Json.get_default "tool_use_id" (JStr "unknown") b)) (ccr_store w)).
  lia.
Qed.

Lemma compress_message_counted_for msg w r w' :
  compress_message msg w = (r, w') -> counted_for w -> counted_for w'.
Proof.
  unfold compress_message. intros E Hw.
  assert (Hsame : forall (x : result dict), (x, w) = (r, w') -> counted_for w').
  { intros x [= _ <-]. assumption. }
  destruct (is_str (Json.get "role" msg) "user"); [|now apply (Hsame _ E)].
  destruct (Json.get "content" msg) as [[| | | | |l|]|]; try (now apply (Hsame _ E)).
  unfold bind in E.
  destruct (mapM compress_block l w) as [[ys|e] w1] eqn:E1;
    injection E as _ <-;
    eapply (mapM_invariant counted_for); eauto using compress_block_counted_for.
Qed.

Lemma basic_compress_counted_for msgs tls w r w' :
  basic_compress msgs tls w = (r, w') -> counted_for w -> counted_for w'.
Proof.
  unfold basic_compress, bind. intros E Hw.
  destruct (mapM compress_message msgs w) as [[ys|e] w1] eqn:E1;
    injection E as _ <-;
    eapply (mapM_invariant counted_for); eauto using compress_message_counted_for.
Qed.

(** X26. Every handler keeps the store within the count of offloads: if
    the store holds no more entries than [ccr_stores] counts, so it does
    after each of the four handlers.  An offload counts one and adds one
    entry at most; a sweep only removes. *)
Theorem store_never_exceeds_counted_offloads
    (config : HeadroomConfig) (headroom_pipeline : option pipeline) (w : world) :
  Store.wf (ccr_store w) -> counted_for w ->
  (forall request,
     counted_for (snd (compress_messages config headroom_pipeline request w))) /\
  (forall request, counted_for (snd (ccr_retrieve config request w))) /\
  counted_for (snd (health_check config w)) /\
  (forall query turn_number, counted_for (snd (ccr_analyze query turn_number w))).
Proof.
  intros Hwf Hw. split; [|split; [|split]].
  - intros request.
    assert (H0 : forall w0, before_fallback headroom_pipeline request w = Some w0 ->
                            counted_for w0).
    { intros w0 H.
      destruct (before_fallback_cases _ _ _ _ H) as [(_ & ->) | (a & _ & _ & ->)];
        exact Hw. }
    destruct (compress_messages_outcome config headroom_pipeline request w)
      as [L | msgs names L N | w0 r w1 L H B | w0 e w1 L H B].
    + exact Hw.
    + exact Hw.
    + pose proof (basic_compress_counted_for _ _ _ _ _ B (H0 _ H)) as H1.
      unfold counted_for in *. cbn [ccr_store metrics] in *.
      destruct (compressed r); exact H1.
    + exact (basic_compress_counted_for _ _ _ _ _ B (H0 _ H)).
  - intros request. unfold counted_for in *.
    rewrite ccr_retrieve_store by assumption.
    pose proof (filter_length_le (fun kv => negb (expired config (next_time w) (snd kv)))
                  (ccr_store w)) as B.
    assert (M : ccr_stores (metrics (snd (ccr_retrieve config request w)))
                = ccr_stores (metrics w)).
    { destruct (Store.get (req_hash request) (ccr_store w)) as [e|] eqn:G.
      - destruct (Z.lt_ge_cases (ccr_ttl config) (next_time w - timestamp e)) as [X | L].
        + now rewrite (ccr_retrieve_expired config request w e).
        + now rewrite (ccr_retrieve_live config request w e).
      - now rewrite ccr_retrieve_absent. }
    rewrite M. unfold swept. lia.
  - unfold counted_for in *. rewrite health_check_run by assumption.
    pose proof (filter_length_le (fun kv => negb (expired config (next_time w) (snd kv)))
                  (ccr_store w)) as B.
    cbn [snd after_sweep ccr_store metrics]. unfold swept. lia.
  - intros query turn_number. exact Hw.
Qed.



(** ** Lookups are exact *)

Lemma get_in k e st : Store.get k st = Some e -> In (k, e) st.
Proof.
  induction st as [|[a x] st IH]; cbn; [discriminate|].
  destruct (String.eqb k a) eqn:Ea.
  - apply String.eqb_eq in Ea. intros [= ->]. left. now subst.
  - intros G. right. now apply IH.
Qed.

(** X27. Lookups are exact: in a content-addressed store, a requested hash
    that is not made of twelve lowercase hexadecimal characters, an address
    written in capitals for one, is answered not-found; the retrieval still
    sweeps. *)
Theorem only_addresses_are_found
    (config : HeadroomConfig) (request : CCRRetrieveRequest) (w : world) :
  Store.wf (ccr_store w) -> addressed (ccr_store w) ->
  ~ is_address (req_hash request) ->
  ccr_retrieve config request w
  = (Ok (not_found (req_hash request)), after_sweep config w).
Proof.
  intros Hwf Hw N.
  destruct (Store.get (req_hash request) (ccr_store w)) as [e|] eqn:G.
  - destruct (Hw _ _ (get_in _ _ _ G)) as (s & _ & _ & Hk).
    destruct N. rewrite Hk. apply generate_hash_is_address.
  - now apply ccr_retrieve_absent.
Qed.

(** ** The query search is a substring search *)

(** X28. A query on a string content is a substring search on the two
    case-folded texts: the retrieval succeeds exactly when the lowered query
    occurs in the lowered content, then answers the whole content, tagged as
    a search of one item, and otherwise answers the query-not-found
    failure. *)
Theorem query_search_is_substring_search
    (config : HeadroomConfig) (request : CCRRetrieveRequest) (w : world)
    (e : entry) (s q : string) :
  Store.wf (ccr_store w) ->
  Store.get (req_hash request) (ccr_store w) = Some e ->
  next_time w - timestamp e <= ccr_ttl config ->
  content e = JStr s ->
  req_query request = Some q -> q <> "" ->
  exists resp,
    ccr_retrieve config request w = (Ok resp, after_retrieve config w) /\
    (success resp = true <-> exists a b, PyStr.lower s = a ++ PyStr.lower q ++ b) /\
    (success resp = true ->
       resp_content resp = Some (JStr s) /\ was_search resp = true /\
       items_retrieved resp = 1) /\
    (success resp = false -> resp = query_not_found).
Proof.
  intros Hwf G L C Q Hq.
  exists (answer request (content e)).
  split; [now apply ccr_retrieve_live|].
  unfold answer. rewrite Q, C.
  assert (T : truthy (Some q) = Some q) by (destruct q; [contradiction | reflexivity]).
  rewrite T. rewrite <- contains_iff.
  destruct (PyStr.contains (PyStr.lower q) (PyStr.lower s)); cbn.
  - repeat split; auto; discriminate.
  - repeat split; auto; discriminate.
Qed.

(** ** Every offloaded content can be read back *)

Lemma held_offloaded P b w : held (offloaded P b w) P.
Proof.
  eexists. split; [apply StoreFacts.get_set_same | reflexivity].
Qed.

Lemma held_after_block v w r w' P :
  compress_block v w = (r, w') -> held w P ->
  (forall b Q, v = JDict b -> offloads Q b ->
     generate_hash (JStr Q) = generate_hash (JStr P) -> Q = P) ->
  held w' P.
Proof.
  intros E H C. destruct r as [y|e].
  - destruct (compress_block_cases _ _ _ _ E) as (b & -> & [(-> & ->) | (Q & Hb & -> & ->)]);
      [assumption|].
    destruct (String.eqb_spec (generate_hash (JStr Q)) (generate_hash (JStr P))) as [Eh | Nh].
    + rewrite (C b Q eq_refl Hb Eh). apply held_offloaded.
    + destruct H as (e & G & Ce). exists e. split; [|exact Ce].
      cbn [offloaded ccr_store]. rewrite StoreFacts.get_set_other; [exact G|].
      intros X. apply Nh. now symmetry.
  - destruct (compress_block_raises _ _ _ _ E) as (_ & -> & _). assumption.
Qed.

Lemma held_after_blocks l : forall w r w' P,
  mapM compress_block l w = (r, w') -> held w P ->
  (forall b Q, In (JDict b) l -> offloads Q b ->
     generate_hash (JStr Q) = generate_hash (JStr P) -> Q = P) ->
  held w' P.
Proof.
  induction l as [|v l IH]; intros w r w' P E H C.
  - injection E as _ <-. assumption.
  - cbn [mapM] in E. unfold bind at 1 in E.
    destruct (compress_block v w) as [[y|e] w1] eqn:E1.
    + assert (H1 : held w1 P).
      { apply (held_after_block _ _ _ _ _ E1 H). intros b Q -> Hb. apply (C b Q); [now left | exact Hb]. }
      unfold bind at 1 in E.
      destruct (mapM compress_block l w1) as [[zs|e] w2] eqn:E2; injection E as _ <-;
        apply (IH _ _ _ _ E2 H1); intros b Q Hin; apply C; now right.
    + injection E as _ <-.
      apply (held_after_block _ _ _ _ _ E1 H). intros b Q -> Hb. apply (C b Q); [now left | exact Hb].
Qed.

Lemma blocks_recoverable l : forall w ys w',
  mapM compress_block l w = (Ok ys, w') ->
  (forall b1 Q1 b2 Q2, In (JDict b1) l -> offloads Q1 b1 -> In (JDict b2) l -> offloads Q2 b2 ->
     generate_hash (JStr Q1) = generate_hash (JStr Q2) -> Q1 = Q2) ->
  Forall2 (recoverable_block w') l ys.
Proof.
  induction l as [|v l IH]; intros w ys w' E C.
  - injection E as <- _. constructor.
  - cbn [mapM] in E. unfold bind at 1 in E.
    destruct (compress_block v w) as [[y|e] w1] eqn:E1; [|discriminate].
    unfold bind at 1 in E.
    destruct (mapM compress_block l w1) as [[zs|e] w2] eqn:E2; [|discriminate].
    injection E as <- <-. constructor.
    + destruct (compress_block_cases _ _ _ _ E1) as (b & -> & [(-> & ->) | (P & Hb & -> & ->)]);
        [now left|].
      right. exists b, P. split; [reflexivity|]. split; [exact Hb|]. split; [reflexivity|].
      apply (held_after_blocks _ _ _ _ _ E2 (held_offloaded P b w)).
      intros b2 Q Hin Hq Eh. apply (C b2 Q b P); auto; [now right | now left].
    + apply (IH _ _ _ E2). intros b1 Q1 b2 Q2 H1 O1 H2 O2.
      apply (C b1 Q1 b2 Q2); auto; now right.
Qed.

Lemma held_after_message m w r w' P :
  compress_message m w = (r, w') -> held w P ->
  (forall Q, offered [m] Q -> generate_hash (JStr Q) = generate_hash (JStr P) -> Q = P) ->
  held w' P.
Proof.
  unfold compress_message. intros E H C.
  assert (Hsame : forall (x : result dict), (x, w) = (r, w') -> held w' P).
  { intros x [= _ <-]. assumption. }
  destruct (is_str (Json.get "role" m) "user") eqn:R; [|now apply (Hsame _ E)].
  destruct (Json.get "content" m) as [[| | | | |l|]|] eqn:G; try (now apply (Hsame _ E)).
  unfold bind in E.
  assert (C' : forall b Q, In (JDict b) l -> offloads Q b ->
                 generate_hash (JStr Q) = generate_hash (JStr P) -> Q = P).
  { intros b Q Hin Hb. apply C. exists m, l, b.
    split; [now left|]. split; [exact R|]. split; [exact G|]. split; [exact Hin | exact Hb]. }
  destruct (mapM compress_block l w) as [[ys|e] w1] eqn:E1; injection E as _ <-;
    exact (held_after_blocks _ _ _ _ _ E1 H C').
Qed.

Lemma offered_cons m msgs Q : offered msgs Q -> offered (m :: msgs) Q.
Proof.
  intros (m0 & l & b & Hin & H). exists m0, l, b. split; [now right | exact H].
Qed.

Lemma offered_head m msgs Q : offered [m] Q -> offered (m :: msgs) Q.
Proof.
  intros (m0 & l & b & [<- | []] & H). exists m, l, b. split; [now left | exact H].
Qed.

Lemma held_after_messages msgs : forall w r w' P,
  mapM compress_message msgs w = (r, w') -> held w P ->
  (forall Q, offered msgs Q -> generate_hash (JStr Q) = generate_hash (JStr P) -> Q = P) ->
  held w' P.
Proof.
  induction msgs as [|m msgs IH]; intros w r w' P E H C.
  - injection E as _ <-. assumption.
  - cbn [mapM] in E. unfold bind at 1 in E.
    assert (Cm : forall Q, offered [m] Q ->
                   generate_hash (JStr Q) = generate_hash (JStr P) -> Q = P).
    { intros Q HQ. apply C. now apply offered_head. }
    assert (Ct : forall Q, offered msgs Q ->
                   generate_hash (JStr Q) = generate_hash (JStr P) -> Q = P).
    { intros Q HQ. apply C. now apply offered_cons. }
    destruct (compress_message m w) as [[y|e] w1] eqn:E1.
    + pose proof (held_after_message _ _ _ _ _ E1 H Cm) as H1.
      unfold bind at 1 in E.
      destruct (mapM compress_message msgs w1) as [[zs|e] w2] eqn:E2; injection E as _ <-;
        exact (IH _ _ _ _ E2 H1 Ct).
    + injection E as _ <-. exact (held_after_message _ _ _ _ _ E1 H Cm).
Qed.

Lemma recoverable_blocks_lift w1 w' l l' :
  Forall2 (recoverable_block w1) l l' ->
  (forall b P, In (JDict b) l -> offloads P b -> held w1 P -> held w' P) ->
  Forall2 (recoverable_block w') l l'.
Proof.
  induction 1 as [|v y l l' Hv _ IH]; intros K; constructor.
  - destruct Hv as [-> | (b & P & -> & Hb & -> & Hh)]; [now left|].
    right. exists b, P. split; [reflexivity|]. split; [exact Hb|]. split; [reflexivity|].
    apply (K b P); auto. now left.
  - apply IH. intros b P Hin. apply K. now right.
Qed.

Lemma message_recoverable m w y w1 :
  compress_message m w = (Ok y, w1) ->
  collision_free [m] ->
  y = m \/
  (is_str (Json.get "role" m) "user" = true /\
   exists l l', Json.get "content" m = Some (JList l) /\
                y = Json.set "content" (JList l') m /\
                Forall2 (recoverable_block w1) l l').
Proof.
  unfold compress_message. intros E C.
  destruct (is_str (Json.get "role" m) "user") eqn:R; [|injection E as <- _; now left].
  destruct (Json.get "content" m) as [c|] eqn:G; [|injection E as <- _; now left].
  destruct c as [| | | | |l|]; try (injection E as <- _; now left).
  unfold bind in E.
  destruct (mapM compress_block l w) as [[ys|e] w2] eqn:E1; [|discriminate].
  injection E as <- <-. right. split; [reflexivity|].
  exists l, ys. split; [reflexivity|]. split; [reflexivity|].
  apply (blocks_recoverable _ _ _ _ E1).
  intros b1 Q1 b2 Q2 H1 O1 H2 O2. apply C.
  - exists m, l, b1. split; [now left|]. split; [exact R|]. split; [exact G|].
    split; [exact H1 | exact O1].
  - exists m, l, b2. split; [now left|]. split; [exact R|]. split; [exact G|].
    split; [exact H2 | exact O2].
Qed.

Lemma messages_recoverable msgs : forall w ys w',
  mapM compress_message msgs w = (Ok ys, w') ->
  collision_free msgs ->
  Forall2 (recoverable w') msgs ys.
Proof.
  induction msgs as [|m msgs IH]; intros w ys w' E C.
  - injection E as <- _. constructor.
  - cbn [mapM] in E. unfold bind at 1 in E.
    destruct (compress_message m w) as [[y|e] w1] eqn:E1; [|discriminate].
    unfold bind at 1 in E.
    destruct (mapM compress_message msgs w1) as [[zs|e] w2] eqn:E2; [|discriminate].
    injection E as <- <-. constructor.
    + assert (Cm : collision_free [m]).
      { intros P Q HP HQ. apply C; now apply offered_head. }
      destruct (message_recoverable _ _ _ _ E1 Cm) as [-> | (R & l & l' & G & -> & F)];
        [now left|].
      right. exists l, l'. split; [exact G|]. split; [reflexivity|].
      apply (recoverable_blocks_lift w1 _ _ _ F).
      intros b P Hin Hb Hh.
      apply (held_after_messages _ _ _ _ _ E2 Hh).
      intros Q HQ. apply C; [now apply offered_cons|].
      exists m, l, b. split; [now left|]. split; [exact R|]. split; [exact G|].
      split; [exact Hin | exact Hb].
    + apply (IH _ _ _ E2). intros P Q HP HQ. apply C; now apply offered_cons.
Qed.

(** X29. The fallback loses nothing: when no two different contents it
    offloads from the conversation share an address, every message it returns
    is the original, or the original with a content whose blocks are the
    original ones or carry the reference of an entry that the store holds,
    when [basic_compress] returns, with the original content. *)
Theorem fallback_is_lossless
    (msgs : list dict) (tls : option (list dict)) (w : world)
    (r : CompressResponse) (w' : world) :
  collision_free msgs ->
  basic_compress msgs tls w = (Ok r, w') ->
  Forall2 (recoverable w') msgs (messages r).
Proof.
  intros C E. destruct (basic_compress_result _ _ _ _ _ E) as (R & _).
  exact (messages_recoverable _ _ _ _ R C).
Qed.

(** ** The further properties at concrete inputs *)

Lemma warm_world_wf : Store.wf (ccr_store warm_world).
Proof. repeat constructor. simpl. intros []. Qed.

Lemma warm_world_addressed : addressed (ccr_store warm_world).
Proof.
  intros k e [[= <- <-] | []]. exists big_payload. split; [reflexivity|].
  split; [vm_compute; reflexivity | symmetry; apply big_address_eq].
Qed.

Lemma warm_entry :
  Store.get big_address (ccr_store warm_world)
  = Some (Entry (JStr big_payload) 1050 (JStr "toolu_1")).
Proof. reflexivity. Qed.

Lemma warm_entry_live :
  next_time warm_world - timestamp (Entry (JStr big_payload) 1050 (JStr "toolu_1"))
  <= ccr_ttl default_config.
Proof. vm_compute. discriminate. Qed.

Lemma big_request_blocks : Forall blocks_are_dicts (req_messages big_request).
Proof.
  constructor; [|constructor]. intros _ l [= <-]. constructor; [|constructor].
  now eexists.
Qed.

Lemma big_request_over_minimum :
  smart_crusher_min_tokens default_config
  <= estimate_tokens (messages_json (req_messages big_request)).
Proof. vm_compute. discriminate. Qed.

Lemma broken_request_over_minimum :
  smart_crusher_min_tokens default_config
  <= estimate_tokens (messages_json (req_messages broken_request)).
Proof. vm_compute. discriminate. Qed.

Lemma generate_hash_ignores_key_order_witness :
  generate_hash (JDict [("b", JInt 1); ("a", JList [JDict [("y", JNull); ("x", JStr "v")]])])
  = generate_hash (JDict [("a", JList [JDict [("x", JStr "v"); ("y", JNull)]]); ("b", JInt 1)]).
Proof.
  apply generate_hash_ignores_key_order.
  apply reordered_trans with
    (JDict [("b", JInt 1); ("a", JList [JDict [("x", JStr "v"); ("y", JNull)]])]).
  - apply reordered_value; [apply reordered_refl|].
    apply reordered_value; [|apply reordered_refl].
    apply reordered_element; [|apply reordered_refl].
    apply reordered_items; [|apply perm_swap].
    repeat constructor; simpl; intuition discriminate.
  - apply reordered_items; [|apply perm_swap].
    repeat constructor; simpl; intuition discriminate.
Defined.

Lemma retrieved_content_has_requested_address_witness :
  exists s,
    resp_content (answer (get_request big_address) (JStr big_payload)) = Some (JStr s) /\
    generate_hash (JStr s) = big_address.
Proof.
  destruct (retrieved_content_has_requested_address
              default_config (get_request big_address) warm_world
              (answer (get_request big_address) (JStr big_payload))
              (after_retrieve default_config warm_world)
              warm_world_wf warm_world_addressed
              (ccr_retrieve_live default_config (get_request big_address) warm_world _
                 warm_world_wf warm_entry warm_entry_live)
              eq_refl) as (s & C & H & _).
  exists s. split; [exact C | exact H].
Defined.

Lemma retrieval_does_not_refresh_witness :
  Store.get big_address
    (ccr_store (snd (ccr_retrieve default_config (get_request big_address) warm_world)))
  = Some (Entry (JStr big_payload) 1050 (JStr "toolu_1")).
Proof.
  exact (proj1 (retrieval_does_not_refresh default_config (get_request big_address)
                  warm_world _ warm_world_wf warm_entry warm_entry_live)).
Defined.

Lemma retrievals_count_found_entries_witness :
  exists resp w',
    ccr_retrieve default_config (get_request "000000000000") warm_world = (Ok resp, w') /\
    ticks w' = S (ticks warm_world).
Proof.
  destruct (retrievals_count_found_entries default_config (get_request "000000000000")
              warm_world warm_world_wf) as (resp & w' & E & _ & _ & _ & T).
  exists resp, w'. split; [exact E | exact T].
Defined.

Lemma reference_leads_back_to_content_witness :
  exists text w1,
    compress_block (JDict (tool_block "toolu_1" big_payload)) (fresh_world 50)
    = (Ok (JDict (Json.set "content" (JStr text) (tool_block "toolu_1" big_payload))), w1) /\
    address_in text = generate_hash (JStr big_payload).
Proof.
  destruct (reference_leads_back_to_content default_config big_payload
              (tool_block "toolu_1" big_payload) (fresh_world 50)
              empty_store_wf (big_payload_offloads "toolu_1"))
    as (text & w1 & E & A & _).
  exists text, w1. split; [exact E | exact A].
Defined.

Lemma analyze_after_sweep_suggests_live_witness :
  exists exps,
    ccr_analyze "x" 1 (snd (health_check default_config warm_world))
    = (Ok exps, snd (health_check default_config warm_world)).
Proof.
  destruct (analyze_after_sweep_suggests_live default_config "x" 1 warm_world warm_world_wf)
    as (exps & E & _).
  exists exps. exact E.
Defined.

Lemma fallback_never_inflates_witness :
  exists r w',
    basic_compress (req_messages big_request) None (fresh_world 50) = (Ok r, w') /\
    estimate_tokens (messages_json (messages r))
    + (ccr_stores (metrics w') - ccr_stores (metrics (fresh_world 50)))
    <= estimate_tokens (messages_json (req_messages big_request)).
Proof.
  destruct (basic_compress_returns (req_messages big_request) None (fresh_world 50)
              big_request_blocks) as (r & w' & E).
  exists r, w'. split; [exact E|].
  exact (proj1 (proj2 (fallback_never_inflates _ _ _ _ _ E))).
Defined.

Lemma fallback_keeps_shape_witness :
  exists r w',
    basic_compress (req_messages big_request) None (fresh_world 50) = (Ok r, w') /\
    List.length (messages r) = 1%nat.
Proof.
  destruct (basic_compress_returns (req_messages big_request) None (fresh_world 50)
              big_request_blocks) as (r & w' & E).
  exists r, w'. split; [exact E|].
  exact (proj1 (proj2 (fallback_keeps_shape _ _ _ _ _ E))).
Defined.

Lemma fallback_fails_on_non_dict_block_witness :
  exists w',
    basic_compress (req_messages broken_request) None (fresh_world 50)
    = (Raise AttributeError, w').
Proof.
  apply (proj2 (proj2 (fallback_fails_on_non_dict_block
                         (req_messages broken_request) None (fresh_world 50)))).
  intros HF. inversion HF as [|? ? Hm _]; subst.
  specialize (Hm eq_refl _ eq_refl). inversion Hm as [|? ? _ Hl]; subst.
  inversion Hl as [|? ? (b & Hb) _]; subst. discriminate Hb.
Defined.

Lemma big_request_within_limits : Forall within_limits (req_messages big_request).
Proof.
  constructor; [|constructor]. intros blocks b P [= <-] [[= <-] | []] [= <-].
  vm_compute. reflexivity.
Qed.

Lemma fallback_is_idempotent_witness :
  exists r w' r',
    basic_compress (req_messages big_request) None (fresh_world 50) = (Ok r, w') /\
    basic_compress (messages r) None w' = (Ok r', w') /\
    messages r' = messages r.
Proof.
  destruct (basic_compress_returns (req_messages big_request) None (fresh_world 50)
              big_request_blocks) as (r & w' & E).
  destruct (fallback_is_idempotent _ _ _ _ _ big_request_within_limits E)
    as (r' & E' & M & _).
  exists r, w', r'. split; [exact E|]. split; [exact E' | exact M].
Defined.

Lemma broken_request_blocks : ~ Forall blocks_are_dicts (req_messages broken_request).
Proof.
  intros HF. inversion HF as [|? ? Hm _]; subst.
  specialize (Hm eq_refl _ eq_refl). inversion Hm as [|? ? _ Hl]; subst.
  inversion Hl as [|? ? (b & Hb) _]; subst. discriminate Hb.
Qed.

Lemma compress_fails_only_with_500_witness :
  engine_response (Some garbling_engine) broken_request = None /\
  exists w',
    compress_messages default_config (Some garbling_engine) broken_request (fresh_world 50)
    = (Raise (HTTPException 500), w') /\
    errors (metrics w') = 1 /\
    compressions_applied (metrics w') = 1 /\
    total_tokens_after (metrics w') = 2.
Proof.
  split; [reflexivity|].
  destruct (proj2 (compress_fails_only_with_500 default_config (Some garbling_engine)
                     broken_request (fresh_world 50))
              broken_request_over_minimum eq_refl broken_request_blocks) as (w' & E).
  exists w'. split; [exact E|].
  destruct (proj1 (compress_fails_only_with_500 default_config (Some garbling_engine)
                     broken_request (fresh_world 50)) _ _ E)
    as (_ & _ & _ & _ & _ & Er & _ & _ & _ & Ta & Ap).
  split; [exact Er|]. split; [exact Ap | exact Ta].
Defined.

Lemma failed_request_keeps_its_offloads_witness :
  exists w',
    compress_messages default_config None broken_request (fresh_world 50)
    = (Raise (HTTPException 500), w') /\
    Store.get (generate_hash (JStr big_payload)) (ccr_store w')
    = Some (Entry (JStr big_payload) 1050 (JStr "toolu_1")) /\
    errors (metrics w') = 1.
Proof.
  destruct (failed_request_keeps_its_offloads default_config None broken_request
              (fresh_world 50) big_payload (tool_block "toolu_1" big_payload)
              (JStr "not a block") [] [] eq_refl (big_payload_offloads "toolu_1"))
    as (w' & E & _ & G & _ & Er).
  - intros (b & Hb). discriminate Hb.
  - exact broken_request_over_minimum.
  - reflexivity.
  - exists w'. split; [exact E|]. split; [exact G | exact Er].
Defined.

Lemma handlers_keep_metrics_balanced_witness :
  balanced (metrics (fresh_world 50)) /\
  balanced (metrics (snd (compress_messages default_config (Some failing_engine)
                            broken_request (fresh_world 50)))) /\
  let m' := metrics (snd (compress_messages default_config (Some garbling_engine)
                            big_request (fresh_world 50))) in
  compressions_applied m' + compressions_skipped m' + errors m' = requests_total m' + 1.
Proof.
  assert (H : balanced (metrics (fresh_world 50))) by reflexivity.
  split; [exact H|]. split.
  - pose proof (proj1 (handlers_keep_metrics_balanced default_config (Some failing_engine)
                         (fresh_world 50) H) broken_request) as P.
    cbv zeta in P.
    assert (C : answer_refused (Some failing_engine) broken_request = false) by reflexivity.
    rewrite C, andb_false_r in P. exact P.
  - pose proof (proj1 (handlers_keep_metrics_balanced default_config (Some garbling_engine)
                         (fresh_world 50) H) big_request) as P.
    cbv zeta in P.
    assert (C : answer_refused (Some garbling_engine) big_request = true) by reflexivity.
    rewrite C, andb_true_r in P.
    assert (L : (smart_crusher_min_tokens default_config
                   <=? estimate_tokens (messages_json (req_messages big_request))) = true)
      by (apply Z.leb_le; exact big_request_over_minimum).
    rewrite L in P. exact P.
Defined.

Lemma engine_failure_is_engine_absence_witness :
  compress_messages default_config (Some failing_engine) big_request (fresh_world 50)
  = compress_messages default_config None big_request (fresh_world 50).
Proof.
  exact (engine_failure_is_engine_absence default_config (Some failing_engine) None
           big_request (fresh_world 50) eq_refl).
Defined.

Lemma only_the_fallback_writes_the_store_witness :
  exists resp w',
    compress_messages default_config (Some echo_engine) big_request (fresh_world 50)
      = (Ok resp, w') /\
    tools resp = None /\ ccr_store w' = [].
Proof.
  destruct (compress_messages default_config (Some echo_engine) big_request (fresh_world 50))
    as [[resp|e] w'] eqn:E; [|vm_compute in E; discriminate E].
  destruct (only_the_fallback_writes_the_store _ _ _ _ _ _ E) as (T & _ & _ & _ & S & _).
  exists resp, w'. split; [reflexivity|]. split; [exact T|].
  apply S. right.
  assert (R : engine_response (Some echo_engine) big_request
              = Some (req_messages big_request, [])).
  { unfold engine_response. cbn [engine_answer echo_engine normalize fst snd].
    change (JList (map JDict (req_messages big_request)))
      with (messages_json (req_messages big_request)).
    now rewrite as_messages_json. }
  rewrite R. discriminate.
Defined.

Lemma empty_conversation_is_answered_witness :
  exists resp w',
    compress_messages (Config 0 300) None
      {| req_messages := []; req_tools := None; req_model := None; req_model_limit := None |}
      (fresh_world 50) = (Ok resp, w') /\
    stats_get "savings_percent" (stats resp) = Some (SInt 0).
Proof.
  destruct (empty_conversation_is_answered (Config 0 300) None
              {| req_messages := []; req_tools := None; req_model := None;
                 req_model_limit := None |} (fresh_world 50) eq_refl)
    as (resp & w' & E & _ & _ & _ & _ & Z0).
  exists resp, w'. split; [exact E|].
  apply Z0. cbn. lia.
Defined.

Lemma metrics_count_unswept_entries_witness :
  exists report entries_cached w1,
    get_metrics stale_world = (Ok report, stale_world) /\
    health_check default_config stale_world = (Ok entries_cached, w1) /\
    entries_cached <= ccr_entries report.
Proof.
  assert (H : Store.wf (ccr_store stale_world)).
  { repeat constructor. simpl. intros []. }
  destruct (metrics_count_unswept_entries default_config stale_world H)
    as (report & n & w1 & E1 & E2 & _ & _ & L & _).
  exists report, n, w1. split; [exact E1|]. split; [exact E2 | exact L].
Defined.

Lemma ratio_at_most_one_without_engine_witness :
  totals_ordered
    (metrics (snd (compress_messages default_config None big_request warm_world))).
Proof.
  assert (H : totals_ordered (metrics warm_world)) by (vm_compute; split; discriminate).
  exact (proj1 (ratio_at_most_one_without_engine default_config None big_request
                  warm_world eq_refl H)).
Defined.

Lemma str_to_bool_folds_case_witness :
  str_to_bool "YES" = true /\ (1 <= String.length "YES" <= 4)%nat.
Proof.
  assert (H : str_to_bool "YES" = true) by reflexivity.
  split; [exact H|].
  exact (proj1 (proj2 (str_to_bool_folds_case "YES") H)).
Defined.

Lemma unset_environment_gives_defaults_witness :
  exists c,
    Settings.init decimal_int [("PATH", "/usr/bin")] = Some c /\
    Settings.handlers c = default_config.
Proof.
  destruct (unset_environment_gives_defaults decimal_int [("PATH", "/usr/bin")]
              eq_refl eq_refl eq_refl eq_refl eq_refl) as (c & E & H & _).
  - intros key Hin [E | []]. subst key.
    cbn in Hin. repeat (destruct Hin as [Hin | Hin]; [discriminate Hin|]). exact Hin.
  - exists c. split; [exact E | exact H].
Defined.

Lemma store_never_exceeds_counted_offloads_witness :
  counted_for (snd (compress_messages default_config None big_request (fresh_world 50))).
Proof.
  assert (H : counted_for (fresh_world 50)) by (unfold counted_for; cbn; lia).
  exact (proj1 (store_never_exceeds_counted_offloads default_config None (fresh_world 50)
                  empty_store_wf H) big_request).
Defined.

Lemma only_addresses_are_found_witness :
  ccr_retrieve default_config (get_request "F6ADED27D686") warm_world
  = (Ok (not_found "F6ADED27D686"), after_sweep default_config warm_world).
Proof.
  apply (only_addresses_are_found default_config (get_request "F6ADED27D686") warm_world
           warm_world_wf warm_world_addressed).
  intros (_ & H). vm_compute in H. discriminate H.
Defined.

Lemma query_search_is_substring_search_witness :
  exists resp,
    ccr_retrieve default_config
      {| req_hash := big_address; req_query := Some "XXX"; req_max_results := None |}
      warm_world = (Ok resp, after_retrieve default_config warm_world) /\
    success resp = true.
Proof.
  destruct (query_search_is_substring_search default_config
              {| req_hash := big_address; req_query := Some "XXX"; req_max_results := None |}
              warm_world _ big_payload "XXX"
              warm_world_wf warm_entry warm_entry_live eq_refl eq_refl)
    as (resp & E & S & _).
  - discriminate.
  - exists resp. split; [exact E|]. apply S.
    exists "", (PyStr.lower (replicate 4997 "x")). vm_compute. reflexivity.
Defined.

Lemma big_request_collision_free : collision_free (req_messages big_request).
Proof.
  assert (One : forall X, offered (req_messages big_request) X -> X = big_payload).
  { intros X (m & l & b & Hm & _ & G & Hin & (_ & Cb & _)).
    destruct Hm as [<- | []].
    change (Some (JList [JDict (tool_block "toolu_1" big_payload)]) = Some (JList l)) in G.
    injection G as <-. destruct Hin as [Hb | []]. injection Hb as <-.
    change (Some (JStr big_payload) = Some (JStr X)) in Cb. now injection Cb as <-. }
  intros P Q HP HQ _. rewrite (One P HP), (One Q HQ). reflexivity.
Qed.

Lemma fallback_is_lossless_witness :
  exists r w',
    basic_compress (req_messages big_request) None (fresh_world 50) = (Ok r, w') /\
    Forall2 (recoverable w') (req_messages big_request) (messages r).
Proof.
  destruct (basic_compress_returns (req_messages big_request) None (fresh_world 50)
              big_request_blocks) as (r & w' & E).
  exists r, w'. split; [exact E|].
  exact (fallback_is_lossless _ _ _ _ _ big_request_collision_free E).
Defined.
